(** * go-annuaire: the contact directory of [main.go]

    A shallow embedding of the directory store of [main.go] (the types
    [Contact] and [Annuaire], the operations [rechercherContact],
    [ajouterContact], [supprimerContact], [modifierContact],
    [chargerAnnuaire] and [sauvegarderAnnuaire]) and the properties of the
    specification stated over it.

    Conventions.
    - A Go [string] is a sequence of bytes: [String.string], whose
      characters are the 8-bit [ascii].
    - A Go slice [[]Contact] is [option (list Contact)]: [None] is the nil
      slice, [Some l] a non-nil slice with elements [l].
    - A method with a pointer receiver that returns [error] becomes a
      function returning the new value of the receiver and [option error]
      ([None] is Go's [nil] error).
    - [strings.ToLower] and [strings.TrimSpace] belong to the Go standard
      library, not to the repository: the operations take them as
      parameters.  [asciiToLower] and [asciiTrimSpace] are what the two
      functions compute on strings of ASCII bytes and serve for closed
      examples.
    - The snapshot file is a record of what [os.Stat], [os.ReadFile] and
      [os.WriteFile] observe; [json.MarshalIndent] and [json.Unmarshal] are
      modelled for the type [Annuaire], byte for byte. *)

From Stdlib Require Import String Ascii List Bool Arith NArith ZArith Lia Permutation.
Import ListNotations.
Open Scope string_scope.
Open Scope list_scope.

(** ** Data model *)

(** [type Contact struct { Nom, Prenom, Tel string }] *)
Record Contact : Type := mkContact {
  Nom : string;
  Prenom : string;
  Tel : string
}.

Definition slice (A : Type) : Type := option (list A).

(** The elements a [range] over the slice visits ([len] of a nil slice is 0). *)
Definition elems {A : Type} (s : slice A) : list A :=
  match s with
  | None => []
  | Some l => l
  end.

(** [type Annuaire struct { Contacts []Contact }] *)
Record Annuaire : Type := mkAnnuaire {
  Contacts : slice Contact
}.

(** The values built by the [fmt.Errorf] calls of [main.go], one constructor
    per format string. *)
Inductive error : Type :=
| ErrLecture                      (* "Erreur lors de la lecture du fichier: %v" *)
| ErrParsing                      (* "Erreur lors du parsing JSON: %v" *)
| ErrSerialisation                (* "Erreur lors de la sérialisation JSON: %v" *)
| ErrEcriture                     (* "Erreur lors de l'écriture du fichier: %v" *)
| ErrExisteDeja (nom : string)    (* "Un contact avec le nom '%s' existe déjà" *)
| ErrNomVide                      (* "Le nom ne peut pas être vide !" *)
| ErrTelVide                      (* "Le numéro de téléphone ne peut pas être vide !" *)
| ErrAucunContact (nom : string). (* "Aucun contact trouvé avec le nom '%s'" *)

(** The error kinds of the specification, and the kind of each error value. *)
Inductive ErrorKind : Type :=
| LoadFailure | PersistFailure | ValidationError | DuplicateError | NotFoundError.

Definition kind (e : error) : ErrorKind :=
  match e with
  | ErrLecture | ErrParsing => LoadFailure
  | ErrSerialisation | ErrEcriture => PersistFailure
  | ErrExisteDeja _ => DuplicateError
  | ErrNomVide | ErrTelVide => ValidationError
  | ErrAucunContact _ => NotFoundError
  end.

(** ** The directory operations *)

Section Operations.

(** [strings.ToLower] and [strings.TrimSpace]. *)
Variable ToLower : string -> string.
Variable TrimSpace : string -> string.

(** The loop shared by [rechercherContact] and [supprimerContact]:
    [for i := range a.Contacts { if strings.ToLower(a.Contacts[i].Nom) == nomLower { ... i ... } }],
    started at index [i]; the index of the first match, if any. *)
Fixpoint premierIndice (nomLower : string) (cs : list Contact) (i : nat) : option nat :=
  match cs with
  | [] => None
  | c :: reste =>
      if (ToLower (Nom c) =? nomLower)%string then Some i
      else premierIndice nomLower reste (S i)
  end.

(** [func (a *Annuaire) rechercherContact(nom string) *Contact]: the
    pointer [&a.Contacts[i]] is the index [i]; [None] is the nil pointer. *)
Definition rechercherContact (a : Annuaire) (nom : string) : option nat :=
  let nomLower := ToLower nom in
  premierIndice nomLower (elems (Contacts a)) 0.

(** [func (a *Annuaire) ajouterContact(nom, prenom, tel string) error] *)
Definition ajouterContact (a : Annuaire) (nom prenom tel : string)
  : Annuaire * option error :=
  match rechercherContact a nom with
  | Some _ => (a, Some (ErrExisteDeja nom))
  | None =>
      if (nom =? "")%string then (a, Some ErrNomVide)
      else if (tel =? "")%string then (a, Some ErrTelVide)
      else
        let contact := {| Nom := TrimSpace nom;
                          Prenom := TrimSpace prenom;
                          Tel := TrimSpace tel |} in
        ({| Contacts := Some (elems (Contacts a) ++ [contact]) |}, None)
  end.

(** [func (a *Annuaire) supprimerContact(nom string) error];
    [append(a.Contacts[:i], a.Contacts[i+1:]...)] is [firstn i cs ++ skipn (S i) cs]. *)
Definition supprimerContact (a : Annuaire) (nom : string)
  : Annuaire * option error :=
  let nomLower := ToLower nom in
  let cs := elems (Contacts a) in
  match premierIndice nomLower cs 0 with
  | Some i => ({| Contacts := Some (firstn i cs ++ skipn (S i) cs) |}, None)
  | None => (a, Some (ErrAucunContact nom))
  end.

(** A write through the pointer [&cs[i]]: the element at index [i] is
    replaced by [f] of itself, in place. *)
Fixpoint ecrire (i : nat) (f : Contact -> Contact) (cs : list Contact) : list Contact :=
  match cs, i with
  | [], _ => []
  | c :: reste, O => f c :: reste
  | c :: reste, S j => c :: ecrire j f reste
  end.

(** The two guarded assignments of [modifierContact] on the contact pointed to. *)
Definition modifierChamps (nouveauPrenom nouveauTel : string) (contact : Contact) : Contact :=
  let contact1 :=
    if negb (nouveauPrenom =? "")%string
    then {| Nom := Nom contact; Prenom := TrimSpace nouveauPrenom; Tel := Tel contact |}
    else contact in
  if negb (nouveauTel =? "")%string
  then {| Nom := Nom contact1; Prenom := Prenom contact1; Tel := TrimSpace nouveauTel |}
  else contact1.

(** [func (a *Annuaire) modifierContact(nom, nouveauPrenom, nouveauTel string) error] *)
Definition modifierContact (a : Annuaire) (nom nouveauPrenom nouveauTel : string)
  : Annuaire * option error :=
  match rechercherContact a nom with
  | None => (a, Some (ErrAucunContact nom))
  | Some i =>
      ({| Contacts := Some (ecrire i (modifierChamps nouveauPrenom nouveauTel)
                                   (elems (Contacts a))) |}, None)
  end.

(** *** Sequences of operations *)

Inductive Operation : Type :=
| Ajouter (nom prenom tel : string)
| Supprimer (nom : string)
| Modifier (nom nouveauPrenom nouveauTel : string).

Definition appliquer (a : Annuaire) (op : Operation) : Annuaire * option error :=
  match op with
  | Ajouter nom prenom tel => ajouterContact a nom prenom tel
  | Supprimer nom => supprimerContact a nom
  | Modifier nom np nt => modifierContact a nom np nt
  end.

(** The directory after a sequence of operations, failed ones included. *)
Definition executer (a : Annuaire) (ops : list Operation) : Annuaire :=
  fold_left (fun a op => fst (appliquer a op)) ops a.

(** No two contacts have names equal under the comparison of
    [rechercherContact] (equality of the [ToLower] images). *)
Definition nomsUniques (a : Annuaire) : Prop :=
  NoDup (map (fun c => ToLower (Nom c)) (elems (Contacts a))).

(** [nom] matches no contact of [cs]. *)
Definition aucun (nom : string) (cs : list Contact) : Prop :=
  Forall (fun c => ToLower (Nom c) <> ToLower nom) cs.

End Operations.

(** ** [strings.ToLower] and [strings.TrimSpace] on ASCII strings *)

(** ['A' <= c && c <= 'Z'] then [c += 'a' - 'A']. *)
Definition lowerByte (c : ascii) : ascii :=
  let n := N_of_ascii c in
  if ((65 <=? n) && (n <=? 90))%N then ascii_of_N (n + 32) else c.

(** The ASCII path of [strings.ToLower]. *)
Fixpoint asciiToLower (s : string) : string :=
  match s with
  | EmptyString => EmptyString
  | String c r => String (lowerByte c) (asciiToLower r)
  end.

(** The table [asciiSpace] of package [strings]: tab, newline, vertical tab,
    form feed, carriage return and space. *)
Definition asciiSpace (c : ascii) : bool :=
  let n := N_of_ascii c in
  ((n =? 9) || (n =? 10) || (n =? 11) || (n =? 12) || (n =? 13) || (n =? 32))%N.

Fixpoint trimLeft (s : string) : string :=
  match s with
  | EmptyString => EmptyString
  | String c r => if asciiSpace c then trimLeft r else s
  end.

Fixpoint trimRight (s : string) : string :=
  match s with
  | EmptyString => EmptyString
  | String c r =>
      match trimRight r with
      | EmptyString => if asciiSpace c then EmptyString else String c EmptyString
      | r' => String c r'
      end
  end.

(** The ASCII path of [strings.TrimSpace]: [s[start:stop]] after the two scans. *)
Definition asciiTrimSpace (s : string) : string := trimRight (trimLeft s).

(** The operations with the ASCII string functions, for closed examples. *)
Definition rechercher := rechercherContact asciiToLower.
Definition ajouter := ajouterContact asciiToLower asciiTrimSpace.
Definition supprimer := supprimerContact asciiToLower.
Definition modifier := modifierContact asciiToLower asciiTrimSpace.

Definition dupont : Contact := {| Nom := "Dupont"; Prenom := "Jean"; Tel := "0123456789" |}.
Definition martin : Contact := {| Nom := "Martin"; Prenom := "Anne"; Tel := "0611223344" |}.
Definition durand : Contact := {| Nom := "Durand"; Prenom := ""; Tel := "0455667788" |}.

(** * The snapshot file and its JSON encoding

    [encoding/json], [unicode/utf8] and [os] belong to the Go standard
    library.  What follows is what [json.MarshalIndent] and
    [json.Unmarshal] do for the type [Annuaire], down to the bytes. *)

(** ** Package [unicode/utf8] *)

Definition RuneError : N := 0xFFFD.
Definition MaxRune : N := 0x10FFFF.

(** An entry of the table [first] together with its [acceptRanges] entry:
    [as] (ASCII), [xx] (invalid), or the size of the sequence and the range
    accepted for its second byte ([s1] .. [s7]). *)
Inductive firstEntry : Type :=
| AS
| XX
| SZ (size : nat) (lo hi : N).

Definition first (p0 : N) : firstEntry :=
  (if p0 <? 0x80 then AS
   else if p0 <? 0xC2 then XX
   else if p0 <? 0xE0 then SZ 2 0x80 0xBF
   else if p0 =? 0xE0 then SZ 3 0xA0 0xBF
   else if p0 <? 0xED then SZ 3 0x80 0xBF
   else if p0 =? 0xED then SZ 3 0x80 0x9F
   else if p0 <? 0xF0 then SZ 3 0x80 0xBF
   else if p0 =? 0xF0 then SZ 4 0x90 0xBF
   else if p0 <? 0xF4 then SZ 4 0x80 0xBF
   else if p0 =? 0xF4 then SZ 4 0x80 0x8F
   else XX)%N.

(** The value of a byte. *)
Definition octet (c : ascii) : N := N_of_ascii c.

(** The runes [DecodeRune] assembles from two, three and four bytes
    ([mask2 = 0x1F], [mask3 = 0x0F], [mask4 = 0x07], [maskx = 0x3F]). *)
Definition rune2 (p0 b1 : N) : N :=
  N.lor (N.shiftl (N.land p0 0x1F) 6) (N.land b1 0x3F).

Definition rune3 (p0 b1 b2 : N) : N :=
  N.lor (N.lor (N.shiftl (N.land p0 0x0F) 12) (N.shiftl (N.land b1 0x3F) 6))
        (N.land b2 0x3F).

Definition rune4 (p0 b1 b2 b3 : N) : N :=
  N.lor (N.lor (N.lor (N.shiftl (N.land p0 0x07) 18) (N.shiftl (N.land b1 0x3F) 12))
               (N.shiftl (N.land b2 0x3F) 6))
        (N.land b3 0x3F).

(** [b < lo || hi < b] *)
Definition horsDe (lo hi b : N) : bool := ((b <? lo) || (hi <? b))%N.

(** [utf8.DecodeRune] (and [DecodeRuneInString]): the rune at the start of
    [p] and its width in bytes.  A missing byte ([n < sz]) and a byte out
    of range both give [(RuneError, 1)]. *)
Definition DecodeRune (p : string) : N * nat :=
  match p with
  | EmptyString => (RuneError, 0)
  | String c0 p1 =>
      let p0 := octet c0 in
      match first p0 with
      | AS => (p0, 1)
      | XX => (RuneError, 1)
      | SZ sz lo hi =>
          match p1 with
          | EmptyString => (RuneError, 1)
          | String c1 p2 =>
              let b1 := octet c1 in
              if horsDe lo hi b1 then (RuneError, 1)
              else if (sz <=? 2)%nat then (rune2 p0 b1, 2)
              else
                match p2 with
                | EmptyString => (RuneError, 1)
                | String c2 p3 =>
                    let b2 := octet c2 in
                    if horsDe 0x80 0xBF b2 then (RuneError, 1)
                    else if (sz <=? 3)%nat then (rune3 p0 b1 b2, 3)
                    else
                      match p3 with
                      | EmptyString => (RuneError, 1)
                      | String c3 _ =>
                          let b3 := octet c3 in
                          if horsDe 0x80 0xBF b3 then (RuneError, 1)
                          else (rune4 p0 b1 b2 b3, 4)
                      end
                end
          end
      end
  end.

(** [byte(x)]: the low 8 bits, as a character. *)
Definition byte_of (x : N) : ascii := ascii_of_N (N.land x 0xFF).

(** [utf8.EncodeRune] (and [AppendRune]): the bytes written for [r]. *)
Definition EncodeRune (r : N) : string :=
  let trois (r : N) :=
    String (byte_of (N.lor 0xE0 (N.shiftr r 12)))
      (String (byte_of (N.lor 0x80 (N.land (N.shiftr r 6) 0x3F)))
         (String (byte_of (N.lor 0x80 (N.land r 0x3F))) EmptyString)) in
  (if r <=? 0x7F then String (byte_of r) EmptyString
   else if r <=? 0x7FF then
     String (byte_of (N.lor 0xC0 (N.shiftr r 6)))
       (String (byte_of (N.lor 0x80 (N.land r 0x3F))) EmptyString)
   else if (MaxRune <? r) || ((0xD800 <=? r) && (r <=? 0xDFFF)) then trois RuneError
   else if r <=? 0xFFFF then trois r
   else
     String (byte_of (N.lor 0xF0 (N.shiftr r 18)))
       (String (byte_of (N.lor 0x80 (N.land (N.shiftr r 12) 0x3F)))
          (String (byte_of (N.lor 0x80 (N.land (N.shiftr r 6) 0x3F)))
             (String (byte_of (N.lor 0x80 (N.land r 0x3F))) EmptyString))))%N.

(** [s[n:]] and [s[:n]], [n] at most [len(s)]. *)
Fixpoint drop (n : nat) (s : string) : string :=
  match n, s with
  | O, _ => s
  | S n', String _ r => drop n' r
  | S _, EmptyString => EmptyString
  end.

Fixpoint take (n : nat) (s : string) : string :=
  match n, s with
  | O, _ => EmptyString
  | S n', String c r => String c (take n' r)
  | S _, EmptyString => EmptyString
  end.

(** [utf8.ValidString]: no position decodes to [(RuneError, 1)]. *)
Fixpoint validLoop (fuel : nat) (s : string) : bool :=
  match s, fuel with
  | EmptyString, _ => true
  | _, O => false
  | _, S f =>
      let (r, size) := DecodeRune s in
      if (r =? RuneError)%N && (size =? 1)%nat then false
      else validLoop f (drop size s)
  end.

Definition ValidString (s : string) : bool := validLoop (String.length s) s.

(** ** Package [encoding/json]: encoding *)

Definition dquote : ascii := "034"%char.
Definition backslash : ascii := "092"%char.
Definition newline : ascii := "010"%char.

(** The table [htmlSafeSet]: the ASCII bytes written as they are, all from
    the space on except the double quote, [&], [<], [>] and the backslash. *)
Definition htmlSafeSet (b : N) : bool :=
  ((0x20 <=? b) && (b <? 0x80) && negb (b =? 0x22) && negb (b =? 0x26)
   && negb (b =? 0x3C) && negb (b =? 0x3E) && negb (b =? 0x5C))%N.

(** [hex[n]], [hex = "0123456789abcdef"]. *)
Definition hex (n : N) : ascii :=
  match String.get (N.to_nat n) "0123456789abcdef" with
  | Some c => c
  | None => "0"%char
  end.

(** The [switch b] of [appendString] for an ASCII byte outside
    [htmlSafeSet].  The cases of backspace and form feed are those of Go
    1.22; earlier releases write [\u0008] and [\u000c] for them, which
    [unquoteBytes] reads as the same bytes. *)
Definition escapeByte (c : ascii) : string :=
  let b := octet c in
  (if (b =? 0x5C) || (b =? 0x22) then String backslash (String c EmptyString)
   else if b =? 0x08 then String backslash "b"
   else if b =? 0x0C then String backslash "f"
   else if b =? 0x0A then String backslash "n"
   else if b =? 0x0D then String backslash "r"
   else if b =? 0x09 then String backslash "t"
   else String backslash
          (String "u" (String "0" (String "0"
             (String (hex (N.shiftr b 4)) (String (hex (N.land b 0xF)) EmptyString))))))%N.

(** The loop of [appendString(dst, src, escapeHTML = true)] from index [i],
    [src] being [src[i:]]: what is appended between the two quotes. *)
Fixpoint appendStringLoop (fuel : nat) (src : string) : string :=
  match src, fuel with
  | EmptyString, _ => EmptyString
  | _, O => EmptyString
  | String c reste, S f =>
      let b := octet c in
      if (b <? 0x80)%N then
        ((if htmlSafeSet b then String c EmptyString else escapeByte c)
           ++ appendStringLoop f reste)%string
      else
        let (r, size) := DecodeRune src in
        if (r =? RuneError)%N && (size =? 1)%nat then
          (String backslash "ufffd" ++ appendStringLoop f reste)%string
        else if ((r =? 0x2028) || (r =? 0x2029))%N then
          (String backslash (String "u" (String "2" (String "0" (String "2"
              (String (hex (N.land r 0xF)) EmptyString)))))
             ++ appendStringLoop f (drop size src))%string
        else (take size src ++ appendStringLoop f (drop size src))%string
  end.

Definition appendString (src : string) : string :=
  String dquote (appendStringLoop (String.length src) src ++ String dquote EmptyString)%string.

(** [appendNewline(dst, prefix = "", indent = "  ", depth)] of [indent.go]. *)
Fixpoint indentation (depth : nat) : string :=
  match depth with
  | O => EmptyString
  | S d => String " " (String " " (indentation d))
  end.

Definition appendNewline (depth : nat) : string := String newline (indentation depth).

(** A field name as the encoder writes it: between double quotes (the
    names of [Contact] and [Annuaire] need no escape). *)
Definition quoted (name : string) : string :=
  String dquote (name ++ String dquote EmptyString)%string.

(** A [Contact] inside the array of the document, at depth 2. *)
Definition encodeContact (c : Contact) : string :=
  ("{" ++ appendNewline 3 ++ quoted "nom" ++ ": " ++ appendString (Nom c)
       ++ "," ++ appendNewline 3 ++ quoted "prenom" ++ ": " ++ appendString (Prenom c)
       ++ "," ++ appendNewline 3 ++ quoted "tel" ++ ": " ++ appendString (Tel c)
       ++ appendNewline 2 ++ "}")%string.

Fixpoint encodeSuite (cs : list Contact) : string :=
  match cs with
  | [] => EmptyString
  | c :: cs' => ("," ++ appendNewline 2 ++ encodeContact c ++ encodeSuite cs')%string
  end.

(** A [[]Contact]: [null] for the nil slice, [[]] for an empty one. *)
Definition encodeContacts (s : slice Contact) : string :=
  match s with
  | None => "null"
  | Some [] => "[]"
  | Some (c :: cs) =>
      ("[" ++ appendNewline 2 ++ encodeContact c ++ encodeSuite cs
           ++ appendNewline 1 ++ "]")%string
  end.

(** [json.MarshalIndent(a, "", "  ")] for [a *Annuaire]: the compact
    encoding of the struct ([Marshal], which escapes HTML characters)
    passed through [Indent].  The encoder has no error for a struct of
    strings: the result is always [Some]. *)
Definition json_MarshalIndent (a : Annuaire) : option string :=
  Some ("{" ++ appendNewline 1 ++ quoted "contacts" ++ ": "
            ++ encodeContacts (Contacts a) ++ appendNewline 0 ++ "}")%string.

(** ** Package [encoding/json]: decoding *)

(** The JSON values the scanner of [scanner.go] accepts.  A string is kept
    as its unquoted bytes, a number as its literal. *)
#[warnings="-register-all"]
Inductive json : Type :=
| JNull
| JBool (b : bool)
| JNumber (literal : string)
| JString (s : string)
| JArray (elements : list json)
| JObject (members : list (string * json)).

(** [isSpace] of [scanner.go]. *)
Definition isSpace (c : ascii) : bool :=
  let b := octet c in ((b =? 0x20) || (b =? 0x09) || (b =? 0x0D) || (b =? 0x0A))%N.

Fixpoint skipSpace (s : string) : string :=
  match s with
  | EmptyString => EmptyString
  | String c r => if isSpace c then skipSpace r else s
  end.

Definition isDigit (c : ascii) : bool :=
  let b := octet c in ((0x30 <=? b) && (b <=? 0x39))%N.

(** The value of a hexadecimal digit, as in [getu4] and [stateInStringEscU]. *)
Definition hexValue (c : ascii) : option N :=
  let b := octet c in
  (if (0x30 <=? b) && (b <=? 0x39) then Some (b - 0x30)
   else if (0x61 <=? b) && (b <=? 0x66) then Some (b - 0x61 + 10)
   else if (0x41 <=? b) && (b <=? 0x46) then Some (b - 0x41 + 10)
   else None)%N.

Definition isHex (c : ascii) : bool :=
  match hexValue c with Some _ => true | None => false end.

Definition avec (prefixe : string) (r : option (string * string)) : option (string * string) :=
  match r with
  | Some (lit, reste) => Some ((prefixe ++ lit)%string, reste)
  | None => None
  end.

(** The scanner inside a string literal ([stateInString], [stateInStringEsc],
    [stateInStringEscU] ...), from the byte after the opening quote: the
    bytes of the literal and what follows its closing quote. *)
Fixpoint scanString (s : string) : option (string * string) :=
  match s with
  | EmptyString => None
  | String c r =>
      if (c =? dquote)%char then Some (EmptyString, r)
      else if (c =? backslash)%char then
        match r with
        | EmptyString => None
        | String e r1 =>
            if ((e =? "b") || (e =? "f") || (e =? "n") || (e =? "r") || (e =? "t")
                || (e =? backslash) || (e =? "/") || (e =? dquote))%char
            then avec (String c (String e EmptyString)) (scanString r1)
            else if (e =? "u")%char then
              match r1 with
              | String h1 (String h2 (String h3 (String h4 r2))) =>
                  if isHex h1 && isHex h2 && isHex h3 && isHex h4
                  then avec (String c (String e (String h1 (String h2 (String h3
                               (String h4 EmptyString)))))) (scanString r2)
                  else None
              | _ => None
              end
            else None
        end
      else if (octet c <? 0x20)%N then None
      else avec (String c EmptyString) (scanString r)
  end.

(** [getu4]: the rune of a [\uXXXX] at the start of [s]; [None] is [-1]. *)
Definition getu4 (s : string) : option N :=
  match s with
  | String c (String u (String h1 (String h2 (String h3 (String h4 _))))) =>
      if ((c =? backslash) && (u =? "u"))%char then
        match hexValue h1, hexValue h2, hexValue h3, hexValue h4 with
        | Some v1, Some v2, Some v3, Some v4 => Some (((v1 * 16 + v2) * 16 + v3) * 16 + v4)%N
        | _, _, _, _ => None
        end
      else None
  | _ => None
  end.

(** [utf16.IsSurrogate] and [utf16.DecodeRune]. *)
Definition IsSurrogate (r : N) : bool := ((0xD800 <=? r) && (r <? 0xE000))%N.

Definition utf16_DecodeRune (r1 r2 : N) : N :=
  (if (0xD800 <=? r1) && (r1 <? 0xDC00) && (0xDC00 <=? r2) && (r2 <? 0xE000)
   then N.lor (N.shiftl (r1 - 0xD800) 10) (r2 - 0xDC00) + 0x10000
   else RuneError)%N.

(** [unquoteBytes] on the bytes of a literal, quotes removed; [None] is
    [ok = false]. *)
Fixpoint unquoteLoop (fuel : nat) (s : string) : option string :=
  match s, fuel with
  | EmptyString, _ => Some EmptyString
  | _, O => None
  | String c r, S f =>
      if (c =? backslash)%char then
        match r with
        | EmptyString => None
        | String e r1 =>
            let simple (x : ascii) := option_map (String x) (unquoteLoop f r1) in
            if ((e =? dquote) || (e =? backslash) || (e =? "/") || (e =? "'"))%char then simple e
            else if (e =? "b")%char then simple "008"%char
            else if (e =? "f")%char then simple "012"%char
            else if (e =? "n")%char then simple "010"%char
            else if (e =? "r")%char then simple "013"%char
            else if (e =? "t")%char then simple "009"%char
            else if (e =? "u")%char then
              match getu4 s with
              | None => None
              | Some rr =>
                  let s6 := drop 6 s in
                  if IsSurrogate rr then
                    let dec := match getu4 s6 with
                               | Some rr1 => utf16_DecodeRune rr rr1
                               | None => RuneError
                               end in
                    if negb (dec =? RuneError)%N
                    then option_map (append (EncodeRune dec)) (unquoteLoop f (drop 6 s6))
                    else option_map (append (EncodeRune RuneError)) (unquoteLoop f s6)
                  else option_map (append (EncodeRune rr)) (unquoteLoop f s6)
              end
            else None
        end
      else if ((c =? dquote)%char || (octet c <? 0x20)%N) then None
      else if (octet c <? 0x80)%N then option_map (String c) (unquoteLoop f r)
      else
        let (rr, size) := DecodeRune s in
        option_map (append (EncodeRune rr)) (unquoteLoop f (drop size s))
  end.

Definition unquote (lit : string) : option string := unquoteLoop (String.length lit) lit.

(** A string literal, from the byte after its opening quote. *)
Definition parseString (s : string) : option (string * string) :=
  match scanString s with
  | Some (lit, reste) =>
      match unquote lit with
      | Some t => Some (t, reste)
      | None => None
      end
  | None => None
  end.

(** The longest run of digits at the start of [s], and what follows. *)
Fixpoint digits (s : string) : string * string :=
  match s with
  | EmptyString => (EmptyString, EmptyString)
  | String c r =>
      if isDigit c then let (d, r') := digits r in (String c d, r') else (EmptyString, s)
  end.

(** The number states of the scanner ([stateNeg], [state0], [state1],
    [stateDot], [stateDot0], [stateE], [stateESign], [stateE0]). *)
Definition scanNumber (s : string) : option (string * string) :=
  let (signe, s1) :=
    match s with
    | String c r => if (c =? "-")%char then ("-", r) else (EmptyString, s)
    | EmptyString => (EmptyString, s)
    end in
  let entier :=
    match s1 with
    | String c r =>
        if (c =? "0")%char then Some ("0", r)
        else if isDigit c then let (d, r') := digits r in Some (String c d, r')
        else None
    | EmptyString => None
    end in
  match entier with
  | None => None
  | Some (ent, s2) =>
      let fraction :=
        match s2 with
        | String c r =>
            if (c =? ".")%char then
              match digits r with
              | (EmptyString, _) => None
              | (d, r') => Some (String "." d, r')
              end
            else Some (EmptyString, s2)
        | EmptyString => Some (EmptyString, s2)
        end in
      match fraction with
      | None => None
      | Some (frac, s3) =>
          let exposant :=
            match s3 with
            | String e r =>
                if ((e =? "e") || (e =? "E"))%char then
                  let (sg, r1) :=
                    match r with
                    | String g r' =>
                        if ((g =? "+") || (g =? "-"))%char
                        then (String g EmptyString, r') else (EmptyString, r)
                    | EmptyString => (EmptyString, r)
                    end in
                  match digits r1 with
                  | (EmptyString, _) => None
                  | (d, r') => Some ((String e sg ++ d)%string, r')
                  end
                else Some (EmptyString, s3)
            | EmptyString => Some (EmptyString, s3)
            end in
          match exposant with
          | None => None
          | Some (ex, s4) => Some ((signe ++ ent ++ frac ++ ex)%string, s4)
          end
      end
  end.

(** [s] starts with [mot]: what follows it. *)
Fixpoint apres (mot s : string) : option string :=
  match mot, s with
  | EmptyString, _ => Some s
  | String a mot', String b s' => if (a =? b)%char then apres mot' s' else None
  | String _ _, EmptyString => None
  end.

(** [maxNestingDepth] of [scanner.go]. *)
Definition maxNestingDepth : N := 10000.

(** The grammar the scanner accepts, read into a [json] value.
    [parseValue] starts at the first byte of a value, [parseElements] at the
    first byte of an array element, [parseMembers] at the first byte of an
    object key; each returns what follows the value, the closing bracket or
    the closing brace.  [depth] is the number of arrays and objects open. *)
Fixpoint parseValue (fuel : nat) (depth : N) (s : string) : option (json * string) :=
  match fuel with
  | O => None
  | S f =>
      match s with
      | EmptyString => None
      | String c r =>
          if (c =? "{")%char then
            if (maxNestingDepth <? depth + 1)%N then None
            else
              match skipSpace r with
              | EmptyString => None
              | String c1 r1 =>
                  if (c1 =? "}")%char then Some (JObject [], r1)
                  else
                    match parseMembers f (depth + 1)%N (String c1 r1) with
                    | Some (m, r2) => Some (JObject m, r2)
                    | None => None
                    end
              end
          else if (c =? "[")%char then
            if (maxNestingDepth <? depth + 1)%N then None
            else
              match skipSpace r with
              | EmptyString => None
              | String c1 r1 =>
                  if (c1 =? "]")%char then Some (JArray [], r1)
                  else
                    match parseElements f (depth + 1)%N (String c1 r1) with
                    | Some (vs, r2) => Some (JArray vs, r2)
                    | None => None
                    end
              end
          else if (c =? dquote)%char then
            match parseString r with
            | Some (t, r1) => Some (JString t, r1)
            | None => None
            end
          else if ((c =? "-")%char || isDigit c) then
            match scanNumber s with
            | Some (lit, r1) => Some (JNumber lit, r1)
            | None => None
            end
          else if (c =? "t")%char then
            match apres "true" s with Some r1 => Some (JBool true, r1) | None => None end
          else if (c =? "f")%char then
            match apres "false" s with Some r1 => Some (JBool false, r1) | None => None end
          else if (c =? "n")%char then
            match apres "null" s with Some r1 => Some (JNull, r1) | None => None end
          else None
      end
  end
with parseElements (fuel : nat) (depth : N) (s : string) : option (list json * string) :=
  match fuel with
  | O => None
  | S f =>
      match parseValue f depth s with
      | None => None
      | Some (v, r) =>
          match skipSpace r with
          | EmptyString => None
          | String c1 r1 =>
              if (c1 =? ",")%char then
                match parseElements f depth (skipSpace r1) with
                | Some (vs, r2) => Some (v :: vs, r2)
                | None => None
                end
              else if (c1 =? "]")%char then Some ([v], r1)
              else None
          end
      end
  end
with parseMembers (fuel : nat) (depth : N) (s : string)
  : option (list (string * json) * string) :=
  match fuel with
  | O => None
  | S f =>
      match s with
      | EmptyString => None
      | String c r =>
          if (c =? dquote)%char then
            match parseString r with
            | None => None
            | Some (key, r1) =>
                match skipSpace r1 with
                | EmptyString => None
                | String c2 r2 =>
                    if (c2 =? ":")%char then
                      match parseValue f depth (skipSpace r2) with
                      | None => None
                      | Some (v, r3) =>
                          match skipSpace r3 with
                          | EmptyString => None
                          | String c4 r4 =>
                              if (c4 =? ",")%char then
                                match parseMembers f depth (skipSpace r4) with
                                | Some (m, r5) => Some ((key, v) :: m, r5)
                                | None => None
                                end
                              else if (c4 =? "}")%char then Some ([(key, v)], r4)
                              else None
                          end
                      end
                    else None
                end
            end
          else None
      end
  end.

(** [checkValid] and the reading of the document: one value, white space
    around it, nothing else. *)
Definition parseDocument (data : string) : option json :=
  match parseValue (2 * String.length data + 1) 0%N (skipSpace data) with
  | Some (v, r) =>
      match skipSpace r with
      | EmptyString => Some v
      | _ => None
      end
  | None => None
  end.

(** *** Decoding into [*Annuaire] *)

(** Upper case of an ASCII letter. *)
Definition upperByte (c : ascii) : ascii :=
  let b := octet c in
  if ((0x61 <=? b) && (b <=? 0x7A))%N then ascii_of_N (b - 32) else c.

(** Whether the key of an object member designates the field of JSON name
    [name], a name of ASCII letters: the bytes are equal or equal under
    Unicode simple case folding, the only characters outside ASCII that fold
    to an ASCII letter being U+017F (to [s]) and U+212A (to [k]). *)
Fixpoint equalFold (name key : string) : bool :=
  match name, key with
  | EmptyString, EmptyString => true
  | String n ns, String k ks =>
      if (octet k <? 0x80)%N then (upperByte n =? upperByte k)%char && equalFold ns ks
      else
        match ks with
        | String k1 ks1 =>
            if ((octet k =? 0xC5) && (octet k1 =? 0xBF))%N && (upperByte n =? "S")%char
            then equalFold ns ks1
            else
              match ks1 with
              | String k2 ks2 =>
                  if ((octet k =? 0xE2) && (octet k1 =? 0x84) && (octet k2 =? 0xAA))%N
                     && (upperByte n =? "K")%char
                  then equalFold ns ks2
                  else false
              | EmptyString => false
              end
        | EmptyString => false
        end
  | _, _ => false
  end.

(** A JSON value stored into a Go [string] holding [old]: a string replaces
    it, [null] leaves it, anything else is an [UnmarshalTypeError] ([None]). *)
Definition storeString (v : json) (old : string) : option string :=
  match v with
  | JString s => Some s
  | JNull => Some old
  | _ => None
  end.

(** The members of an object stored into a [Contact] holding [c], in
    order; a key that designates no field is skipped with its value. *)
Fixpoint storeContactMembers (m : list (string * json)) (c : Contact) : option Contact :=
  match m with
  | [] => Some c
  | (key, v) :: m' =>
      let c' :=
        if equalFold "nom" key then
          option_map (fun s => {| Nom := s; Prenom := Prenom c; Tel := Tel c |})
                     (storeString v (Nom c))
        else if equalFold "prenom" key then
          option_map (fun s => {| Nom := Nom c; Prenom := s; Tel := Tel c |})
                     (storeString v (Prenom c))
        else if equalFold "tel" key then
          option_map (fun s => {| Nom := Nom c; Prenom := Prenom c; Tel := s |})
                     (storeString v (Tel c))
        else Some c in
      match c' with
      | Some c'' => storeContactMembers m' c''
      | None => None
      end
  end.

Definition storeContact (v : json) (old : Contact) : option Contact :=
  match v with
  | JObject m => storeContactMembers m old
  | JNull => Some old
  | _ => None
  end.

(** The slice being decoded into: its elements, and behind them the
    elements of its backing array that an earlier, longer array of the same
    document left there. *)
Record target : Type := mkTarget {
  visible : slice Contact;
  behind : list Contact
}.

Definition zeroContact : Contact := {| Nom := ""; Prenom := ""; Tel := "" |}.

(** The elements of an array stored one by one ([d.value(v.Index(i))]): the
    element of index [i] is decoded into what the backing array holds at
    [i], a zero [Contact] past what was ever written. *)
Fixpoint storeElements (vs : list json) (slots : list Contact) : option (list Contact) :=
  match vs with
  | [] => Some []
  | v :: vs' =>
      let (old, slots') :=
        match slots with
        | [] => (zeroContact, [])
        | o :: sl => (o, sl)
        end in
      match storeContact v old with
      | None => None
      | Some c =>
          match storeElements vs' slots' with
          | Some cs => Some (c :: cs)
          | None => None
          end
      end
  end.

(** A JSON value stored into the field [Contacts]: an array ([d.array]:
    an empty one gives a fresh empty slice), [null] (the nil slice), or a
    type error. *)
Definition storeContacts (v : json) (t : target) : option target :=
  match v with
  | JArray [] => Some {| visible := Some []; behind := [] |}
  | JArray vs =>
      let slots := elems (visible t) ++ behind t in
      match storeElements vs slots with
      | Some cs => Some {| visible := Some cs; behind := skipn (length vs) slots |}
      | None => None
      end
  | JNull => Some {| visible := None; behind := [] |}
  | _ => None
  end.

Fixpoint storeAnnuaireMembers (m : list (string * json)) (t : target) : option target :=
  match m with
  | [] => Some t
  | (key, v) :: m' =>
      if equalFold "contacts" key then
        match storeContacts v t with
        | Some t' => storeAnnuaireMembers m' t'
        | None => None
        end
      else storeAnnuaireMembers m' t
  end.

(** [json.Unmarshal(data, annuaire)] for [annuaire *Annuaire] pointing to
    [a]: [None] when it returns an error (a syntax error of [checkValid] or
    an [UnmarshalTypeError]), otherwise what [annuaire] points to
    afterwards.  The slice of [a] is taken to have no capacity beyond its
    length, as [make([]Contact, 0)] has. *)
Definition json_Unmarshal (data : string) (a : Annuaire) : option Annuaire :=
  match parseDocument data with
  | None => None
  | Some (JObject m) =>
      match storeAnnuaireMembers m {| visible := Contacts a; behind := [] |} with
      | Some t => Some {| Contacts := visible t |}
      | None => None
      end
  | Some JNull => Some a
  | Some _ => None
  end.

(** ** The snapshot file *)

(** The file [annuaire.json] as the process sees it: its contents, if it
    exists, and whether reading it and writing it succeed. *)
Record Fichier : Type := mkFichier {
  contenu : option string;
  lisible : bool;
  inscriptible : bool
}.

(** [_, err := os.Stat(fichierAnnuaire); os.IsNotExist(err)] *)
Definition os_Stat_IsNotExist (f : Fichier) : bool :=
  match contenu f with
  | None => true
  | Some _ => false
  end.

(** [os.ReadFile(fichierAnnuaire)]; [None] is an error. *)
Definition os_ReadFile (f : Fichier) : option string :=
  match contenu f with
  | Some data => if lisible f then Some data else None
  | None => None
  end.

(** [os.WriteFile(fichierAnnuaire, data, 0644)]: on success the file holds
    [data], all of it; a file that did not exist is created readable. *)
Definition os_WriteFile (f : Fichier) (data : string) : option Fichier :=
  if inscriptible f
  then Some {| contenu := Some data;
               lisible := match contenu f with None => true | Some _ => lisible f end;
               inscriptible := true |}
  else None.

(** [func chargerAnnuaire()], which returns [*Annuaire] and [error]. *)
Definition chargerAnnuaire (f : Fichier) : option Annuaire * option error :=
  let annuaire := {| Contacts := Some [] |} in
  if os_Stat_IsNotExist f then (Some annuaire, None)
  else
    match os_ReadFile f with
    | None => (None, Some ErrLecture)
    | Some data =>
        match json_Unmarshal data annuaire with
        | None => (None, Some ErrParsing)
        | Some annuaire' => (Some annuaire', None)
        end
    end.

(** [func (a *Annuaire) sauvegarderAnnuaire() error]: the file afterwards
    and the error. *)
Definition sauvegarderAnnuaire (a : Annuaire) (f : Fichier) : Fichier * option error :=
  match json_MarshalIndent a with
  | None => (f, Some ErrSerialisation)
  | Some data =>
      match os_WriteFile f data with
      | None => (f, Some ErrEcriture)
      | Some f' => (f', None)
      end
  end.

(** ** Values and predicates used to state the properties *)

(** All the bytes of [s] are at least [0x80]. *)
Fixpoint hauts (s : string) : bool :=
  match s with
  | EmptyString => true
  | String c r => (0x80 <=? octet c)%N && hauts r
  end.

(** What [appendString] writes for an ASCII byte. *)
Definition encAscii (c : ascii) : string :=
  if htmlSafeSet (octet c) then String c EmptyString else escapeByte c.

(** The JSON value [MarshalIndent] writes for a contact. *)
Definition jsonOfContact (c : Contact) : json :=
  JObject [("nom", JString (Nom c)); ("prenom", JString (Prenom c)); ("tel", JString (Tel c))].

(** The three fields of a contact are valid UTF-8. *)
Definition contactValide (c : Contact) : bool :=
  ValidString (Nom c) && ValidString (Prenom c) && ValidString (Tel c).

(** A field name that [parseString] reads back as it is. *)
Definition nomSimple (key : string) : Prop :=
  forall reste, parseString (key ++ String dquote reste) = Some (key, reste).

(** The JSON value [MarshalIndent] writes for the slice of contacts. *)
Definition jsonOfContacts (s : slice Contact) : json :=
  match s with
  | None => JNull
  | Some cs => JArray (map jsonOfContact cs)
  end.

(** The JSON value [MarshalIndent] writes for a directory. *)
Definition jsonOfAnnuaire (a : Annuaire) : json :=
  JObject [("contacts", jsonOfContacts (Contacts a))].

(** Every field of every contact is valid UTF-8. *)
Definition annuaireValide (a : Annuaire) : bool :=
  forallb contactValide (elems (Contacts a)).

(** ** Files and directories for closed examples *)

(** No file yet, in a directory where it can be created. *)
Definition fichierAbsent : Fichier :=
  {| contenu := None; lisible := true; inscriptible := true |}.

(** ["André"] in ISO 8859-1: the last byte, [0xE9], is not valid UTF-8. *)
Definition andreLatin1 : string := ("Andr" ++ String "233"%char EmptyString)%string.

(** The same with U+FFFD (bytes [EF BF BD]) in place of the byte [0xE9]. *)
Definition andreRemplace : string :=
  ("Andr" ++ String "239"%char (String "191"%char (String "189"%char EmptyString)))%string.

(** One record of a snapshot written by hand, on one line. *)
Definition enregistrement (nom prenom tel : string) : string :=
  ("{" ++ quoted "nom" ++ ":" ++ quoted nom ++ ","
       ++ quoted "prenom" ++ ":" ++ quoted prenom ++ ","
       ++ quoted "tel" ++ ":" ++ quoted tel ++ "}")%string.

(** A snapshot that breaks every invariant of the directory: two names
    equal up to case, a name with surrounding white space, an empty name
    and an empty phone number. *)
Definition snapshotIrregulier : string :=
  ("{" ++ quoted "contacts" ++ ": ["
       ++ enregistrement "Dupont" "Jean" "0123456789" ++ ", "
       ++ enregistrement "DUPONT" "Jeanne" " 0600000000 " ++ ", "
       ++ enregistrement " Martin " "" "0611223344" ++ ", "
       ++ enregistrement "" "Anne" ""
       ++ "]}")%string.

Definition contactsIrreguliers : list Contact :=
  [ {| Nom := "Dupont"; Prenom := "Jean"; Tel := "0123456789" |};
    {| Nom := "DUPONT"; Prenom := "Jeanne"; Tel := " 0600000000 " |};
    {| Nom := " Martin "; Prenom := ""; Tel := "0611223344" |};
    {| Nom := ""; Prenom := "Anne"; Tel := "" |} ].

(** * The rest of [main.go]: listing and the command dispatcher *)

(** What the program prints, one constructor per [fmt.Println] or
    [fmt.Printf] call of [main.go] (the usage text is one message), with
    the values the format receives. *)
Inductive Message : Type :=
| MsgUsage                                  (* "Erreur: Vous devez spécifier une action avec --action" and the help *)
| MsgErreurChargement (e : error)           (* "Erreur lors du chargement de l'annuaire: %v\n" *)
| MsgParametresAjouter                      (* "Erreur: Les paramètres --nom et --tel sont obligatoires pour ajouter un contact" *)
| MsgErreurAjout (e : error)                (* "Erreur lors de l'ajout: %v\n" *)
| MsgErreurSauvegarde (e : error)           (* "Erreur lors de la sauvegarde: %v\n" *)
| MsgAjoute (nom prenom tel : string)       (* "Contact ajouté avec succès: %s %s - %s\n" *)
| MsgAnnuaireVide                           (* "Aucun contact dans l'annuaire." *)
| MsgEntete (n : nat)                       (* "=== Annuaire (%d contact(s)) ===\n" *)
| MsgLigne (i : nat) (nom prenom tel : string) (* "%d. %s %s - %s\n" *)
| MsgParametreRechercher                    (* "Erreur: Le paramètre --nom est obligatoire pour rechercher un contact" *)
| MsgAucunTrouve (nom : string)             (* "Aucun contact trouvé avec le nom '%s'\n" *)
| MsgTrouve (nom prenom tel : string)       (* "Contact trouvé: %s %s - %s\n" *)
| MsgParametreSupprimer                     (* "Erreur: Le paramètre --nom est obligatoire pour supprimer un contact" *)
| MsgErreurSuppression (e : error)          (* "Erreur lors de la suppression: %v\n" *)
| MsgSupprime (nom : string)                (* "Contact '%s' supprimé avec succès\n" *)
| MsgParametreModifier                      (* "Erreur: Le paramètre --nom est obligatoire pour modifier un contact" *)
| MsgParametresModification                 (* "Erreur: Au moins un des paramètres --prenom ou --tel doit être fourni pour la modification" *)
| MsgErreurModification (e : error)         (* "Erreur lors de la modification: %v\n" *)
| MsgModifie (nom : string)                 (* "Contact '%s' modifié avec succès\n" *)
| MsgActionInconnue (action : string)       (* "Action inconnue: %s\n" *)
| MsgActionsDisponibles.                    (* "Actions disponibles: ajouter, lister, rechercher, supprimer, modifier" *)

(** The loop of [listerContacts],
    [for i, contact := range a.Contacts { fmt.Printf("%d. %s %s - %s\n", i+1, ...) }],
    from index [i]. *)
Fixpoint lignes (i : nat) (cs : list Contact) : list Message :=
  match cs with
  | [] => []
  | contact :: reste =>
      MsgLigne (i + 1) (Nom contact) (Prenom contact) (Tel contact) :: lignes (S i) reste
  end.

(** [func (a *Annuaire) listerContacts()]: what it prints. *)
Definition listerContacts (a : Annuaire) : list Message :=
  if (length (elems (Contacts a)) =? 0)%nat then [MsgAnnuaireVide]
  else MsgEntete (length (elems (Contacts a))) :: lignes 0 (elems (Contacts a)).

(** A run of the program: what it printed, its exit status ([1] after
    [os.Exit(1)], [0] when [main] returns) and the snapshot file it leaves. *)
Record Execution : Type := mkExecution {
  sortie : list Message;
  code : nat;
  fichier : Fichier
}.

Section Programme.

Variable ToLower : string -> string.
Variable TrimSpace : string -> string.

(** The contact a lookup points to: [*a.rechercherContact(nom)], [None]
    for the nil pointer. *)
Definition trouver (a : Annuaire) (nom : string) : option Contact :=
  match rechercherContact ToLower a nom with
  | Some i => nth_error (elems (Contacts a)) i
  | None => None
  end.

(** [err = annuaire.sauvegarderAnnuaire()] and what follows it in the
    three cases of [main] that change the directory: the error message and
    [os.Exit(1)], or the message of success. *)
Definition sauvegarderPuis (annuaire : Annuaire) (f : Fichier) (succes : Message) : Execution :=
  match sauvegarderAnnuaire annuaire f with
  | (f', Some err) => {| sortie := [MsgErreurSauvegarde err]; code := 1; fichier := f' |}
  | (f', None) => {| sortie := [succes]; code := 0; fichier := f' |}
  end.

(** [func main()], after [flag.Parse()]: [action], [nom], [prenom] and
    [tel] are the values of the four flags, the empty string for a flag
    that is not given. *)
Definition main (action nom prenom tel : string) (f : Fichier) : Execution :=
  if (action =? "")%string then {| sortie := [MsgUsage]; code := 1; fichier := f |}
  else
    match chargerAnnuaire f with
    | (_, Some err) => {| sortie := [MsgErreurChargement err]; code := 1; fichier := f |}
    | (None, None) =>
        (* a nil [*Annuaire] with a nil error: the method call that follows
           dereferences nil and the Go runtime ends the process with status 2 *)
        {| sortie := []; code := 2; fichier := f |}
    | (Some annuaire, None) =>
        let choix := ToLower action in
        if (choix =? "ajouter")%string then
          if ((nom =? "") || (tel =? ""))%string
          then {| sortie := [MsgParametresAjouter]; code := 1; fichier := f |}
          else
            match ajouterContact ToLower TrimSpace annuaire nom prenom tel with
            | (_, Some err) => {| sortie := [MsgErreurAjout err]; code := 1; fichier := f |}
            | (annuaire', None) => sauvegarderPuis annuaire' f (MsgAjoute nom prenom tel)
            end
        else if (choix =? "lister")%string then
          {| sortie := listerContacts annuaire; code := 0; fichier := f |}
        else if (choix =? "rechercher")%string then
          if (nom =? "")%string
          then {| sortie := [MsgParametreRechercher]; code := 1; fichier := f |}
          else
            match trouver annuaire nom with
            | None => {| sortie := [MsgAucunTrouve nom]; code := 0; fichier := f |}
            | Some contact =>
                {| sortie := [MsgTrouve (Nom contact) (Prenom contact) (Tel contact)];
                   code := 0; fichier := f |}
            end
        else if (choix =? "supprimer")%string then
          if (nom =? "")%string
          then {| sortie := [MsgParametreSupprimer]; code := 1; fichier := f |}
          else
            match supprimerContact ToLower annuaire nom with
            | (_, Some err) => {| sortie := [MsgErreurSuppression err]; code := 1; fichier := f |}
            | (annuaire', None) => sauvegarderPuis annuaire' f (MsgSupprime nom)
            end
        else if (choix =? "modifier")%string then
          if (nom =? "")%string
          then {| sortie := [MsgParametreModifier]; code := 1; fichier := f |}
          else if ((prenom =? "") && (tel =? ""))%string
          then {| sortie := [MsgParametresModification]; code := 1; fichier := f |}
          else
            match modifierContact ToLower TrimSpace annuaire nom prenom tel with
            | (_, Some err) => {| sortie := [MsgErreurModification err]; code := 1; fichier := f |}
            | (annuaire', None) => sauvegarderPuis annuaire' f (MsgModifie nom)
            end
        else {| sortie := [MsgActionInconnue action; MsgActionsDisponibles];
                code := 1; fichier := f |}
    end.

End Programme.

(** ** The bytes a round trip through the file keeps *)

(** What a string becomes when it is written by [appendString] and read by
    [unquoteBytes]: each byte that starts no valid UTF-8 sequence is
    replaced by U+FFFD (bytes [EF BF BD]), the rest is kept. *)
Fixpoint coerceLoop (fuel : nat) (s : string) : string :=
  match s, fuel with
  | EmptyString, _ => EmptyString
  | _, O => EmptyString
  | String c reste, S f =>
      let (r, size) := DecodeRune s in
      if (r =? RuneError)%N && (size =? 1)%nat
      then (EncodeRune RuneError ++ coerceLoop f reste)%string
      else (take size s ++ coerceLoop f (drop size s))%string
  end.

Definition coerceUTF8 (s : string) : string := coerceLoop (String.length s) s.

Definition coerceContact (c : Contact) : Contact :=
  {| Nom := coerceUTF8 (Nom c); Prenom := coerceUTF8 (Prenom c); Tel := coerceUTF8 (Tel c) |}.

Definition coerceAnnuaire (a : Annuaire) : Annuaire :=
  {| Contacts := option_map (map coerceContact) (Contacts a) |}.

(** Every string of a JSON value is valid UTF-8. *)
Fixpoint jsonValide (v : json) : bool :=
  match v with
  | JString s => ValidString s
  | JArray l => forallb jsonValide l
  | JObject m => forallb (fun kv => jsonValide (snd kv)) m
  | _ => true
  end.

(** The operation on the directory that a lower-case action selects in the
    [switch] of [main], for the three cases that change the
    directory. *)
Definition operationDe (choix nom prenom tel : string) : option Operation :=
  if (choix =? "ajouter")%string then Some (Ajouter nom prenom tel)
  else if (choix =? "supprimer")%string then Some (Supprimer nom)
  else if (choix =? "modifier")%string then Some (Modifier nom prenom tel)
  else None.

(** The snapshot file after [dupont] and [martin] have been saved in a
    directory that had none. *)
Definition fichierDupontMartin : Fichier :=
  fst (sauvegarderAnnuaire {| Contacts := Some [dupont; martin] |} fichierAbsent).

(** A string that starts with a valid sequence or an ASCII byte:
    [DecodeRune] reads [n] bytes of it and reports no error. *)
Definition commence (n : nat) (s : string) : Prop :=
  1 <= n /\ exists r, DecodeRune s = (r, n) /\ (r =? RuneError)%N && (n =? 1)%nat = false.

(** The slice being decoded into holds valid UTF-8 only. *)
Definition targetValide (t : target) : bool :=
  forallb contactValide (elems (visible t)) && forallb contactValide (behind t).

(** ** The snapshot files of the expected structure

    The text of a snapshot file, described byte by byte from the grammar of
    JSON (RFC 8259) and the layout of [annuaire.json]: one object, its
    member [contacts] an array of objects with the members [nom], [prenom]
    and [tel].  The description owes nothing to the decoder above: it is
    the files [sauvegarderAnnuaire] writes together with every other way
    JSON has of writing the same document, white space between the tokens,
    members of a record in any order, characters of a string written as
    they are or escaped. *)

(** JSON white space: space, horizontal tab, line feed, carriage return. *)
Fixpoint blancs (w : string) : bool :=
  match w with
  | EmptyString => true
  | String c r =>
      ((c =? " ") || (c =? "009") || (c =? "010") || (c =? "013"))%char && blancs r
  end.

(** The character a two-character escape stands for: after the backslash,
    a double quote, a backslash or a slash for itself, and [b], [f], [n],
    [r], [t] for backspace, form feed, line feed, carriage return and
    tab. *)
Definition echappement (e : ascii) : option ascii :=
  (if e =? dquote then Some dquote
   else if e =? backslash then Some backslash
   else if e =? "/" then Some "/"
   else if e =? "b" then Some "008"
   else if e =? "f" then Some "012"
   else if e =? "n" then Some "010"
   else if e =? "r" then Some "013"
   else if e =? "t" then Some "009"
   else None)%char.

(** The position of a character in a table. *)
Fixpoint rang (c : ascii) (table : string) : option N :=
  match table with
  | EmptyString => None
  | String x r => if (c =? x)%char then Some 0%N else option_map N.succ (rang c r)
  end.

(** The value of a hexadecimal digit, in either case. *)
Definition chiffreHex (c : ascii) : option N :=
  match rang c "0123456789abcdef" with
  | Some n => Some n
  | None => rang c "0123456789ABCDEF"
  end.

(** The number four hexadecimal digits write. *)
Definition quatreHex (h1 h2 h3 h4 : ascii) : option N :=
  match chiffreHex h1, chiffreHex h2, chiffreHex h3, chiffreHex h4 with
  | Some a, Some b, Some c, Some d => Some (a * 4096 + b * 256 + c * 16 + d)%N
  | _, _, _, _ => None
  end.

(** A Unicode scalar value: a code point that is not a surrogate. *)
Definition scalaire (r : N) : Prop := (r < 0xD800 \/ 0xDFFF < r <= 0x10FFFF)%N.

(** [\uXXXX] *)
Definition echappementU (h1 h2 h3 h4 : ascii) (suite : string) : string :=
  String backslash (String "u" (String h1 (String h2 (String h3 (String h4 suite))))).

(** [Litteral t v]: the characters [t], written between two double quotes,
    are a JSON string that denotes the string [v].  A character is written
    as it is (in UTF-8; not the double quote, the backslash or a control
    character), as a two-character escape, as [\uXXXX], or as a pair
    [\uXXXX\uXXXX] of surrogates for a character beyond U+FFFF. *)
Inductive Litteral : string -> string -> Prop :=
| Litteral_fin : Litteral EmptyString EmptyString
| Litteral_ascii (c : ascii) (t v : string) :
    (0x20 <= octet c < 0x80)%N -> c <> dquote -> c <> backslash ->
    Litteral t v -> Litteral (String c t) (String c v)
| Litteral_utf8 (r : N) (t v : string) :
    (0x80 <= r)%N -> scalaire r ->
    Litteral t v -> Litteral (EncodeRune r ++ t) (EncodeRune r ++ v)
| Litteral_echappement (e x : ascii) (t v : string) :
    echappement e = Some x ->
    Litteral t v -> Litteral (String backslash (String e t)) (String x v)
| Litteral_u (h1 h2 h3 h4 : ascii) (r : N) (t v : string) :
    quatreHex h1 h2 h3 h4 = Some r -> scalaire r ->
    Litteral t v -> Litteral (echappementU h1 h2 h3 h4 t) (EncodeRune r ++ v)
| Litteral_paire (h1 h2 h3 h4 l1 l2 l3 l4 : ascii) (haut bas : N) (t v : string) :
    quatreHex h1 h2 h3 h4 = Some haut -> quatreHex l1 l2 l3 l4 = Some bas ->
    (0xD800 <= haut < 0xDC00)%N -> (0xDC00 <= bas < 0xE000)%N ->
    Litteral t v ->
    Litteral (echappementU h1 h2 h3 h4 (echappementU l1 l2 l3 l4 t))
             (EncodeRune (0x10000 + (haut - 0xD800) * 0x400 + (bas - 0xDC00)) ++ v).

(** A string between its two double quotes. *)
Definition entreGuillemets (t : string) : string :=
  String dquote (t ++ String dquote EmptyString).

(** [Membre champ valeur t]: [t] is a member of an object, the name
    [champ], a colon, the string [valeur]. *)
Inductive Membre (champ valeur : string) : string -> Prop :=
| Membre_intro (k v w1 w2 : string) :
    Litteral k champ -> Litteral v valeur ->
    blancs w1 = true -> blancs w2 = true ->
    Membre champ valeur
           (entreGuillemets k ++ w1 ++ ":" ++ w2 ++ entreGuillemets v).

(** One member or more, separated by commas. *)
Inductive Membres : list (string * string) -> string -> Prop :=
| Membres_un (champ valeur t : string) :
    Membre champ valeur t -> Membres [(champ, valeur)] t
| Membres_plus (champ valeur t w1 w2 : string) (ms : list (string * string)) (ts : string) :
    Membre champ valeur t ->
    blancs w1 = true -> blancs w2 = true ->
    Membres ms ts ->
    Membres ((champ, valeur) :: ms) (t ++ w1 ++ "," ++ w2 ++ ts).

(** [Enregistrement c t]: [t] is an object that records the contact [c],
    with the three members [nom], [prenom] and [tel] in any order. *)
Inductive Enregistrement (c : Contact) : string -> Prop :=
| Enregistrement_intro (ms : list (string * string)) (t w1 w2 : string) :
    Permutation ms [("nom", Nom c); ("prenom", Prenom c); ("tel", Tel c)] ->
    Membres ms t ->
    blancs w1 = true -> blancs w2 = true ->
    Enregistrement c ("{" ++ w1 ++ t ++ w2 ++ "}").

(** One record or more, separated by commas. *)
Inductive Enregistrements : list Contact -> string -> Prop :=
| Enregistrements_un (c : Contact) (t : string) :
    Enregistrement c t -> Enregistrements [c] t
| Enregistrements_plus (c : Contact) (t w1 w2 : string) (cs : list Contact) (ts : string) :
    Enregistrement c t ->
    blancs w1 = true -> blancs w2 = true ->
    Enregistrements cs ts ->
    Enregistrements (c :: cs) (t ++ w1 ++ "," ++ w2 ++ ts).

(** [Tableau s t]: [t] is the value of the member [contacts] for the slice
    [s]: an array of records, [[]] for the empty slice, [null] for the nil
    slice. *)
Inductive Tableau : slice Contact -> string -> Prop :=
| Tableau_null : Tableau None "null"
| Tableau_vide (w : string) :
    blancs w = true -> Tableau (Some []) ("[" ++ w ++ "]")
| Tableau_plein (c : Contact) (cs : list Contact) (t w1 w2 : string) :
    Enregistrements (c :: cs) t ->
    blancs w1 = true -> blancs w2 = true ->
    Tableau (Some (c :: cs)) ("[" ++ w1 ++ t ++ w2 ++ "]").

(** [Snapshot s data]: [data] is a snapshot file of the expected structure
    that records the contacts [s]. *)
Inductive Snapshot (s : slice Contact) : string -> Prop :=
| Snapshot_intro (k t w1 w2 w3 w4 w5 w6 : string) :
    Litteral k "contacts" ->
    Tableau s t ->
    blancs w1 = true -> blancs w2 = true -> blancs w3 = true ->
    blancs w4 = true -> blancs w5 = true -> blancs w6 = true ->
    Snapshot s (w1 ++ "{" ++ w2 ++ entreGuillemets k ++ w3 ++ ":" ++ w4 ++ t
                   ++ w5 ++ "}" ++ w6).

(** A string of ASCII characters that need no escape. *)
Fixpoint clair (s : string) : bool :=
  match s with
  | EmptyString => true
  | String c r =>
      ((0x20 <=? octet c) && (octet c <? 0x80))%N
      && negb (c =? dquote)%char && negb (c =? backslash)%char && clair r
  end.

(** The JSON members of a list of named strings. *)
Definition membresJSON (ms : list (string * string)) : list (string * json) :=
  map (fun p => (fst p, JString (snd p))) ms.

(** A snapshot file that records [contactsIrreguliers] in another layout
    than the one [sauvegarderAnnuaire] writes: the members of the records
    in various orders, white space here and there, and two characters, the
    J of Jeanne and the space that ends the third name, written as [\u]
    escapes. *)
Definition membreTexte (k v : string) : string :=
  (entreGuillemets k ++ ": " ++ entreGuillemets v)%string.

Definition enrDupont : string :=
  ("{" ++ membreTexte "tel" "0123456789" ++ ", " ++ membreTexte "nom" "Dupont"
       ++ ", " ++ membreTexte "prenom" "Jean" ++ "}")%string.

Definition enrDupontMajuscules : string :=
  ("{ " ++ membreTexte "nom" "DUPONT" ++ " ," ++ membreTexte "tel" " 0600000000 "
        ++ "," ++ membreTexte "prenom" (String backslash "u004aeanne") ++ " }")%string.

Definition enrMartin : string :=
  ("{" ++ membreTexte "prenom" "" ++ "," ++ membreTexte "tel" "0611223344"
       ++ "," ++ membreTexte "nom" (" Martin" ++ String backslash "u0020") ++ "}")%string.

Definition enrSansNom : string :=
  ("{" ++ membreTexte "tel" "" ++ "," ++ membreTexte "prenom" "Anne"
       ++ "," ++ membreTexte "nom" "" ++ "}")%string.

Definition snapshotDesordonne : string :=
  (" {" ++ entreGuillemets "contacts" ++ " : ["
        ++ String newline enrDupont ++ ","
        ++ String newline enrDupontMajuscules ++ " , "
        ++ enrMartin ++ "," ++ enrSansNom
        ++ String newline "]}" ++ String newline "")%string.

(** * Properties of the directory operations *)

Section OperationsProperties.

Variable ToLower : string -> string.
Variable TrimSpace : string -> string.

(** What [strings.ToLower] does to the margins of a string: it maps white
    space to itself and other characters to characters that are not white
    space, so a string has white space for [strings.TrimSpace] to remove
    exactly when its lower-case image has. *)
Hypothesis ToLower_marges :
  forall s, TrimSpace (ToLower s) = ToLower s <-> TrimSpace s = s.

Lemma premierIndice_None nom cs i :
  premierIndice ToLower (ToLower nom) cs i = None <-> aucun ToLower nom cs.
Proof.
  unfold aucun. revert i. induction cs as [|c cs IH]; intros i; simpl.
  - split; [constructor | reflexivity].
  - destruct (String.eqb_spec (ToLower (Nom c)) (ToLower nom)) as [E|E].
    + split; [discriminate | intros H; inversion H; subst; contradiction].
    + rewrite IH. split; [intros H; constructor; assumption | intros H; inversion H; assumption].
Qed.

Lemma premierIndice_premier nom l1 c l2 i :
  aucun ToLower nom l1 -> ToLower (Nom c) = ToLower nom ->
  premierIndice ToLower (ToLower nom) (l1 ++ c :: l2) i = Some (i + length l1).
Proof.
  unfold aucun. revert i. induction l1 as [|x l1 IH]; intros i H E; simpl.
  - rewrite E, String.eqb_refl. f_equal. lia.
  - inversion H as [|? ? Hx Hl]; subst.
    destruct (String.eqb_spec (ToLower (Nom x)) (ToLower nom)) as [E'|_]; [contradiction|].
    rewrite IH by assumption. f_equal. lia.
Qed.

Lemma premierIndice_Some nom cs i j :
  premierIndice ToLower (ToLower nom) cs i = Some j ->
  exists l1 c l2, cs = l1 ++ c :: l2 /\ j = i + length l1 /\
                  aucun ToLower nom l1 /\ ToLower (Nom c) = ToLower nom.
Proof.
  revert i. induction cs as [|x cs IH]; intros i; simpl; [discriminate|].
  destruct (String.eqb_spec (ToLower (Nom x)) (ToLower nom)) as [E|E].
  - intros [= <-]. exists [], x, cs. repeat split; simpl; [lia | constructor | assumption].
  - intros H. destruct (IH _ H) as (l1 & c & l2 & -> & -> & Hl & Hc).
    exists (x :: l1), c, l2. repeat split; simpl; [lia | constructor; assumption | assumption].
Qed.

Lemma retirer_milieu (l1 : list Contact) c l2 :
  firstn (length l1) (l1 ++ c :: l2) ++ skipn (S (length l1)) (l1 ++ c :: l2) = l1 ++ l2.
Proof.
  induction l1 as [|x l1 IH]; [reflexivity|].
  change (x :: (firstn (length l1) (l1 ++ c :: l2)
                ++ skipn (S (length l1)) (l1 ++ c :: l2)) = x :: (l1 ++ l2)).
  now rewrite IH.
Qed.

Lemma ecrire_milieu f (l1 : list Contact) c l2 :
  ecrire (length l1) f (l1 ++ c :: l2) = l1 ++ f c :: l2.
Proof.
  induction l1 as [|x l1 IH]; simpl; [reflexivity | now rewrite IH].
Qed.

Lemma Nom_modifierChamps np nt c : Nom (modifierChamps TrimSpace np nt c) = Nom c.
Proof.
  unfold modifierChamps. destruct (np =? "")%string, (nt =? "")%string; reflexivity.
Qed.

(** C5. When the directory holds a contact whose name equals [nom] under
    the case-insensitive comparison, [ajouterContact] fails with the
    duplicate error and leaves the directory as it was, whatever [nom] and
    [tel] are: the duplicate check comes before the two emptiness checks, so
    an empty [nom] or [tel] does not turn the error into a validation error. *)
Theorem C5_ajouter_rejette_doublon (a : Annuaire) (nom prenom tel : string) :
  (exists c, In c (elems (Contacts a)) /\ ToLower (Nom c) = ToLower nom) ->
  ajouterContact ToLower TrimSpace a nom prenom tel = (a, Some (ErrExisteDeja nom))
  /\ kind (ErrExisteDeja nom) = DuplicateError.
Proof.
  intros (c & Hin & E). split; [|reflexivity].
  unfold ajouterContact, rechercherContact.
  destruct (premierIndice ToLower (ToLower nom) (elems (Contacts a)) 0) eqn:P; [reflexivity|].
  apply premierIndice_None in P. unfold aucun in P.
  rewrite Forall_forall in P. destruct (P c Hin E).
Qed.

(** C6. [supprimerContact] removes the first contact whose name matches
    [nom] case-insensitively and nothing else, the other contacts keeping
    their order; when no contact matches it fails with the not-found error
    and the directory is unchanged. *)
Theorem C6_supprimer_premier (a : Annuaire) (nom : string) :
  (forall l1 c l2,
      elems (Contacts a) = l1 ++ c :: l2 ->
      aucun ToLower nom l1 ->
      ToLower (Nom c) = ToLower nom ->
      supprimerContact ToLower a nom = ({| Contacts := Some (l1 ++ l2) |}, None))
  /\ (aucun ToLower nom (elems (Contacts a)) ->
      supprimerContact ToLower a nom = (a, Some (ErrAucunContact nom))
      /\ kind (ErrAucunContact nom) = NotFoundError).
Proof.
  split.
  - intros l1 c l2 E Hl Hc. unfold supprimerContact. cbv zeta. rewrite E.
    rewrite (premierIndice_premier nom l1 c l2 0 Hl Hc), Nat.add_0_l.
    cbv iota. now rewrite retirer_milieu.
  - intros H. split; [|reflexivity]. unfold supprimerContact.
    apply premierIndice_None with (i := 0) in H. now rewrite H.
Qed.

(** C7. Whenever [ajouterContact], [supprimerContact] or [modifierContact]
    returns an error, the directory it returns is the one it was given. *)
Theorem C7_erreur_sans_effet (a : Annuaire) (op : Operation) (e : error) :
  snd (appliquer ToLower TrimSpace a op) = Some e ->
  fst (appliquer ToLower TrimSpace a op) = a.
Proof.
  destruct op as [nom prenom tel | nom | nom np nt]; simpl.
  - unfold ajouterContact.
    destruct (rechercherContact ToLower a nom); [reflexivity|].
    destruct (nom =? "")%string; [reflexivity|].
    destruct (tel =? "")%string; [reflexivity|]. discriminate.
  - unfold supprimerContact.
    destruct (premierIndice ToLower (ToLower nom) (elems (Contacts a)) 0);
      [discriminate | reflexivity].
  - unfold modifierContact.
    destruct (rechercherContact ToLower a nom); [discriminate | reflexivity].
Qed.

(** What [modifierContact] does.  For a directory whose first contact
    matching [nom] is [c], it succeeds and changes that contact only: its
    [Prenom] is kept when [nouveauPrenom] is empty and becomes
    [TrimSpace nouveauPrenom] otherwise, its [Tel] is kept when [nouveauTel]
    is empty and becomes [TrimSpace nouveauTel] otherwise, its [Nom] is
    kept.  The test is made on the argument as given and the value stored
    is trimmed afterwards: a field that was not empty is empty afterwards
    exactly when its argument is a non-empty string that [TrimSpace]
    reduces to the empty string. *)
Lemma modifierContact_premier (a : Annuaire) (nom nouveauPrenom nouveauTel : string)
        (l1 : list Contact) (c : Contact) (l2 : list Contact) :
  elems (Contacts a) = l1 ++ c :: l2 ->
  aucun ToLower nom l1 ->
  ToLower (Nom c) = ToLower nom ->
  let c' := {| Nom := Nom c;
               Prenom := if (nouveauPrenom =? "")%string then Prenom c
                         else TrimSpace nouveauPrenom;
               Tel := if (nouveauTel =? "")%string then Tel c
                      else TrimSpace nouveauTel |} in
  modifierContact ToLower TrimSpace a nom nouveauPrenom nouveauTel
    = ({| Contacts := Some (l1 ++ c' :: l2) |}, None)
  /\ (Prenom c <> "" ->
      (Prenom c' = "" <-> nouveauPrenom <> "" /\ TrimSpace nouveauPrenom = ""))
  /\ (Tel c <> "" ->
      (Tel c' = "" <-> nouveauTel <> "" /\ TrimSpace nouveauTel = "")).
Proof.
  intros E Hl Hc c'. split; [|split].
  - unfold modifierContact, rechercherContact. cbv zeta. rewrite E.
    rewrite (premierIndice_premier nom l1 c l2 0 Hl Hc), Nat.add_0_l.
    cbv iota. rewrite ecrire_milieu. do 3 f_equal.
    unfold modifierChamps, c'.
    destruct c as [n p t]; simpl.
    destruct (nouveauPrenom =? "")%string, (nouveauTel =? "")%string; reflexivity.
  - intros Hp. subst c'. simpl.
    destruct (String.eqb_spec nouveauPrenom "") as [->|N].
    + split; [intros H; contradiction | intros [H _]; now destruct H].
    + split; [intros H; split; assumption | intros [_ H]; assumption].
  - intros Ht. subst c'. simpl.
    destruct (String.eqb_spec nouveauTel "") as [->|N].
    + split; [intros H; contradiction | intros [H _]; now destruct H].
    + split; [intros H; split; assumption | intros [_ H]; assumption].
Qed.

(** A query with surrounding white space matches no stored name that has none. *)
Lemma aucun_si_marges (cs : list Contact) (q : string) :
  Forall (fun c => TrimSpace (Nom c) = Nom c) cs ->
  TrimSpace q <> q ->
  aucun ToLower q cs.
Proof.
  intros Hcs Hq. unfold aucun. rewrite Forall_forall in *. intros c Hin E.
  apply Hq. apply ToLower_marges. rewrite <- E. apply ToLower_marges. auto.
Qed.

(** C9. The lookups compare [ToLower] of the query as it is given, without
    trimming it: in a directory whose stored names have no surrounding
    white space, a query that differs from a stored name only by leading
    or trailing white space matches no contact; [rechercherContact]
    returns nil, [supprimerContact] and [modifierContact] fail with the
    not-found error and leave the directory unchanged. *)
Theorem C9_recherche_sans_trim (a : Annuaire) (q nouveauPrenom nouveauTel : string) :
  Forall (fun c => TrimSpace (Nom c) = Nom c) (elems (Contacts a)) ->
  (exists c, In c (elems (Contacts a)) /\ TrimSpace q = Nom c /\ q <> Nom c) ->
  rechercherContact ToLower a q = None
  /\ supprimerContact ToLower a q = (a, Some (ErrAucunContact q))
  /\ modifierContact ToLower TrimSpace a q nouveauPrenom nouveauTel
     = (a, Some (ErrAucunContact q))
  /\ kind (ErrAucunContact q) = NotFoundError.
Proof.
  intros Hcs (c & Hin & Ht & Hne).
  assert (Hq : TrimSpace q <> q) by (rewrite Ht; congruence).
  pose proof (aucun_si_marges _ _ Hcs Hq) as H.
  apply premierIndice_None with (i := 0) in H.
  unfold modifierContact, supprimerContact, rechercherContact.
  rewrite H. repeat split.
Qed.

(** *** What the operations do to the uniqueness of names *)

Lemma noms_ecrire (f : Contact -> Contact) (i : nat) (cs : list Contact) :
  (forall c, Nom (f c) = Nom c) ->
  map (fun c => ToLower (Nom c)) (ecrire i f cs) = map (fun c => ToLower (Nom c)) cs.
Proof.
  intros Hf. revert i. induction cs as [|c cs IH]; intros [|i]; simpl; try reflexivity.
  - now rewrite Hf.
  - now rewrite IH.
Qed.

Lemma nomsUniques_supprimer (a : Annuaire) (nom : string) :
  nomsUniques ToLower a -> nomsUniques ToLower (fst (supprimerContact ToLower a nom)).
Proof.
  unfold nomsUniques, supprimerContact. cbv zeta.
  destruct (premierIndice ToLower (ToLower nom) (elems (Contacts a)) 0) as [i|] eqn:P;
    [|trivial].
  destruct (premierIndice_Some _ _ _ _ P) as (l1 & c & l2 & E & -> & _ & _).
  rewrite E, Nat.add_0_l, retirer_milieu. simpl.
  rewrite !map_app. simpl. apply NoDup_remove_1.
Qed.

Lemma nomsUniques_modifier (a : Annuaire) (nom np nt : string) :
  nomsUniques ToLower a ->
  nomsUniques ToLower (fst (modifierContact ToLower TrimSpace a nom np nt)).
Proof.
  unfold nomsUniques, modifierContact.
  destruct (rechercherContact ToLower a nom) as [i|]; [|trivial].
  simpl. rewrite noms_ecrire; [trivial | apply Nom_modifierChamps].
Qed.

(** [ajouterContact] keeps the names unique when trimming [nom] does not
    change its lower-case image, in particular when [nom] has no
    surrounding white space. *)
Lemma nomsUniques_ajouter (a : Annuaire) (nom prenom tel : string) :
  ToLower (TrimSpace nom) = ToLower nom ->
  nomsUniques ToLower a ->
  nomsUniques ToLower (fst (ajouterContact ToLower TrimSpace a nom prenom tel)).
Proof.
  intros Hn. unfold nomsUniques, ajouterContact, rechercherContact. cbv zeta.
  destruct (premierIndice ToLower (ToLower nom) (elems (Contacts a)) 0) eqn:P; [trivial|].
  destruct (nom =? "")%string; [trivial|].
  destruct (tel =? "")%string; [trivial|].
  simpl. intros H. rewrite map_app. simpl.
  apply NoDup_app; [assumption | constructor; [intros [] | constructor] |].
  intros x Hx [<-|[]]. apply premierIndice_None in P. unfold aucun in P.
  rewrite Forall_forall in P. apply in_map_iff in Hx. destruct Hx as (c & Ec & Hc).
  apply (P c Hc). congruence.
Qed.

(** Along any sequence of operations whose additions satisfy the condition
    of [nomsUniques_ajouter], names stay unique. *)
Lemma nomsUniques_executer (ops : list Operation) (a : Annuaire) :
  Forall (fun op => match op with
                    | Ajouter nom _ _ => ToLower (TrimSpace nom) = ToLower nom
                    | _ => True
                    end) ops ->
  nomsUniques ToLower a ->
  nomsUniques ToLower (executer ToLower TrimSpace a ops).
Proof.
  unfold executer. revert a. induction ops as [|op ops IH]; intros a Hops Ha; simpl.
  - assumption.
  - inversion Hops as [|? ? Hop Hrest]; subst. apply IH; [assumption|].
    destruct op as [nom prenom tel | nom | nom np nt]; simpl.
    + now apply nomsUniques_ajouter.
    + now apply nomsUniques_supprimer.
    + now apply nomsUniques_modifier.
Qed.

End OperationsProperties.

(** * The ASCII string functions *)

Lemma asciiSpace_lowerByte (c : ascii) : asciiSpace (lowerByte c) = asciiSpace c.
Proof. destruct c as [[] [] [] [] [] [] [] []]; reflexivity. Qed.

Lemma length_asciiToLower (s : string) : String.length (asciiToLower s) = String.length s.
Proof. induction s as [|c r IH]; simpl; [reflexivity | now rewrite IH]. Qed.

Lemma trimLeft_asciiToLower (s : string) :
  trimLeft (asciiToLower s) = asciiToLower (trimLeft s).
Proof.
  induction s as [|c r IH]; simpl; [reflexivity|].
  rewrite asciiSpace_lowerByte. destruct (asciiSpace c); [assumption | reflexivity].
Qed.

Lemma trimRight_asciiToLower (s : string) :
  trimRight (asciiToLower s) = asciiToLower (trimRight s).
Proof.
  induction s as [|c r IH]; simpl; [reflexivity|].
  rewrite IH, asciiSpace_lowerByte.
  destruct (trimRight r) as [|x y]; simpl; [destruct (asciiSpace c)|]; reflexivity.
Qed.

Lemma asciiTrimSpace_asciiToLower (s : string) :
  asciiTrimSpace (asciiToLower s) = asciiToLower (asciiTrimSpace s).
Proof.
  unfold asciiTrimSpace. now rewrite trimLeft_asciiToLower, trimRight_asciiToLower.
Qed.

Lemma length_trimLeft (s : string) :
  String.length (trimLeft s) <= String.length s
  /\ (String.length (trimLeft s) = String.length s -> trimLeft s = s).
Proof.
  induction s as [|c r [IH1 IH2]]; simpl; [split; [lia | reflexivity]|].
  destruct (asciiSpace c); simpl; split; try lia; reflexivity.
Qed.

Lemma length_trimRight (s : string) :
  String.length (trimRight s) <= String.length s
  /\ (String.length (trimRight s) = String.length s -> trimRight s = s).
Proof.
  induction s as [|c r [IH1 IH2]]; simpl; [split; [lia | reflexivity]|].
  destruct (trimRight r) as [|x y] eqn:E.
  - destruct (asciiSpace c); simpl in *; split; try lia.
    intros H. destruct r; [reflexivity | simpl in H; lia].
  - simpl in *. split; [lia|]. intros H. f_equal. apply IH2. lia.
Qed.

Lemma asciiTrimSpace_longueur (s : string) :
  String.length (asciiTrimSpace s) = String.length s -> asciiTrimSpace s = s.
Proof.
  unfold asciiTrimSpace. intros H.
  destruct (length_trimLeft s) as [L1 L2].
  destruct (length_trimRight (trimLeft s)) as [R1 R2].
  assert (E : trimLeft s = s) by (apply L2; lia).
  rewrite E in *. apply R2. assumption.
Qed.

(** The ASCII functions satisfy the hypothesis [ToLower_marges]. *)
Lemma ascii_marges (s : string) :
  asciiTrimSpace (asciiToLower s) = asciiToLower s <-> asciiTrimSpace s = s.
Proof.
  rewrite asciiTrimSpace_asciiToLower. split.
  - intros H. apply asciiTrimSpace_longueur.
    rewrite <- (length_asciiToLower (asciiTrimSpace s)), H. apply length_asciiToLower.
  - intros ->. reflexivity.
Qed.

(** * Closed instances *)

Lemma C5_ajouter_rejette_doublon_witness :
  ajouter {| Contacts := Some [dupont] |} "dupont" "" ""
  = ({| Contacts := Some [dupont] |}, Some (ErrExisteDeja "dupont"))
  /\ kind (ErrExisteDeja "dupont") = DuplicateError.
Proof.
  apply (C5_ajouter_rejette_doublon asciiToLower asciiTrimSpace
           {| Contacts := Some [dupont] |} "dupont" "" "").
  exists dupont. split; [left; reflexivity | reflexivity].
Defined.

Lemma C6_supprimer_premier_witness :
  supprimer {| Contacts := Some [dupont; martin; durand] |} "MARTIN"
  = ({| Contacts := Some [dupont; durand] |}, None)
  /\ supprimer {| Contacts := Some [dupont; martin; durand] |} "Inconnu"
     = ({| Contacts := Some [dupont; martin; durand] |}, Some (ErrAucunContact "Inconnu")).
Proof.
  split.
  - apply (proj1 (C6_supprimer_premier asciiToLower
                    {| Contacts := Some [dupont; martin; durand] |} "MARTIN")
                 [dupont] martin [durand]).
    + reflexivity.
    + constructor; [vm_compute; discriminate | constructor].
    + reflexivity.
  - apply (proj2 (C6_supprimer_premier asciiToLower
                    {| Contacts := Some [dupont; martin; durand] |} "Inconnu")).
    repeat constructor; vm_compute; discriminate.
Defined.

Lemma C7_erreur_sans_effet_witness :
  fst (appliquer asciiToLower asciiTrimSpace {| Contacts := Some [dupont] |}
                 (Ajouter "Martin" "Anne" ""))
  = {| Contacts := Some [dupont] |}.
Proof.
  apply (C7_erreur_sans_effet asciiToLower asciiTrimSpace
           {| Contacts := Some [dupont] |} (Ajouter "Martin" "Anne" "") ErrTelVide).
  reflexivity.
Defined.

Lemma modifierContact_premier_exemple :
  modifier {| Contacts := Some [martin; dupont] |} "Dupont" "" "0987654321"
  = ({| Contacts := Some [martin; {| Nom := "Dupont"; Prenom := "Jean"; Tel := "0987654321" |}] |},
     None).
Proof.
  apply (modifierContact_premier asciiToLower asciiTrimSpace
           {| Contacts := Some [martin; dupont] |} "Dupont" "" "0987654321"
           [martin] dupont []).
  - reflexivity.
  - constructor; [vm_compute; discriminate | constructor].
  - reflexivity.
Defined.

(** C4. [modifierContact] does clear a field.  It tests that
    [nouveauPrenom] and [nouveauTel] are not the empty string on the
    arguments as given, so as to leave a field alone when nothing is
    provided for it, and then stores [strings.TrimSpace] of the argument:
    an argument made of white space only passes the test and is stored as
    the empty string.  Here a
    given name and a phone number that were not empty are both set to the
    empty string, although [ajouterContact] refuses an empty phone number.
    The check precedes the trimming, as it does in [ajouterContact]. *)
Theorem C4_modifier_vide_les_champs :
  modifier {| Contacts := Some [dupont] |} "Dupont" " " " "
  = ({| Contacts := Some [{| Nom := "Dupont"; Prenom := ""; Tel := "" |}] |}, None)
  /\ Prenom dupont <> "" /\ Tel dupont <> "".
Proof. repeat split; discriminate. Qed.

Lemma C9_recherche_sans_trim_witness :
  rechercher {| Contacts := Some [dupont; martin] |} " Martin" = None
  /\ supprimer {| Contacts := Some [dupont; martin] |} " Martin"
     = ({| Contacts := Some [dupont; martin] |}, Some (ErrAucunContact " Martin"))
  /\ modifier {| Contacts := Some [dupont; martin] |} " Martin" "Luc" ""
     = ({| Contacts := Some [dupont; martin] |}, Some (ErrAucunContact " Martin"))
  /\ kind (ErrAucunContact " Martin") = NotFoundError.
Proof.
  apply (C9_recherche_sans_trim asciiToLower asciiTrimSpace ascii_marges
           {| Contacts := Some [dupont; martin] |} " Martin" "Luc" "").
  - repeat constructor.
  - exists martin. split; [right; left; reflexivity|].
    split; [reflexivity | discriminate].
Defined.

(** C1 fails on the code.  The duplicate check of [ajouterContact] compares
    the name as given, the contact stored has the name trimmed: adding
    [" Dupont"] to a directory that holds ["Dupont"] succeeds and stores a
    second ["Dupont"]. *)
Theorem C1_ajouter_cree_doublon :
  nomsUniques asciiToLower {| Contacts := Some [dupont] |}
  /\ ajouter {| Contacts := Some [dupont] |} " Dupont" "Jeanne" "0600000000"
     = ({| Contacts := Some [dupont;
                             {| Nom := "Dupont"; Prenom := "Jeanne"; Tel := "0600000000" |}] |},
        None)
  /\ ~ nomsUniques asciiToLower
         (executer asciiToLower asciiTrimSpace {| Contacts := Some [dupont] |}
                   [Ajouter " Dupont" "Jeanne" "0600000000"]).
Proof.
  split; [|split].
  - repeat constructor. intros [].
  - reflexivity.
  - intros H. inversion H as [|x l Hin _]; subst. apply Hin. left. reflexivity.
Qed.

(** C2 fails on the code.  The emptiness checks of [ajouterContact] test
    the arguments as given, the fields stored are trimmed afterwards: a
    name and a phone number made of white space pass the checks and are
    stored as empty strings. *)
Theorem C2_ajouter_champs_vides :
  ajouter {| Contacts := Some [] |} " " "Jean" " "
  = ({| Contacts := Some [{| Nom := ""; Prenom := "Jean"; Tel := "" |}] |}, None).
Proof. reflexivity. Qed.

(** * Properties of the snapshot file and its encoding *)

Ltac Zify.zify_post_hook ::= Z.to_euclidean_division_equations.

Lemma append_assoc (a b c : string) : ((a ++ b) ++ c = a ++ (b ++ c))%string.
Proof. induction a as [|x a IH]; simpl; [reflexivity | now rewrite IH]. Qed.

Lemma length_append (a b : string) :
  String.length (a ++ b)%string = String.length a + String.length b.
Proof. induction a as [|x a IH]; simpl; [reflexivity | now rewrite IH]. Qed.

(** ** Bit fields as arithmetic *)

Lemma lor_add (k x y : N) : (x mod 2 ^ k = 0 -> y < 2 ^ k -> N.lor x y = x + y)%N.
Proof.
  intros Hx Hy. rewrite N.add_nocarry_lxor, N.lxor_lor; try reflexivity.
  all: apply N.bits_inj_0; intros n; rewrite N.land_spec.
  all: destruct (N.lt_ge_cases n k) as [L|L].
  all: try (rewrite <- (N.mod_pow2_bits_low x k n L), Hx, N.bits_0; reflexivity).
  all: rewrite <- (N.mod_small y (2 ^ k) Hy), (N.mod_pow2_bits_high y k n L);
    apply andb_false_r.
Qed.

Lemma land_mod (k x : N) : N.land x (N.ones k) = (x mod 2 ^ k)%N.
Proof. apply N.land_ones. Qed.

Ltac puissances :=
  repeat match goal with
  | |- context [(2 ^ ?k)%N] =>
      let v := eval vm_compute in (2 ^ k)%N in change (2 ^ k)%N with v
  | H : context [(2 ^ ?k)%N] |- _ =>
      let v := eval vm_compute in (2 ^ k)%N in change (2 ^ k)%N with v in H
  end.

(** The masks and shifts of [DecodeRune] and [EncodeRune] as quotients and
    remainders. *)
Ltac champs :=
  repeat match goal with
  | |- context [N.land ?x 0x3F] =>
      change (N.land x 0x3F) with (N.land x (N.ones 6)); rewrite (land_mod 6 x)
  | |- context [N.land ?x 0x1F] =>
      change (N.land x 0x1F) with (N.land x (N.ones 5)); rewrite (land_mod 5 x)
  | |- context [N.land ?x 0x0F] =>
      change (N.land x 0x0F) with (N.land x (N.ones 4)); rewrite (land_mod 4 x)
  | |- context [N.land ?x 0x07] =>
      change (N.land x 0x07) with (N.land x (N.ones 3)); rewrite (land_mod 3 x)
  | |- context [N.land ?x 0xFF] =>
      change (N.land x 0xFF) with (N.land x (N.ones 8)); rewrite (land_mod 8 x)
  | |- context [N.shiftl ?x ?k] => rewrite (N.shiftl_mul_pow2 x k)
  | |- context [N.shiftr ?x ?k] => rewrite (N.shiftr_div_pow2 x k)
  end; puissances.

Ltac ou k :=
  match goal with
  | |- context [N.lor ?x ?y] => rewrite (lor_add k x y) by (puissances; lia)
  end.

Lemma rune2_valeur (p0 b1 : N) :
  (0xC2 <= p0 <= 0xDF -> 0x80 <= b1 <= 0xBF ->
   rune2 p0 b1 = (p0 - 0xC0) * 64 + (b1 - 0x80))%N.
Proof. intros H0 H1. unfold rune2. champs. ou 6%N. lia. Qed.

Lemma rune3_valeur (p0 b1 b2 : N) :
  (0xE0 <= p0 <= 0xEF -> 0x80 <= b1 <= 0xBF -> 0x80 <= b2 <= 0xBF ->
   rune3 p0 b1 b2 = (p0 - 0xE0) * 4096 + (b1 - 0x80) * 64 + (b2 - 0x80))%N.
Proof. intros H0 H1 H2. unfold rune3. champs. ou 12%N. ou 6%N. lia. Qed.

Lemma rune4_valeur (p0 b1 b2 b3 : N) :
  (0xF0 <= p0 <= 0xF4 -> 0x80 <= b1 <= 0xBF -> 0x80 <= b2 <= 0xBF -> 0x80 <= b3 <= 0xBF ->
   rune4 p0 b1 b2 b3
   = (p0 - 0xF0) * 262144 + (b1 - 0x80) * 4096 + (b2 - 0x80) * 64 + (b3 - 0x80))%N.
Proof. intros H0 H1 H2 H3. unfold rune4. champs. ou 18%N. ou 12%N. ou 6%N. lia. Qed.

Ltac branche :=
  match goal with
  | |- context [(?a <=? ?b)%N] => destruct (N.leb_spec a b)
  | |- context [(?a <? ?b)%N] => destruct (N.ltb_spec a b)
  end; try lia; cbn [orb andb].

Ltac octets := repeat (apply f_equal2; [apply f_equal; lia|]); reflexivity.

Lemma EncodeRune_2 (r : N) :
  (0x80 <= r <= 0x7FF ->
   EncodeRune r = String (ascii_of_N (0xC0 + r / 64))
                    (String (ascii_of_N (0x80 + r mod 64)) EmptyString))%N.
Proof.
  intros H. unfold EncodeRune. repeat branche. unfold byte_of. champs.
  ou 6%N. ou 7%N. octets.
Qed.

Lemma EncodeRune_3 (r : N) :
  (0x800 <= r <= 0xFFFF -> r < 0xD800 \/ 0xDFFF < r ->
   EncodeRune r = String (ascii_of_N (0xE0 + r / 4096))
                    (String (ascii_of_N (0x80 + (r / 64) mod 64))
                       (String (ascii_of_N (0x80 + r mod 64)) EmptyString)))%N.
Proof.
  intros H Hs. unfold EncodeRune, MaxRune. repeat branche. all: unfold byte_of; champs.
  all: ou 5%N; ou 7%N; ou 7%N; octets.
Qed.

Lemma EncodeRune_4 (r : N) :
  (0x10000 <= r <= 0x10FFFF ->
   EncodeRune r = String (ascii_of_N (0xF0 + r / 262144))
                    (String (ascii_of_N (0x80 + (r / 4096) mod 64))
                       (String (ascii_of_N (0x80 + (r / 64) mod 64))
                          (String (ascii_of_N (0x80 + r mod 64)) EmptyString))))%N.
Proof.
  intros H. unfold EncodeRune, MaxRune. repeat branche. unfold byte_of; champs.
  ou 4%N; ou 7%N; ou 7%N; ou 7%N; octets.
Qed.

Lemma first_bornes (p0 : N) :
  match first p0 with
  | AS => (p0 < 0x80)%N
  | XX => (0x80 <= p0)%N
  | SZ sz lo hi =>
      (0x80 <= lo /\ hi <= 0xBF)%N /\
      ((sz = 2 /\ (0xC2 <= p0 <= 0xDF)%N)
       \/ (sz = 3 /\ (0xE0 <= p0 <= 0xEF)%N /\ (p0 = 0xE0 -> lo = 0xA0)%N
           /\ (p0 = 0xED -> hi = 0x9F)%N)
       \/ (sz = 4 /\ (0xF0 <= p0 <= 0xF4)%N /\ (p0 = 0xF0 -> lo = 0x90)%N
           /\ (p0 = 0xF4 -> hi = 0x8F)%N))
  end.
Proof.
  unfold first.
  repeat match goal with
  | |- context [(?a <? ?b)%N] => destruct (N.ltb_spec a b)
  | |- context [(?a =? ?b)%N] => destruct (N.eqb_spec a b)
  end; try lia.
  all: split; [lia|].
  all: first [ left; split; [reflexivity | lia]
             | right; left; split; [reflexivity | repeat split; lia]
             | right; right; split; [reflexivity | repeat split; lia] ].
Qed.

Lemma horsDe_false (lo hi b : N) : horsDe lo hi b = false -> (lo <= b <= hi)%N.
Proof.
  unfold horsDe. destruct (N.ltb_spec b lo), (N.ltb_spec hi b); simpl; try discriminate. lia.
Qed.

Lemma ascii_octet (c : ascii) (n : N) : n = octet c -> ascii_of_N n = c.
Proof. intros ->. apply ascii_N_embedding. Qed.

Ltac memes_octets :=
  repeat (apply f_equal2; [apply ascii_octet; lia|]); reflexivity.

Lemma DecodeRune_ascii (c0 : ascii) (p1 : string) :
  (octet c0 < 0x80)%N -> DecodeRune (String c0 p1) = (octet c0, 1).
Proof.
  intros H. unfold DecodeRune. pose proof (first_bornes (octet c0)) as F.
  destruct (first (octet c0)) as [| |sz lo hi]; [reflexivity | lia |].
  destruct F as [_ [[_ F]|[[_ [F _]]|[_ [F _]]]]]; lia.
Qed.

Lemma DecodeRune_multi (c0 : ascii) (p1 : string) (r : N) (size : nat) :
  DecodeRune (String c0 p1) = (r, size) ->
  (0x80 <= octet c0)%N ->
  (r =? RuneError)%N && (size =? 1)%nat = false ->
  exists chunk reste,
    String c0 p1 = (chunk ++ reste)%string
    /\ String.length chunk = size
    /\ 1 <= size
    /\ EncodeRune r = chunk
    /\ hauts chunk = true
    /\ (forall t, DecodeRune (chunk ++ t) = (r, size)).
Proof.
  unfold DecodeRune. pose proof (first_bornes (octet c0)) as F.
  destruct (first (octet c0)) as [| |sz lo hi] eqn:E; [lia | intros [= <- <-]; discriminate |].
  destruct F as [[Hlo Hhi] F].
  destruct p1 as [|c1 p2]; [intros [= <- <-]; discriminate|].
  destruct (horsDe lo hi (octet c1)) eqn:R1; [intros [= <- <-]; discriminate|].
  pose proof (horsDe_false _ _ _ R1) as B1.
  destruct F as [[-> F]|[[-> (F & Fl & Fh)]|[-> (F & Fl & Fh)]]]; cbn [Nat.leb].
  - intros [= <- <-] _ _. exists (String c0 (String c1 "")), p2.
    refine (conj eq_refl (conj eq_refl (conj _ (conj _ (conj _ _))))); [lia | | |].
    + rewrite rune2_valeur by lia. rewrite EncodeRune_2 by lia. memes_octets.
    + simpl. destruct (N.leb_spec 0x80 (octet c0)), (N.leb_spec 0x80 (octet c1)); lia.
    + intros t. simpl. unfold DecodeRune. rewrite E, R1. reflexivity.
  - destruct p2 as [|c2 p3]; [intros [= <- <-]; discriminate|].
    destruct (horsDe 128 191 (octet c2)) eqn:R2; [intros [= <- <-]; discriminate|].
    pose proof (horsDe_false _ _ _ R2) as B2.
    intros [= <- <-] _ _. exists (String c0 (String c1 (String c2 ""))), p3.
    assert (V : (rune3 (octet c0) (octet c1) (octet c2)
                 = (octet c0 - 0xE0) * 4096 + (octet c1 - 0x80) * 64 + (octet c2 - 0x80))%N)
      by (apply rune3_valeur; lia).
    refine (conj eq_refl (conj eq_refl (conj _ (conj _ (conj _ _))))); [lia | | |].
    + rewrite V. rewrite EncodeRune_3 by lia. memes_octets.
    + simpl. destruct (N.leb_spec 0x80 (octet c0)), (N.leb_spec 0x80 (octet c1)),
        (N.leb_spec 0x80 (octet c2)); lia.
    + intros t. simpl. unfold DecodeRune. rewrite E, R1, R2. reflexivity.
  - destruct p2 as [|c2 p3]; [intros [= <- <-]; discriminate|].
    destruct (horsDe 128 191 (octet c2)) eqn:R2; [intros [= <- <-]; discriminate|].
    pose proof (horsDe_false _ _ _ R2) as B2.
    destruct p3 as [|c3 p4]; [intros [= <- <-]; discriminate|].
    destruct (horsDe 128 191 (octet c3)) eqn:R3; [intros [= <- <-]; discriminate|].
    pose proof (horsDe_false _ _ _ R3) as B3.
    intros [= <- <-] _ _. exists (String c0 (String c1 (String c2 (String c3 "")))), p4.
    assert (V : (rune4 (octet c0) (octet c1) (octet c2) (octet c3)
                 = (octet c0 - 0xF0) * 262144 + (octet c1 - 0x80) * 4096
                   + (octet c2 - 0x80) * 64 + (octet c3 - 0x80))%N)
      by (apply rune4_valeur; lia).
    refine (conj eq_refl (conj eq_refl (conj _ (conj _ (conj _ _))))); [lia | | |].
    + rewrite V. rewrite EncodeRune_4 by lia. memes_octets.
    + simpl. destruct (N.leb_spec 0x80 (octet c0)), (N.leb_spec 0x80 (octet c1)),
        (N.leb_spec 0x80 (octet c2)), (N.leb_spec 0x80 (octet c3)); lia.
    + intros t. simpl. unfold DecodeRune. rewrite E, R1, R2, R3. reflexivity.
Qed.

(** ** A string and its literal *)

Lemma avec_avec (a b : string) (x : option (string * string)) :
  avec a (avec b x) = avec (a ++ b)%string x.
Proof. destruct x as [[lit reste]|]; simpl; [now rewrite append_assoc | reflexivity]. Qed.

Lemma scanString_ascii (c : ascii) (t : string) :
  (octet c < 0x80)%N ->
  scanString (encAscii c ++ t) = avec (encAscii c) (scanString t).
Proof.
  destruct c as [[] [] [] [] [] [] [] []]; intros H;
    first [ reflexivity | vm_compute in H; discriminate ].
Qed.

Lemma unquoteLoop_ascii (c : ascii) (m : nat) (t : string) :
  (octet c < 0x80)%N ->
  unquoteLoop (S m) (encAscii c ++ t) = option_map (String c) (unquoteLoop m t).
Proof.
  destruct c as [[] [] [] [] [] [] [] []]; intros H;
    first [ reflexivity | vm_compute in H; discriminate ].
Qed.

Lemma length_encAscii (c : ascii) : 1 <= String.length (encAscii c).
Proof.
  destruct c as [[] [] [] [] [] [] [] []]; vm_compute; lia.
Qed.

Lemma haut_pas_special (c : ascii) :
  (0x80 <=? octet c)%N = true ->
  (c =? dquote)%char = false /\ (c =? backslash)%char = false
  /\ (octet c <? 0x20)%N = false /\ (octet c <? 0x80)%N = false.
Proof.
  intros H. apply N.leb_le in H. repeat split.
  - destruct (Ascii.eqb_spec c dquote) as [->|]; [vm_compute in H; lia | reflexivity].
  - destruct (Ascii.eqb_spec c backslash) as [->|]; [vm_compute in H; lia | reflexivity].
  - apply N.ltb_ge. lia.
  - apply N.ltb_ge. lia.
Qed.

Lemma scanString_hauts (chunk t : string) :
  hauts chunk = true ->
  scanString (chunk ++ t) = avec chunk (scanString t).
Proof.
  induction chunk as [|c chunk IH]; simpl.
  - intros _. destruct (scanString t) as [[lit reste]|]; reflexivity.
  - intros H. apply andb_prop in H. destruct H as [Hc Hr].
    destruct (haut_pas_special c Hc) as (E1 & E2 & E3 & _).
    rewrite E1, E2, E3, (IH Hr). apply avec_avec.
Qed.

Lemma drop_append (a b : string) : drop (String.length a) (a ++ b) = b.
Proof. induction a as [|x a IH]; simpl; [reflexivity | assumption]. Qed.

Lemma take_append (a b : string) : take (String.length a) (a ++ b) = a.
Proof. induction a as [|x a IH]; simpl; [reflexivity | now rewrite IH]. Qed.

Lemma unquoteLoop_multi (chunk t : string) (r : N) (m : nat) :
  1 <= String.length chunk ->
  hauts chunk = true ->
  EncodeRune r = chunk ->
  DecodeRune (chunk ++ t) = (r, String.length chunk) ->
  unquoteLoop (S m) (chunk ++ t) = option_map (append chunk) (unquoteLoop m t).
Proof.
  intros L H E D. destruct chunk as [|c chunk]; [simpl in L; lia|].
  simpl in H. apply andb_prop in H. destruct H as [Hc _].
  destruct (haut_pas_special c Hc) as (E1 & E2 & E3 & E4).
  change ((String c chunk ++ t)%string) with (String c (chunk ++ t)) in *.
  cbn [unquoteLoop]. rewrite E1, E2, E3, E4. cbn [orb].
  rewrite D, E.
  change (String c (chunk ++ t)) with ((String c chunk ++ t)%string).
  now rewrite drop_append.
Qed.

Lemma validLoop_S (f : nat) (c : ascii) (r : string) :
  validLoop (S f) (String c r)
  = let (rr, size) := DecodeRune (String c r) in
    if (rr =? RuneError)%N && (size =? 1)%nat then false
    else validLoop f (drop size (String c r)).
Proof. reflexivity. Qed.

Lemma appendStringLoop_S (f : nat) (c : ascii) (reste : string) :
  appendStringLoop (S f) (String c reste)
  = if (octet c <? 0x80)%N then (encAscii c ++ appendStringLoop f reste)%string
    else
      let (r, size) := DecodeRune (String c reste) in
      if (r =? RuneError)%N && (size =? 1)%nat then
        (String backslash "ufffd" ++ appendStringLoop f reste)%string
      else if ((r =? 0x2028) || (r =? 0x2029))%N then
        (String backslash (String "u" (String "2" (String "0" (String "2"
            (String (hex (N.land r 0xF)) EmptyString)))))
           ++ appendStringLoop f (drop size (String c reste)))%string
      else (take size (String c reste)
              ++ appendStringLoop f (drop size (String c reste)))%string.
Proof. reflexivity. Qed.

(** The literal [appendString] writes for a valid UTF-8 string is scanned
    up to its closing quote and unquoted to the string. *)
Lemma litteral_valide (n : nat) :
  forall s, String.length s <= n -> validLoop n s = true ->
    (forall reste,
        scanString (appendStringLoop n s ++ String dquote reste)
        = Some (appendStringLoop n s, reste))
    /\ (forall m, String.length (appendStringLoop n s) <= m ->
                  unquoteLoop m (appendStringLoop n s) = Some s).
Proof.
  induction n as [|n IH]; intros s L V.
  - destruct s; [|simpl in L; lia]. split; [reflexivity | intros [|m] _; reflexivity].
  - destruct s as [|c r]; [split; [reflexivity | intros [|m] _; reflexivity]|].
    rewrite validLoop_S in V. rewrite appendStringLoop_S.
    destruct (N.ltb_spec (octet c) 0x80) as [A|A].
    + rewrite (DecodeRune_ascii c r A) in V.
      replace ((octet c =? RuneError)%N) with false in V
        by (symmetry; apply N.eqb_neq; unfold RuneError; lia).
      cbn [andb drop] in V. simpl in L.
      destruct (IH r ltac:(lia) V) as [IHa IHb]. split.
      * intros reste. rewrite append_assoc, (scanString_ascii c _ A), IHa. reflexivity.
      * intros m Lm. rewrite length_append in Lm. pose proof (length_encAscii c).
        destruct m as [|m]; [lia|].
        rewrite (unquoteLoop_ascii c m _ A), IHb by lia. reflexivity.
    + destruct (DecodeRune (String c r)) as [rr size] eqn:D.
      destruct ((rr =? RuneError)%N && (size =? 1)%nat) eqn:Err; [discriminate|].
      destruct (DecodeRune_multi c r rr size D A Err)
        as (chunk & reste & Es & Lc & L1 & Enc & Hh & Dt).
      subst size. rewrite Es in L, V |- *. rewrite drop_append in V |- *.
      rewrite ?take_append. rewrite length_append in L.
      destruct (IH reste ltac:(lia) V) as [IHa IHb].
      destruct ((rr =? 0x2028) || (rr =? 0x2029))%N eqn:Sep.
      * assert (Hr : rr = 0x2028%N \/ rr = 0x2029%N).
        { apply orb_prop in Sep. destruct Sep as [Sep|Sep]; apply N.eqb_eq in Sep; auto. }
        split.
        -- intros t. rewrite append_assoc.
           destruct Hr as [-> | ->];
             cbn [N.land hex String.get N.to_nat Pos.to_nat Pos.iter_op Nat.add];
             cbn; rewrite IHa; reflexivity.
        -- intros m Lm. rewrite length_append in Lm. destruct m as [|m]; [simpl in Lm; lia|].
           rewrite <- Enc.
           destruct Hr as [-> | ->]; cbn; cbn in Lm; rewrite IHb by lia; reflexivity.
      * split.
        -- intros t. rewrite append_assoc, (scanString_hauts _ _ Hh), IHa. reflexivity.
        -- intros m Lm. rewrite length_append in Lm. destruct m as [|m]; [lia|].
           rewrite (unquoteLoop_multi chunk _ rr m) by auto.
           rewrite IHb by lia. reflexivity.
Qed.

(** ** The document *)

Lemma parseString_appendString (s reste : string) :
  ValidString s = true ->
  parseString (appendStringLoop (String.length s) s ++ String dquote reste) = Some (s, reste).
Proof.
  intros V. destruct (litteral_valide (String.length s) s (le_n _) V) as [A B].
  unfold parseString, unquote. rewrite A, B by apply le_n. reflexivity.
Qed.

Lemma appendString_append (s reste : string) :
  (appendString s ++ reste)%string
  = String dquote (appendStringLoop (String.length s) s ++ String dquote reste).
Proof. unfold appendString. simpl. now rewrite append_assoc. Qed.

Lemma quoted_append (name reste : string) :
  (quoted name ++ reste)%string = String dquote (name ++ String dquote reste).
Proof. unfold quoted. simpl. now rewrite append_assoc. Qed.

Lemma parseValue_chaine (f : nat) (d : N) (s reste : string) :
  ValidString s = true ->
  parseValue (S f) d (appendString s ++ reste) = Some (JString s, reste).
Proof.
  intros V. rewrite appendString_append. cbn [parseValue].
  change ((dquote =? "{")%char) with false. change ((dquote =? "[")%char) with false.
  change ((dquote =? dquote)%char) with true. cbv iota.
  now rewrite parseString_appendString.
Qed.

Lemma skipSpace_indentation (k : nat) (c : ascii) (r : string) :
  isSpace c = false -> skipSpace (indentation k ++ String c r) = String c r.
Proof.
  intros H. induction k as [|k IH]; simpl.
  - now rewrite H.
  - exact IH.
Qed.

Lemma skipSpace_appendNewline (k : nat) (c : ascii) (r : string) :
  isSpace c = false -> skipSpace (appendNewline k ++ String c r) = String c r.
Proof. intros H. unfold appendNewline. simpl. now apply skipSpace_indentation. Qed.

Lemma nomSimple_nom : nomSimple "nom". Proof. intros r. reflexivity. Qed.
Lemma nomSimple_prenom : nomSimple "prenom". Proof. intros r. reflexivity. Qed.
Lemma nomSimple_tel : nomSimple "tel". Proof. intros r. reflexivity. Qed.
Lemma nomSimple_contacts : nomSimple "contacts". Proof. intros r. reflexivity. Qed.

Lemma parseMembers_S (f : nat) (d : N) (key reste : string) :
  nomSimple key ->
  parseMembers (S f) d (quoted key ++ String ":" (String " " reste))
  = match parseValue f d (skipSpace reste) with
    | None => None
    | Some (v, r3) =>
        match skipSpace r3 with
        | EmptyString => None
        | String c4 r4 =>
            if (c4 =? ",")%char then
              match parseMembers f d (skipSpace r4) with
              | Some (m, r5) => Some ((key, v) :: m, r5)
              | None => None
              end
            else if (c4 =? "}")%char then Some ([(key, v)], r4)
            else None
        end
    end.
Proof.
  intros Hk. rewrite quoted_append. cbn [parseMembers].
  change ((dquote =? dquote)%char) with true. cbv iota. rewrite Hk. reflexivity.
Qed.

Lemma encodeContact_append (c : Contact) (reste : string) :
  (encodeContact c ++ reste)%string
  = (String "{" (appendNewline 3 ++ quoted "nom" ++ String ":" (String " "
      (appendString (Nom c) ++ String "," (appendNewline 3 ++ quoted "prenom"
         ++ String ":" (String " "
      (appendString (Prenom c) ++ String "," (appendNewline 3 ++ quoted "tel"
         ++ String ":" (String " "
      (appendString (Tel c) ++ appendNewline 2 ++ String "}" reste))))))))))%string.
Proof. unfold encodeContact. rewrite !append_assoc. reflexivity. Qed.

Lemma parseValue_objet (f : nat) (d : N) (k : nat) (r : string) :
  (d + 1 <= maxNestingDepth)%N ->
  parseValue (S f) d (String "{" (appendNewline k ++ String dquote r))
  = match parseMembers f (d + 1) (String dquote r) with
    | Some (m, r') => Some (JObject m, r')
    | None => None
    end.
Proof.
  intros Hd. cbn [parseValue]. change (("{" =? "{")%char) with true. cbv iota.
  replace (maxNestingDepth <? d + 1)%N with false by (symmetry; apply N.ltb_ge; exact Hd).
  rewrite skipSpace_appendNewline by reflexivity. reflexivity.
Qed.

Lemma skipSpace_virgule (r : string) : skipSpace (String "," r) = String "," r.
Proof. reflexivity. Qed.

Lemma skipSpace_appendString (s r : string) :
  skipSpace (appendString s ++ r) = (appendString s ++ r)%string.
Proof. rewrite appendString_append. reflexivity. Qed.

Lemma parseValue_contact (f : nat) (d : N) (c : Contact) (reste : string) :
  (d + 1 <= maxNestingDepth)%N ->
  contactValide c = true ->
  parseValue (S (S (S (S (S f))))) d (encodeContact c ++ reste)
  = Some (jsonOfContact c, reste).
Proof.
  intros Hd V. unfold contactValide in V.
  apply andb_prop in V. destruct V as [V Vt]. apply andb_prop in V. destruct V as [Vn Vp].
  rewrite encodeContact_append, quoted_append, (parseValue_objet _ _ _ _ Hd).
  rewrite <- quoted_append.
  rewrite (parseMembers_S _ _ _ _ nomSimple_nom), skipSpace_appendString.
  rewrite (parseValue_chaine _ _ _ _ Vn), skipSpace_virgule.
  rewrite quoted_append, skipSpace_appendNewline by reflexivity. rewrite <- quoted_append.
  rewrite (parseMembers_S _ _ _ _ nomSimple_prenom), skipSpace_appendString.
  rewrite (parseValue_chaine _ _ _ _ Vp), skipSpace_virgule.
  rewrite quoted_append, skipSpace_appendNewline by reflexivity. rewrite <- quoted_append.
  rewrite (parseMembers_S _ _ _ _ nomSimple_tel), skipSpace_appendString.
  rewrite (parseValue_chaine _ _ _ _ Vt).
  rewrite skipSpace_appendNewline by reflexivity. reflexivity.
Qed.

Lemma skipSpace_contact (k : nat) (c : Contact) (reste : string) :
  skipSpace (appendNewline k ++ encodeContact c ++ reste) = (encodeContact c ++ reste)%string.
Proof.
  rewrite encodeContact_append. apply skipSpace_appendNewline. reflexivity.
Qed.

Lemma parseElements_S (f : nat) (d : N) (s : string) :
  parseElements (S f) d s
  = match parseValue f d s with
    | None => None
    | Some (v, r) =>
        match skipSpace r with
        | EmptyString => None
        | String c1 r1 =>
            if (c1 =? ",")%char then
              match parseElements f d (skipSpace r1) with
              | Some (vs, r2) => Some (v :: vs, r2)
              | None => None
              end
            else if (c1 =? "]")%char then Some ([v], r1)
            else None
        end
    end.
Proof. reflexivity. Qed.

Lemma parseElements_contacts (cs : list Contact) :
  forall (c : Contact) (f : nat) (d : N) (reste : string),
    6 + length cs <= f ->
    (d + 1 <= maxNestingDepth)%N ->
    forallb contactValide (c :: cs) = true ->
    parseElements f d (encodeContact c ++ encodeSuite cs
                         ++ appendNewline 1 ++ String "]" reste)
    = Some (map jsonOfContact (c :: cs), reste).
Proof.
  induction cs as [|c' cs IH]; intros c f d reste Hf Hd V;
    simpl in V; apply andb_prop in V; destruct V as [Vc V].
  - destruct f as [|f]; [simpl in Hf; lia|]. simpl in Hf.
    replace f with (S (S (S (S (S (f - 5)))))) by lia.
    rewrite parseElements_S, (parseValue_contact _ _ _ _ Hd Vc).
    cbn [encodeSuite append]. rewrite skipSpace_appendNewline by reflexivity. reflexivity.
  - destruct f as [|f]; [simpl in Hf; lia|]. simpl in Hf.
    rewrite parseElements_S.
    replace (parseValue f d) with (parseValue (S (S (S (S (S (f - 5)))))) d)
      by (f_equal; lia).
    rewrite (parseValue_contact _ _ _ _ Hd Vc).
    cbn [encodeSuite]. rewrite !append_assoc.
    change (("," ++ ?x)%string) with (String "," x).
    rewrite skipSpace_virgule, skipSpace_contact.
    rewrite (IH c' f d reste) by (simpl; auto; lia). reflexivity.
Qed.

Lemma length_encodeSuite (cs : list Contact) : length cs <= String.length (encodeSuite cs).
Proof.
  induction cs as [|c cs IH]; simpl; [lia|]. rewrite !length_append. lia.
Qed.

Lemma parseDocument_MarshalIndent (a : Annuaire) :
  annuaireValide a = true ->
  exists data, json_MarshalIndent a = Some data
               /\ parseDocument data = Some (jsonOfAnnuaire a).
Proof.
  intros V. unfold json_MarshalIndent. eexists. split; [reflexivity|].
  set (data := ("{" ++ appendNewline 1 ++ quoted "contacts" ++ ": "
                    ++ encodeContacts (Contacts a) ++ appendNewline 0 ++ "}")%string).
  unfold parseDocument.
  assert (L : 18 + String.length (encodeContacts (Contacts a)) = String.length data).
  { unfold data. rewrite !length_append. simpl. lia. }
  assert (F : forall f, 9 + String.length (encodeContacts (Contacts a)) <= f ->
              parseValue f 0 (skipSpace data) = Some (jsonOfAnnuaire a, EmptyString)).
  { intros f Hf. unfold data.
    change (skipSpace ("{" ++ ?x)) with (String "{" x).
    do 3 (destruct f as [|f]; [simpl in Hf; lia|]).
    rewrite quoted_append, parseValue_objet by (vm_compute; discriminate).
    rewrite <- quoted_append.
    change ((": " ++ ?x)%string) with (String ":" (String " " x)).
    rewrite (parseMembers_S _ _ _ _ nomSimple_contacts).
    unfold jsonOfAnnuaire, annuaireValide in *.
    destruct (Contacts a) as [[|c cs]|]; cbn [encodeContacts elems] in *.
    - cbn. reflexivity.
    - rewrite !append_assoc.
      change (("[" ++ ?x)%string) with (String "[" x).
      change (skipSpace (String "[" ?x)) with (String "[" x).
      rewrite encodeContact_append.
      cbn [parseValue]. change (("[" =? "{")%char) with false.
      change (("[" =? "[")%char) with true. cbv iota.
      change (maxNestingDepth <? 0 + 1 + 1)%N with false. cbv iota.
      rewrite skipSpace_appendNewline by reflexivity.
      rewrite <- encodeContact_append.
      change (("]" ++ ?x)%string) with (String "]" x).
      rewrite (parseElements_contacts cs c f (0 + 1 + 1)%N)
        by (try assumption; try (vm_compute; discriminate);
            pose proof (length_encodeSuite cs); simpl in Hf;
            rewrite !length_append in Hf; lia).
      cbn. reflexivity.
    - cbn. reflexivity. }
  rewrite F by lia. reflexivity.
Qed.

Lemma storeContact_jsonOfContact (c old : Contact) :
  storeContact (jsonOfContact c) old = Some c.
Proof. destruct c, old. reflexivity. Qed.

Lemma storeElements_jsonOfContact (cs slots : list Contact) :
  storeElements (map jsonOfContact cs) slots = Some cs.
Proof.
  revert slots. induction cs as [|c cs IH]; intros slots; [reflexivity|].
  cbn [map storeElements]. destruct slots as [|o sl];
    rewrite storeContact_jsonOfContact, IH; reflexivity.
Qed.

(** Decoding the value written for a directory into a fresh [Annuaire]
    gives the directory. *)
Lemma store_jsonOfContacts (s : slice Contact) (t : target) :
  visible t = Some [] -> behind t = [] ->
  option_map visible (storeContacts (jsonOfContacts s) t) = Some s.
Proof.
  intros Hv Hb. destruct s as [[|c cs]|]; try reflexivity.
  unfold jsonOfContacts, storeContacts. cbn [map].
  rewrite Hv, Hb. cbn [elems app].
  change (jsonOfContact c :: map jsonOfContact cs) with (map jsonOfContact (c :: cs)).
  rewrite storeElements_jsonOfContact. reflexivity.
Qed.

Lemma json_Unmarshal_jsonOfAnnuaire (data : string) (a : Annuaire) :
  parseDocument data = Some (jsonOfAnnuaire a) ->
  json_Unmarshal data {| Contacts := Some [] |} = Some a.
Proof.
  intros P. unfold json_Unmarshal. rewrite P. unfold jsonOfAnnuaire.
  cbn [storeAnnuaireMembers Contacts].
  change (equalFold "contacts" "contacts") with true. cbv iota.
  pose proof (store_jsonOfContacts (Contacts a) {| visible := Some []; behind := [] |}
                eq_refl eq_refl) as H.
  destruct (storeContacts (jsonOfContacts (Contacts a))
                          {| visible := Some []; behind := [] |}) as [t|];
    [|discriminate].
  simpl in H. injection H as H. rewrite H. destruct a. reflexivity.
Qed.

(** C8. When the snapshot file does not exist, [chargerAnnuaire] returns a
    directory with no contact and no error, whatever else holds of the file
    system. *)
Theorem C8_fichier_absent (l i : bool) :
  chargerAnnuaire {| contenu := None; lisible := l; inscriptible := i |}
  = (Some {| Contacts := Some [] |}, None)
  /\ elems (Contacts {| Contacts := Some [] |}) = [].
Proof. split; reflexivity. Qed.

(** C3 (amended). For a directory whose strings are all valid UTF-8, when
    the file can be written and read, [sauvegarderAnnuaire] succeeds and
    [chargerAnnuaire] on the file it leaves returns the same directory:
    the same contacts, in the same order, with the same fields, a nil slice
    remaining nil. *)
Theorem C3_aller_retour (a : Annuaire) (f : Fichier) :
  annuaireValide a = true ->
  inscriptible f = true ->
  (contenu f = None \/ lisible f = true) ->
  snd (sauvegarderAnnuaire a f) = None
  /\ chargerAnnuaire (fst (sauvegarderAnnuaire a f)) = (Some a, None).
Proof.
  intros V W R.
  destruct (parseDocument_MarshalIndent a V) as (data & M & P).
  unfold sauvegarderAnnuaire. rewrite M. unfold os_WriteFile. rewrite W.
  split; [reflexivity|].
  unfold chargerAnnuaire, os_Stat_IsNotExist, os_ReadFile. cbn [fst contenu lisible].
  replace (match contenu f with None => true | Some _ => lisible f end) with true
    by (destruct R as [-> | R]; [reflexivity | rewrite R; destruct (contenu f); reflexivity]).
  now rewrite (json_Unmarshal_jsonOfAnnuaire data a P).
Qed.

(** * The fuel of the loops

    The loops of the model that do not recurse on the structure of the
    string take a bound on their number of steps.  The bounds the model
    gives them are enough: a larger one changes no result. *)

Lemma length_drop (n : nat) (s : string) :
  String.length (drop n s) = String.length s - n.
Proof.
  revert s. induction n as [|n IH]; intros [|c r]; simpl; try lia. apply IH.
Qed.

(** The width [DecodeRune] returns for a string that is not empty is at
    least one byte. *)
Lemma DecodeRune_avance (c : ascii) (r : string) : 1 <= snd (DecodeRune (String c r)).
Proof.
  unfold DecodeRune.
  repeat match goal with
  | |- context [match ?x with _ => _ end] => destruct x; cbn [snd]
  end; lia.
Qed.

Lemma validLoop_fuel (f : nat) :
  forall f' s, String.length s <= f -> String.length s <= f' ->
               validLoop f s = validLoop f' s.
Proof.
  induction f as [|f IH]; intros f' s L L'.
  - destruct s; [destruct f'; reflexivity | simpl in L; lia].
  - destruct s as [|c r]; [destruct f'; reflexivity|].
    destruct f' as [|f']; [simpl in L'; lia|].
    rewrite !validLoop_S. pose proof (DecodeRune_avance c r) as A.
    destruct (DecodeRune (String c r)) as [rr size]. cbn [snd] in A.
    destruct ((rr =? RuneError)%N && (size =? 1)%nat); [reflexivity|].
    simpl in L, L'. apply IH; rewrite length_drop; cbn [String.length]; lia.
Qed.

Lemma appendStringLoop_fuel (f : nat) :
  forall f' s, String.length s <= f -> String.length s <= f' ->
               appendStringLoop f s = appendStringLoop f' s.
Proof.
  induction f as [|f IH]; intros f' s L L'.
  - destruct s; [destruct f'; reflexivity | simpl in L; lia].
  - destruct s as [|c r]; [destruct f'; reflexivity|].
    destruct f' as [|f']; [simpl in L'; lia|].
    rewrite !appendStringLoop_S. pose proof (DecodeRune_avance c r) as A.
    destruct (DecodeRune (String c r)) as [rr size]. cbn [snd] in A.
    simpl in L, L'.
    rewrite (IH f' r) by lia.
    rewrite (IH f' (drop size (String c r))) by (rewrite length_drop; cbn [String.length]; lia).
    reflexivity.
Qed.

Ltac longueur :=
  repeat rewrite length_drop; cbn [String.length] in *; lia.

Lemma unquoteLoop_fuel (f : nat) :
  forall f' s, String.length s <= f -> String.length s <= f' ->
               unquoteLoop f s = unquoteLoop f' s.
Proof.
  induction f as [|f IH]; intros f' s L L'.
  - destruct s; [destruct f'; reflexivity | simpl in L; lia].
  - destruct s as [|c r]; [destruct f'; reflexivity|].
    destruct f' as [|f']; [simpl in L'; lia|].
    pose proof (DecodeRune_avance c r) as A.
    cbn [unquoteLoop]. destruct (DecodeRune (String c r)) as [rr size]. cbn [snd] in A.
    destruct r as [|e r1].
    + rewrite (IH f' EmptyString) by longueur.
      rewrite (IH f' (drop size (String c EmptyString))) by longueur. reflexivity.
    + cbv zeta.
      repeat match goal with
      | |- context [unquoteLoop f ?X] =>
          rewrite (IH f' X) by longueur
      end.
      reflexivity.
Qed.

(** ** The fuel of the parser *)

Lemma length_skipSpace (s : string) : String.length (skipSpace s) <= String.length s.
Proof.
  induction s as [|c r IH]; simpl; [lia|]. destruct (isSpace c); simpl; lia.
Qed.

Lemma length_avec (p : string) (x : option (string * string)) (lit r : string) :
  avec p x = Some (lit, r) -> exists lit', x = Some (lit', r).
Proof. destruct x as [[l r']|]; simpl; [intros [= _ <-]; eauto | discriminate]. Qed.

Lemma length_scanString (n : nat) :
  forall s lit r, String.length s <= n -> scanString s = Some (lit, r) ->
                  String.length r < String.length s.
Proof.
  induction n as [|n IH]; intros s lit r L H.
  - destruct s; [discriminate | simpl in L; lia].
  - destruct s as [|c s1]; [discriminate|]. cbn [scanString] in H.
    destruct (c =? dquote)%char; [injection H as _ <-; simpl; lia|].
    destruct (c =? backslash)%char.
    + destruct s1 as [|e s2]; [discriminate|].
      destruct ((e =? "b") || (e =? "f") || (e =? "n") || (e =? "r") || (e =? "t")
                || (e =? backslash) || (e =? "/") || (e =? dquote))%char.
      * apply length_avec in H. destruct H as (l & H).
        apply IH in H; [|longueur]. longueur.
      * destruct (e =? "u")%char; [|discriminate].
        destruct s2 as [|h1 [|h2 [|h3 [|h4 s3]]]]; try discriminate.
        destruct (isHex h1 && isHex h2 && isHex h3 && isHex h4); [|discriminate].
        apply length_avec in H. destruct H as (l & H).
        apply IH in H; [|longueur]. longueur.
    + destruct (octet c <? 32)%N; [discriminate|].
      apply length_avec in H. destruct H as (l & H).
      apply IH in H; [|longueur]. longueur.
Qed.

Lemma length_parseString (s t r : string) :
  parseString s = Some (t, r) -> String.length r < String.length s.
Proof.
  unfold parseString. destruct (scanString s) as [[lit r']|] eqn:E; [|discriminate].
  destruct (unquote lit); [|discriminate]. intros [= _ <-].
  exact (length_scanString _ _ _ _ (le_n _) E).
Qed.

Lemma length_digits (s : string) : String.length (snd (digits s)) <= String.length s.
Proof.
  induction s as [|c r IH]; simpl; [lia|].
  destruct (isDigit c); [|simpl; lia].
  destruct (digits r) as [d r']. simpl in *. lia.
Qed.

Lemma length_scanNumber (s lit r : string) :
  scanNumber s = Some (lit, r) -> String.length r < String.length s.
Proof.
  unfold scanNumber. intros H.
  repeat (cbv beta iota zeta in H;
          match type of H with
          | context [digits ?x] =>
              pose proof (length_digits x); destruct (digits x) as [? ?]; cbn [snd] in *
          | context [if ?b then _ else _] => destruct b; try discriminate
          | context [match ?x with _ => _ end] => is_var x; destruct x; try discriminate
          end).
  all: cbv beta iota zeta in H; injection H as _ <-; cbn [String.length] in *; lia.
Qed.

Lemma length_apres (mot s r : string) :
  apres mot s = Some r -> String.length r + String.length mot = String.length s.
Proof.
  revert s. induction mot as [|a mot IH]; intros s; simpl.
  - intros [= <-]. lia.
  - destruct s as [|b s]; [discriminate|]. destruct (a =? b)%char; [|discriminate].
    intros H. apply IH in H. simpl. lia.
Qed.

(** Whatever the parser reads, it reads at least one byte of. *)
Lemma parse_consomme (f : nat) :
  (forall d s v r, parseValue f d s = Some (v, r) -> String.length r < String.length s)
  /\ (forall d s vs r, parseElements f d s = Some (vs, r) ->
                       String.length r < String.length s)
  /\ (forall d s m r, parseMembers f d s = Some (m, r) ->
                      String.length r < String.length s).
Proof.
  induction f as [|f (IHv & IHe & IHm)]; [repeat split; intros; discriminate|].
  repeat split; intros d s x r H;
  try (destruct s as [|c s0]; [discriminate|]);
  cbn [parseValue parseElements parseMembers] in H;
  repeat match type of H with
       | context [skipSpace ?y] =>
           pose proof (length_skipSpace y); destruct (skipSpace y) as [|? ?];
           try discriminate
       | context [if ?b then _ else _] => destruct b; try discriminate
       | context [parseMembers f ?d' ?y] =>
           let E := fresh "E" in
           destruct (parseMembers f d' y) as [[? ?]|] eqn:E; [apply IHm in E | discriminate]
       | context [parseElements f ?d' ?y] =>
           let E := fresh "E" in
           destruct (parseElements f d' y) as [[? ?]|] eqn:E; [apply IHe in E | discriminate]
       | context [parseValue f ?d' ?y] =>
           let E := fresh "E" in
           destruct (parseValue f d' y) as [[? ?]|] eqn:E; [apply IHv in E | discriminate]
       | context [parseString ?y] =>
           let E := fresh "E" in
           destruct (parseString y) as [[? ?]|] eqn:E;
           [apply length_parseString in E | discriminate]
       | context [scanNumber ?y] =>
           let E := fresh "E" in
           destruct (scanNumber y) as [[? ?]|] eqn:E;
           [apply length_scanNumber in E | discriminate]
       | context [apres ?w ?y] =>
           let E := fresh "E" in
           destruct (apres w y) as [?|] eqn:E; [apply length_apres in E | discriminate]
       end;
  injection H as _ <-; cbn [String.length] in *; lia.
Qed.

(** Past twice the length of the input, the result of the parser does not
    depend on the fuel: [None] is a syntax error, never a lack of fuel. *)
Lemma parse_fuel (f : nat) :
  forall f',
    (forall d s, 2 * String.length s < f -> 2 * String.length s < f' ->
                 parseValue f d s = parseValue f' d s)
    /\ (forall d s, 2 * String.length s + 1 < f -> 2 * String.length s + 1 < f' ->
                    parseElements f d s = parseElements f' d s)
    /\ (forall d s, 2 * String.length s + 1 < f -> 2 * String.length s + 1 < f' ->
                    parseMembers f d s = parseMembers f' d s).
Proof.
  induction f as [|f IH]; intros f'; [repeat split; intros; lia|].
  destruct f' as [|f']; [repeat split; intros; lia|].
  destruct (IH f') as (IHv & IHe & IHm).
  destruct (parse_consomme f') as (Cv & Ce & Cm).
  repeat split; intros d s L L';
  try (destruct s as [|c s0]; [reflexivity|]);
  cbn [parseValue parseElements parseMembers];
  repeat match goal with
       | |- ?x = ?x => reflexivity
       | |- context [parseMembers f ?d' ?y] =>
           rewrite (IHm d' y) by (cbn [String.length] in *; lia)
       | |- context [parseElements f ?d' ?y] =>
           rewrite (IHe d' y) by (cbn [String.length] in *; lia)
       | |- context [parseValue f ?d' ?y] =>
           rewrite (IHv d' y) by (cbn [String.length] in *; lia)
       | |- context [skipSpace ?y] =>
           pose proof (length_skipSpace y); destruct (skipSpace y) as [|? ?]
       | |- context [if ?b then _ else _] => destruct b
       | |- context [parseValue f' ?d' ?y] =>
           let E := fresh "E" in
           destruct (parseValue f' d' y) as [[? ?]|] eqn:E; [apply Cv in E|]
       | |- context [parseString ?y] =>
           let E := fresh "E" in
           destruct (parseString y) as [[? ?]|] eqn:E; [apply length_parseString in E|]
       end.
Qed.

(** The fuel [parseDocument] gives the parser is enough. *)
Lemma parseDocument_fuel (data : string) (f : nat) :
  2 * String.length data < f ->
  parseValue f 0 (skipSpace data)
  = parseValue (2 * String.length data + 1) 0 (skipSpace data).
Proof.
  intros L. pose proof (length_skipSpace data).
  apply (proj1 (parse_fuel f (2 * String.length data + 1))); lia.
Qed.

(** * Closed instances for the snapshot file *)

Lemma C3_aller_retour_witness :
  snd (sauvegarderAnnuaire {| Contacts := Some [dupont; martin; durand] |} fichierAbsent) = None
  /\ chargerAnnuaire
       (fst (sauvegarderAnnuaire {| Contacts := Some [dupont; martin; durand] |} fichierAbsent))
     = (Some {| Contacts := Some [dupont; martin; durand] |}, None).
Proof.
  apply (C3_aller_retour {| Contacts := Some [dupont; martin; durand] |} fichierAbsent).
  - reflexivity.
  - reflexivity.
  - left. reflexivity.
Defined.

(** C3 as stated fails: a Go string may hold bytes that are not valid
    UTF-8 (a name typed in ISO 8859-1), the encoder writes U+FFFD for each
    such byte, and the directory loaded differs from the one saved. *)
Lemma C3_counterexample :
  snd (sauvegarderAnnuaire
         {| Contacts := Some [{| Nom := "Dupont"; Prenom := andreLatin1; Tel := "0123456789" |}] |}
         fichierAbsent) = None
  /\ chargerAnnuaire
       (fst (sauvegarderAnnuaire
               {| Contacts := Some [{| Nom := "Dupont"; Prenom := andreLatin1;
                                       Tel := "0123456789" |}] |}
               fichierAbsent))
     = (Some {| Contacts := Some [{| Nom := "Dupont"; Prenom := andreRemplace;
                                     Tel := "0123456789" |}] |}, None)
  /\ andreRemplace <> andreLatin1.
Proof.
  split; [reflexivity|]. split; [vm_compute; reflexivity | discriminate].
Qed.

(** * Further properties of the directory operations *)

Section OperationsSuite.

Variable ToLower : string -> string.
Variable TrimSpace : string -> string.

Lemma premierIndice_decale (nomLower : string) (cs : list Contact) (i : nat) :
  premierIndice ToLower nomLower cs i
  = option_map (fun j => i + j) (premierIndice ToLower nomLower cs 0).
Proof.
  clear TrimSpace.
  revert i. induction cs as [|c cs IH]; intros i; simpl; [reflexivity|].
  destruct (ToLower (Nom c) =? nomLower)%string; simpl; [f_equal; lia|].
  rewrite (IH (S i)), (IH 1).
  destruct (premierIndice ToLower nomLower cs 0); simpl; [f_equal; lia | reflexivity].
Qed.

(** The contact a lookup points to is the first one that matches. *)
Lemma trouver_find (a : Annuaire) (nom : string) :
  trouver ToLower a nom
  = find (fun c => (ToLower (Nom c) =? ToLower nom)%string) (elems (Contacts a)).
Proof.
  unfold trouver, rechercherContact. cbv zeta.
  induction (elems (Contacts a)) as [|c cs IH]; simpl; [reflexivity|].
  destruct (ToLower (Nom c) =? ToLower nom)%string; [reflexivity|].
  rewrite premierIndice_decale.
  destruct (premierIndice ToLower (ToLower nom) cs 0); simpl; exact IH.
Qed.

(** X1. [rechercherContact] returns the index of the first contact whose
    name matches case-insensitively, and nil exactly when none matches. *)
Theorem X1_rechercher_premier (a : Annuaire) (nom : string) :
  (rechercherContact ToLower a nom = None <-> aucun ToLower nom (elems (Contacts a)))
  /\ (forall i,
         rechercherContact ToLower a nom = Some i <->
         exists l1 c l2,
           elems (Contacts a) = l1 ++ c :: l2 /\ i = length l1
           /\ aucun ToLower nom l1 /\ ToLower (Nom c) = ToLower nom).
Proof.
  unfold rechercherContact. cbv zeta. split; [apply premierIndice_None|].
  intros i. split.
  - intros H. destruct (premierIndice_Some _ _ _ _ _ H) as (l1 & c & l2 & E & Hi & Hl & Hc).
    exists l1, c, l2. repeat split; assumption.
  - intros (l1 & c & l2 & E & -> & Hl & Hc). rewrite E.
    now rewrite (premierIndice_premier ToLower nom l1 c l2 0 Hl Hc).
Qed.

(** The outcomes of [ajouterContact]. *)
Lemma ajouter_issues (a : Annuaire) (nom prenom tel : string) :
  (snd (ajouterContact ToLower TrimSpace a nom prenom tel) = None <->
   aucun ToLower nom (elems (Contacts a)) /\ nom <> "" /\ tel <> "")
  /\ (snd (ajouterContact ToLower TrimSpace a nom prenom tel) = None ->
      fst (ajouterContact ToLower TrimSpace a nom prenom tel)
      = {| Contacts := Some (elems (Contacts a)
                               ++ [{| Nom := TrimSpace nom; Prenom := TrimSpace prenom;
                                      Tel := TrimSpace tel |}]) |})
  /\ (forall e, snd (ajouterContact ToLower TrimSpace a nom prenom tel) = Some e ->
                (e = ErrExisteDeja nom /\ ~ aucun ToLower nom (elems (Contacts a)))
                \/ (kind e = ValidationError /\ aucun ToLower nom (elems (Contacts a))
                    /\ (nom = "" \/ tel = ""))).
Proof.
  unfold ajouterContact, rechercherContact. cbv zeta.
  destruct (premierIndice ToLower (ToLower nom) (elems (Contacts a)) 0) as [i|] eqn:P.
  - assert (N : ~ aucun ToLower nom (elems (Contacts a))).
    { intros H. apply premierIndice_None with (i := 0) in H. congruence. }
    simpl. repeat split; try discriminate.
    + intros (H & _). contradiction.
    + intros e [= <-]. left. split; [reflexivity | assumption].
  - apply premierIndice_None in P.
    destruct (String.eqb_spec nom "") as [->|Hn]; simpl.
    + repeat split; try discriminate.
      * intros (_ & H & _). congruence.
      * intros e [= <-]. right. auto.
    + destruct (String.eqb_spec tel "") as [->|Ht]; simpl.
      * repeat split; try discriminate.
        -- intros (_ & _ & H). congruence.
        -- intros e [= <-]. right. auto.
      * repeat split; try assumption; discriminate.
Qed.

(** X2. [ajouterContact] succeeds exactly when no contact matches the name
    and neither the name nor the phone number is the empty string; it then
    appends one contact, made of the three trimmed arguments, after the
    contacts already there, which it leaves as they are and in their order.
    It fails with the duplicate error when a contact matches, else with a
    validation error. *)
Theorem X2_ajouter_resultat (a : Annuaire) (nom prenom tel : string) :
  (snd (ajouterContact ToLower TrimSpace a nom prenom tel) = None <->
   aucun ToLower nom (elems (Contacts a)) /\ nom <> "" /\ tel <> "")
  /\ (snd (ajouterContact ToLower TrimSpace a nom prenom tel) = None ->
      fst (ajouterContact ToLower TrimSpace a nom prenom tel)
      = {| Contacts := Some (elems (Contacts a)
                               ++ [{| Nom := TrimSpace nom; Prenom := TrimSpace prenom;
                                      Tel := TrimSpace tel |}]) |})
  /\ (forall e, snd (ajouterContact ToLower TrimSpace a nom prenom tel) = Some e ->
                (e = ErrExisteDeja nom /\ ~ aucun ToLower nom (elems (Contacts a)))
                \/ (kind e = ValidationError /\ aucun ToLower nom (elems (Contacts a))
                    /\ (nom = "" \/ tel = ""))).
Proof. apply ajouter_issues. Qed.

(** X3. After a successful [ajouterContact] a lookup of the trimmed name
    finds a contact; when trimming does not change the lower-case image of
    the name, a lookup of the name as given finds the contact added, at the
    last index. *)
Theorem X3_ajouter_puis_rechercher (a : Annuaire) (nom prenom tel : string) :
  snd (ajouterContact ToLower TrimSpace a nom prenom tel) = None ->
  let a' := fst (ajouterContact ToLower TrimSpace a nom prenom tel) in
  rechercherContact ToLower a' (TrimSpace nom) <> None
  /\ (ToLower (TrimSpace nom) = ToLower nom ->
      rechercherContact ToLower a' nom = Some (length (elems (Contacts a)))
      /\ trouver ToLower a' nom
         = Some {| Nom := TrimSpace nom; Prenom := TrimSpace prenom; Tel := TrimSpace tel |}).
Proof.
  intros H a'. destruct (ajouter_issues a nom prenom tel) as (S1 & S2 & _).
  pose proof (S2 H) as E. destruct (proj1 S1 H) as (Hl & _). subst a'. rewrite E.
  set (c := {| Nom := TrimSpace nom; Prenom := TrimSpace prenom; Tel := TrimSpace tel |}).
  split.
  - intros N. apply premierIndice_None in N. unfold aucun in N. simpl in N.
    rewrite Forall_app in N. destruct N as [_ N]. inversion N as [|? ? Hc _]; subst.
    now apply Hc.
  - intros T.
    assert (R : rechercherContact ToLower {| Contacts := Some (elems (Contacts a) ++ [c]) |} nom
                = Some (length (elems (Contacts a)))).
    { unfold rechercherContact. cbv zeta. simpl.
      now rewrite (premierIndice_premier ToLower nom _ c [] 0 Hl T). }
    split; [exact R|]. unfold trouver. rewrite R. simpl.
    rewrite nth_error_app2, Nat.sub_diag by lia. reflexivity.
Qed.

(** X4. Removing a name just added gives back the contacts there were
    before: when [ajouterContact] succeeds and trimming does not change the
    lower-case image of the name, [supprimerContact] of the same name then
    succeeds and leaves exactly the former contacts. *)
Theorem X4_ajouter_puis_supprimer (a : Annuaire) (nom prenom tel : string) :
  snd (ajouterContact ToLower TrimSpace a nom prenom tel) = None ->
  ToLower (TrimSpace nom) = ToLower nom ->
  supprimerContact ToLower (fst (ajouterContact ToLower TrimSpace a nom prenom tel)) nom
  = ({| Contacts := Some (elems (Contacts a)) |}, None).
Proof.
  intros H T. destruct (ajouter_issues a nom prenom tel) as (S1 & S2 & _).
  rewrite (S2 H). destruct (proj1 S1 H) as (Hl & _).
  unfold supprimerContact. cbv zeta. cbn [elems Contacts].
  rewrite (premierIndice_premier ToLower nom _
             {| Nom := TrimSpace nom; Prenom := TrimSpace prenom; Tel := TrimSpace tel |}
             [] 0 Hl T), Nat.add_0_l. cbv iota.
  now rewrite retirer_milieu, app_nil_r.
Qed.

(** X5. In a directory where names are unique, a name that
    [supprimerContact] has removed is no longer found, and the directory
    has one contact less. *)
Theorem X5_supprimer_puis_rechercher (a : Annuaire) (nom : string) :
  nomsUniques ToLower a ->
  snd (supprimerContact ToLower a nom) = None ->
  rechercherContact ToLower (fst (supprimerContact ToLower a nom)) nom = None
  /\ S (length (elems (Contacts (fst (supprimerContact ToLower a nom)))))
     = length (elems (Contacts a)).
Proof.
  clear TrimSpace.
  unfold nomsUniques, supprimerContact, rechercherContact. cbv zeta. intros U.
  destruct (premierIndice ToLower (ToLower nom) (elems (Contacts a)) 0) as [i|] eqn:P;
    [|discriminate].
  intros _. destruct (premierIndice_Some _ _ _ _ _ P) as (l1 & c & l2 & E & -> & Hl & Hc).
  rewrite E in *. rewrite Nat.add_0_l, retirer_milieu. cbn [fst elems Contacts]. split.
  - apply premierIndice_None. unfold aucun in *. rewrite Forall_app. split; [assumption|].
    rewrite map_app in U. simpl in U. apply NoDup_remove_2 in U.
    rewrite Forall_forall. intros x Hx Ex. apply U. apply in_or_app. right.
    apply in_map_iff. exists x. split; [congruence | assumption].
  - rewrite !length_app. simpl. lia.
Qed.

Lemma find_sans (p : Contact -> bool) (l1 : list Contact) (c : Contact) (l2 : list Contact) :
  p c = false -> find p (l1 ++ c :: l2) = find p (l1 ++ l2).
Proof.
  intros H. induction l1 as [|x l1 IH]; simpl; [now rewrite H|].
  destruct (p x); [reflexivity | assumption].
Qed.

(** X6. [supprimerContact] does not disturb the other names: whether it
    succeeds or fails, a lookup of a name that differs from the one given,
    case apart, points to the same contact before and after. *)
Theorem X6_supprimer_autres_noms (a : Annuaire) (nom q : string) :
  ToLower q <> ToLower nom ->
  trouver ToLower (fst (supprimerContact ToLower a nom)) q = trouver ToLower a q.
Proof.
  intros D. rewrite !trouver_find. unfold supprimerContact. cbv zeta.
  destruct (premierIndice ToLower (ToLower nom) (elems (Contacts a)) 0) as [i|] eqn:P;
    [|reflexivity].
  destruct (premierIndice_Some _ _ _ _ _ P) as (l1 & c & l2 & E & -> & Hl & Hc).
  rewrite E, Nat.add_0_l, retirer_milieu. cbn [fst elems Contacts].
  symmetry. apply find_sans. apply String.eqb_neq. congruence.
Qed.

Lemma premierIndice_noms (x : string) (cs cs' : list Contact) (i : nat) :
  map (fun c => ToLower (Nom c)) cs = map (fun c => ToLower (Nom c)) cs' ->
  premierIndice ToLower x cs i = premierIndice ToLower x cs' i.
Proof.
  revert cs' i. induction cs as [|c cs IH]; intros [|c' cs'] i; simpl; try discriminate.
  - reflexivity.
  - intros [= E1 E2]. rewrite E1. destruct (ToLower (Nom c') =? x)%string; auto.
Qed.

Lemma length_ecrire (i : nat) (f : Contact -> Contact) (cs : list Contact) :
  length (ecrire i f cs) = length cs.
Proof.
  revert i. induction cs as [|c cs IH]; intros [|i]; simpl; auto.
Qed.

Lemma modifier_recherches (a : Annuaire) (nom np nt q : string) :
  rechercherContact ToLower (fst (modifierContact ToLower TrimSpace a nom np nt)) q
  = rechercherContact ToLower a q.
Proof.
  unfold modifierContact.
  destruct (rechercherContact ToLower a nom) as [i|]; [|reflexivity].
  cbn [fst]. unfold rechercherContact. cbv zeta. cbn [elems Contacts].
  apply premierIndice_noms, noms_ecrire. intros c. apply Nom_modifierChamps.
Qed.

(** X7. [modifierContact] changes no name and no position: whether it
    succeeds or fails, every lookup returns the same index before and
    after, and the number of contacts is the same. *)
Theorem X7_modifier_garde_recherches (a : Annuaire) (nom np nt q : string) :
  rechercherContact ToLower (fst (modifierContact ToLower TrimSpace a nom np nt)) q
  = rechercherContact ToLower a q
  /\ length (elems (Contacts (fst (modifierContact ToLower TrimSpace a nom np nt))))
     = length (elems (Contacts a)).
Proof.
  split; [apply modifier_recherches|]. unfold modifierContact.
  destruct (rechercherContact ToLower a nom) as [i|]; [|reflexivity].
  apply length_ecrire.
Qed.

Lemma ecrire_ecrire (i : nat) (f : Contact -> Contact) (cs : list Contact) :
  (forall c, f (f c) = f c) -> ecrire i f (ecrire i f cs) = ecrire i f cs.
Proof.
  intros Hf. revert i. induction cs as [|c cs IH]; intros [|i]; simpl;
    rewrite ?Hf, ?IH; reflexivity.
Qed.

Lemma modifierChamps_idempotent (np nt : string) (c : Contact) :
  modifierChamps TrimSpace np nt (modifierChamps TrimSpace np nt c)
  = modifierChamps TrimSpace np nt c.
Proof.
  unfold modifierChamps. destruct (np =? "")%string, (nt =? "")%string; reflexivity.
Qed.

(** X8. [modifierContact] is idempotent: after a successful update, the
    same update again succeeds and changes nothing. *)
Theorem X8_modifier_idempotent (a : Annuaire) (nom np nt : string) :
  snd (modifierContact ToLower TrimSpace a nom np nt) = None ->
  modifierContact ToLower TrimSpace
    (fst (modifierContact ToLower TrimSpace a nom np nt)) nom np nt
  = modifierContact ToLower TrimSpace a nom np nt.
Proof.
  intros H.
  pose proof (modifier_recherches a nom np nt nom) as R.
  unfold modifierContact in H, R |- *.
  destruct (rechercherContact ToLower a nom) as [i|] eqn:F; [|discriminate].
  cbn [fst] in *. rewrite R. cbn [elems Contacts].
  now rewrite ecrire_ecrire by apply modifierChamps_idempotent.
Qed.

(** X9. Names stay unique at every point of a sequence of operations in
    which trimming changes the lower-case image of no name added: starting
    from a directory without two equal names, the directory reached after
    any number of the operations has none. *)
Theorem X9_unicite_a_chaque_etape (a : Annuaire) (ops : list Operation) (n : nat) :
  Forall (fun op => match op with
                    | Ajouter nom _ _ => ToLower (TrimSpace nom) = ToLower nom
                    | _ => True
                    end) ops ->
  nomsUniques ToLower a ->
  nomsUniques ToLower (executer ToLower TrimSpace a (firstn n ops)).
Proof.
  intros Hops Ha. apply nomsUniques_executer; [|assumption].
  rewrite Forall_forall in *. intros op Hin. apply Hops.
  rewrite <- (firstn_skipn n ops). apply in_or_app. now left.
Qed.

End OperationsSuite.

(** * Further properties of the snapshot file *)

Lemma coerceLoop_S (f : nat) (c : ascii) (reste : string) :
  coerceLoop (S f) (String c reste)
  = let (r, size) := DecodeRune (String c reste) in
    if (r =? RuneError)%N && (size =? 1)%nat
    then (EncodeRune RuneError ++ coerceLoop f reste)%string
    else (take size (String c reste) ++ coerceLoop f (drop size (String c reste)))%string.
Proof. reflexivity. Qed.

(** The literal [appendString] writes for any string is scanned up to its
    closing quote and unquoted to the string with its invalid bytes
    replaced. *)
Lemma litteral_general (n : nat) :
  forall s, String.length s <= n ->
    (forall reste,
        scanString (appendStringLoop n s ++ String dquote reste)
        = Some (appendStringLoop n s, reste))
    /\ (forall m, String.length (appendStringLoop n s) <= m ->
                  unquoteLoop m (appendStringLoop n s) = Some (coerceLoop n s)).
Proof.
  induction n as [|n IH]; intros s L.
  - destruct s; [|simpl in L; lia]. split; [reflexivity | intros [|m] _; reflexivity].
  - destruct s as [|c r]; [split; [reflexivity | intros [|m] _; reflexivity]|].
    rewrite appendStringLoop_S, coerceLoop_S.
    destruct (N.ltb_spec (octet c) 0x80) as [A|A].
    + rewrite (DecodeRune_ascii c r A).
      replace ((octet c =? RuneError)%N) with false
        by (symmetry; apply N.eqb_neq; unfold RuneError; lia).
      cbn [andb drop take append]. simpl in L.
      destruct (IH r ltac:(lia)) as [IHa IHb]. split.
      * intros reste. rewrite append_assoc, (scanString_ascii c _ A), IHa. reflexivity.
      * intros m Lm. rewrite length_append in Lm. pose proof (length_encAscii c).
        destruct m as [|m]; [lia|].
        rewrite (unquoteLoop_ascii c m _ A), IHb by lia. reflexivity.
    + destruct (DecodeRune (String c r)) as [rr size] eqn:D.
      destruct ((rr =? RuneError)%N && (size =? 1)%nat) eqn:Err.
      * simpl in L. destruct (IH r ltac:(lia)) as [IHa IHb]. split.
        -- intros t. rewrite append_assoc. cbn. rewrite IHa. reflexivity.
        -- intros m Lm. rewrite length_append in Lm.
           destruct m as [|m]; [simpl in Lm; lia|].
           cbn. cbn in Lm. rewrite IHb by lia. reflexivity.
      * destruct (DecodeRune_multi c r rr size D A Err)
          as (chunk & reste & Es & Lc & L1 & Enc & Hh & Dt).
        subst size. rewrite Es in L |- *. rewrite drop_append.
        rewrite ?take_append. rewrite length_append in L.
        destruct (IH reste ltac:(lia)) as [IHa IHb].
        destruct ((rr =? 0x2028) || (rr =? 0x2029))%N eqn:Sep.
        -- assert (Hr : rr = 0x2028%N \/ rr = 0x2029%N).
           { apply orb_prop in Sep. destruct Sep as [Sep|Sep]; apply N.eqb_eq in Sep; auto. }
           split.
           ++ intros t. rewrite append_assoc.
              destruct Hr as [-> | ->];
                cbn [N.land hex String.get N.to_nat Pos.to_nat Pos.iter_op Nat.add];
                cbn; rewrite IHa; reflexivity.
           ++ intros m Lm. rewrite length_append in Lm.
              destruct m as [|m]; [simpl in Lm; lia|].
              rewrite <- Enc.
              destruct Hr as [-> | ->]; cbn; cbn in Lm; rewrite IHb by lia; reflexivity.
        -- split.
           ++ intros t. rewrite append_assoc, (scanString_hauts _ _ Hh), IHa. reflexivity.
           ++ intros m Lm. rewrite length_append in Lm. destruct m as [|m]; [lia|].
              rewrite (unquoteLoop_multi chunk _ rr m) by auto.
              rewrite IHb by lia. reflexivity.
Qed.

Lemma parseValue_chaine_general (f : nat) (d : N) (s reste : string) :
  parseValue (S f) d (appendString s ++ reste) = Some (JString (coerceUTF8 s), reste).
Proof.
  rewrite appendString_append. cbn [parseValue].
  change ((dquote =? "{")%char) with false. change ((dquote =? "[")%char) with false.
  change ((dquote =? dquote)%char) with true. cbv iota.
  destruct (litteral_general (String.length s) s (le_n _)) as [A B].
  unfold parseString, unquote. rewrite A, B by apply le_n. reflexivity.
Qed.

Lemma parseValue_contact_general (f : nat) (d : N) (c : Contact) (reste : string) :
  (d + 1 <= maxNestingDepth)%N ->
  parseValue (S (S (S (S (S f))))) d (encodeContact c ++ reste)
  = Some (jsonOfContact (coerceContact c), reste).
Proof.
  intros Hd.
  rewrite encodeContact_append, quoted_append, (parseValue_objet _ _ _ _ Hd).
  rewrite <- quoted_append.
  rewrite (parseMembers_S _ _ _ _ nomSimple_nom), skipSpace_appendString.
  rewrite parseValue_chaine_general, skipSpace_virgule.
  rewrite quoted_append, skipSpace_appendNewline by reflexivity. rewrite <- quoted_append.
  rewrite (parseMembers_S _ _ _ _ nomSimple_prenom), skipSpace_appendString.
  rewrite parseValue_chaine_general, skipSpace_virgule.
  rewrite quoted_append, skipSpace_appendNewline by reflexivity. rewrite <- quoted_append.
  rewrite (parseMembers_S _ _ _ _ nomSimple_tel), skipSpace_appendString.
  rewrite parseValue_chaine_general.
  rewrite skipSpace_appendNewline by reflexivity. reflexivity.
Qed.

Lemma parseElements_contacts_general (cs : list Contact) :
  forall (c : Contact) (f : nat) (d : N) (reste : string),
    6 + length cs <= f ->
    (d + 1 <= maxNestingDepth)%N ->
    parseElements f d (encodeContact c ++ encodeSuite cs
                         ++ appendNewline 1 ++ String "]" reste)
    = Some (map jsonOfContact (map coerceContact (c :: cs)), reste).
Proof.
  induction cs as [|c' cs IH]; intros c f d reste Hf Hd.
  - destruct f as [|f]; [simpl in Hf; lia|]. simpl in Hf.
    replace f with (S (S (S (S (S (f - 5)))))) by lia.
    rewrite parseElements_S, (parseValue_contact_general _ _ _ _ Hd).
    cbn [encodeSuite append]. rewrite skipSpace_appendNewline by reflexivity. reflexivity.
  - destruct f as [|f]; [simpl in Hf; lia|]. simpl in Hf.
    rewrite parseElements_S.
    replace (parseValue f d) with (parseValue (S (S (S (S (S (f - 5)))))) d)
      by (f_equal; lia).
    rewrite (parseValue_contact_general _ _ _ _ Hd).
    cbn [encodeSuite]. rewrite !append_assoc.
    change (("," ++ ?x)%string) with (String "," x).
    rewrite skipSpace_virgule, skipSpace_contact.
    rewrite (IH c' f d reste) by (simpl; auto; lia). reflexivity.
Qed.

Lemma parseDocument_MarshalIndent_general (a : Annuaire) :
  exists data, json_MarshalIndent a = Some data
               /\ parseDocument data = Some (jsonOfAnnuaire (coerceAnnuaire a)).
Proof.
  unfold json_MarshalIndent. eexists. split; [reflexivity|].
  set (data := ("{" ++ appendNewline 1 ++ quoted "contacts" ++ ": "
                    ++ encodeContacts (Contacts a) ++ appendNewline 0 ++ "}")%string).
  unfold parseDocument.
  assert (L : 18 + String.length (encodeContacts (Contacts a)) = String.length data).
  { unfold data. rewrite !length_append. simpl. lia. }
  assert (F : forall f, 9 + String.length (encodeContacts (Contacts a)) <= f ->
              parseValue f 0 (skipSpace data)
              = Some (jsonOfAnnuaire (coerceAnnuaire a), EmptyString)).
  { intros f Hf. unfold data.
    change (skipSpace ("{" ++ ?x)) with (String "{" x).
    do 3 (destruct f as [|f]; [simpl in Hf; lia|]).
    rewrite quoted_append, parseValue_objet by (vm_compute; discriminate).
    rewrite <- quoted_append.
    change ((": " ++ ?x)%string) with (String ":" (String " " x)).
    rewrite (parseMembers_S _ _ _ _ nomSimple_contacts).
    unfold jsonOfAnnuaire, coerceAnnuaire in *.
    destruct (Contacts a) as [[|c cs]|]; cbn [encodeContacts elems Contacts option_map] in *.
    - cbn. reflexivity.
    - rewrite !append_assoc.
      change (("[" ++ ?x)%string) with (String "[" x).
      change (skipSpace (String "[" ?x)) with (String "[" x).
      rewrite encodeContact_append.
      cbn [parseValue]. change (("[" =? "{")%char) with false.
      change (("[" =? "[")%char) with true. cbv iota.
      change (maxNestingDepth <? 0 + 1 + 1)%N with false. cbv iota.
      rewrite skipSpace_appendNewline by reflexivity.
      rewrite <- encodeContact_append.
      change (("]" ++ ?x)%string) with (String "]" x).
      rewrite (parseElements_contacts_general cs c f (0 + 1 + 1)%N)
        by (try (vm_compute; discriminate);
            pose proof (length_encodeSuite cs); simpl in Hf;
            rewrite !length_append in Hf; lia).
      cbn. reflexivity.
    - cbn. reflexivity. }
  rewrite F by lia. reflexivity.
Qed.

(** X10. Saving and loading never fails on the encoding: for any directory,
    whatever bytes its strings hold, when the file can be written and read,
    [sauvegarderAnnuaire] succeeds and [chargerAnnuaire] then returns the
    same contacts in the same order, each string with its bytes that are
    not valid UTF-8 replaced by U+FFFD and the others kept. *)
Theorem X10_sauvegarder_puis_charger (a : Annuaire) (f : Fichier) :
  inscriptible f = true ->
  (contenu f = None \/ lisible f = true) ->
  snd (sauvegarderAnnuaire a f) = None
  /\ chargerAnnuaire (fst (sauvegarderAnnuaire a f)) = (Some (coerceAnnuaire a), None).
Proof.
  intros W R.
  destruct (parseDocument_MarshalIndent_general a) as (data & M & P).
  unfold sauvegarderAnnuaire. rewrite M. unfold os_WriteFile. rewrite W.
  split; [reflexivity|].
  unfold chargerAnnuaire, os_Stat_IsNotExist, os_ReadFile. cbn [fst contenu lisible].
  replace (match contenu f with None => true | Some _ => lisible f end) with true
    by (destruct R as [-> | R]; [reflexivity | rewrite R; destruct (contenu f); reflexivity]).
  now rewrite (json_Unmarshal_jsonOfAnnuaire data (coerceAnnuaire a) P).
Qed.

(** ** What is read from a file is valid UTF-8 *)

Lemma first_deux (p : N) : (0xC2 <= p <= 0xDF)%N -> first p = SZ 2 0x80 0xBF.
Proof.
  intros H. unfold first.
  repeat match goal with
  | |- context [(?a <? ?b)%N] => destruct (N.ltb_spec a b); try lia
  | |- context [(?a =? ?b)%N] => destruct (N.eqb_spec a b); try lia
  end; reflexivity.
Qed.

Lemma first_trois (p : N) :
  (0xE0 <= p <= 0xEF)%N ->
  first p = SZ 3 (if (p =? 0xE0)%N then 0xA0%N else 0x80%N)
                 (if (p =? 0xED)%N then 0x9F%N else 0xBF%N).
Proof.
  intros H. unfold first.
  repeat match goal with
  | |- context [(?a <? ?b)%N] => destruct (N.ltb_spec a b); try lia
  | |- context [(?a =? ?b)%N] => destruct (N.eqb_spec a b); try lia
  end; reflexivity.
Qed.

Lemma first_quatre (p : N) :
  (0xF0 <= p <= 0xF4)%N ->
  first p = SZ 4 (if (p =? 0xF0)%N then 0x90%N else 0x80%N)
                 (if (p =? 0xF4)%N then 0x8F%N else 0xBF%N).
Proof.
  intros H. unfold first.
  repeat match goal with
  | |- context [(?a <? ?b)%N] => destruct (N.ltb_spec a b); try lia
  | |- context [(?a =? ?b)%N] => destruct (N.eqb_spec a b); try lia
  end; reflexivity.
Qed.

Lemma octet_ascii_of_N (n : N) : (n < 256)%N -> octet (ascii_of_N n) = n.
Proof. apply N_ascii_embedding. Qed.

Lemma horsDe_dedans (lo hi b : N) : (lo <= b <= hi)%N -> horsDe lo hi b = false.
Proof.
  intros H. unfold horsDe.
  destruct (N.ltb_spec b lo), (N.ltb_spec hi b); first [lia | reflexivity].
Qed.

(** The bytes [EncodeRune] writes are a valid sequence, whatever the rune. *)
Lemma EncodeRune_commence (x : N) (t : string) :
  commence (String.length (EncodeRune x)) (EncodeRune x ++ t).
Proof.
  assert (FFFD : commence (String.length (EncodeRune RuneError)) (EncodeRune RuneError ++ t)).
  { split; [simpl; lia|]. eexists. split; reflexivity. }
  destruct (N.le_gt_cases x 0x7F) as [H1|H1].
  { unfold EncodeRune. replace (x <=? 0x7F)%N with true by (symmetry; apply N.leb_le; lia).
    unfold byte_of. champs.
    split; [simpl; lia|]. exists x. cbn [append String.length].
    assert (O : octet (ascii_of_N (x mod 256)) = x) by (rewrite octet_ascii_of_N; lia).
    rewrite DecodeRune_ascii by (rewrite O; lia). rewrite O. split; [reflexivity|].
    replace (x =? RuneError)%N with false
      by (symmetry; apply N.eqb_neq; unfold RuneError; lia). reflexivity. }
  destruct (N.le_gt_cases x 0x7FF) as [H2|H2].
  { rewrite EncodeRune_2 by lia. split; [simpl; lia|]. eexists.
    cbn [append String.length]. unfold DecodeRune.
    rewrite !octet_ascii_of_N by lia.
    rewrite first_deux by lia. rewrite horsDe_dedans by lia. cbn [Nat.leb].
    split; [reflexivity|]. apply andb_false_r. }
  destruct (N.le_gt_cases x 0xFFFF) as [H3|H3].
  { destruct (N.lt_ge_cases x 0xD800) as [S1|S1]; [|destruct (N.lt_ge_cases 0xDFFF x) as [S2|S2]].
    3: { unfold EncodeRune, MaxRune in *.
         replace (x <=? 127)%N with false by (symmetry; apply N.leb_gt; lia).
         replace (x <=? 2047)%N with false by (symmetry; apply N.leb_gt; lia).
         replace ((55296 <=? x) && (x <=? 57343))%N with true
           by (symmetry; apply andb_true_intro; split; apply N.leb_le; lia).
         rewrite orb_true_r. exact FFFD. }
    all: rewrite EncodeRune_3 by lia; split; [simpl; lia|]; eexists;
      cbn [append String.length]; unfold DecodeRune;
      rewrite !octet_ascii_of_N by lia;
      rewrite first_trois by lia;
      rewrite horsDe_dedans
        by (destruct (N.eqb_spec (224 + x / 4096) 224), (N.eqb_spec (224 + x / 4096) 237);
            lia);
      cbn [Nat.leb]; rewrite horsDe_dedans by lia;
      (split; [reflexivity | apply andb_false_r]). }
  destruct (N.le_gt_cases x 0x10FFFF) as [H4|H4].
  { rewrite EncodeRune_4 by lia. split; [simpl; lia|]. eexists.
    cbn [append String.length]. unfold DecodeRune.
    rewrite !octet_ascii_of_N by lia.
    rewrite first_quatre by lia.
    rewrite horsDe_dedans
      by (destruct (N.eqb_spec (240 + x / 262144) 240), (N.eqb_spec (240 + x / 262144) 244);
          lia).
    cbn [Nat.leb]. rewrite !horsDe_dedans by lia.
    split; [reflexivity | apply andb_false_r]. }
  unfold EncodeRune, MaxRune in *.
  replace (x <=? 127)%N with false by (symmetry; apply N.leb_gt; lia).
  replace (x <=? 2047)%N with false by (symmetry; apply N.leb_gt; lia).
  replace (1114111 <? x)%N with true by (symmetry; apply N.ltb_lt; lia).
  exact FFFD.
Qed.

Lemma ValidString_commence (chunk t : string) :
  commence (String.length chunk) (chunk ++ t) ->
  ValidString (chunk ++ t) = ValidString t.
Proof.
  intros (L & r & D & E). unfold ValidString.
  destruct chunk as [|c chunk]; [simpl in L; lia|].
  change ((String c chunk ++ t)%string) with (String c (chunk ++ t)) in *.
  cbn [String.length]. rewrite validLoop_S, D, E.
  change (String c (chunk ++ t)) with ((String c chunk ++ t)%string).
  rewrite drop_append. apply validLoop_fuel; rewrite ?length_append; lia.
Qed.

Lemma ValidString_EncodeRune (x : N) (t : string) :
  ValidString (EncodeRune x ++ t) = ValidString t.
Proof. apply ValidString_commence, EncodeRune_commence. Qed.

Lemma ValidString_ascii (c : ascii) (t : string) :
  (octet c < 0x80)%N -> ValidString (String c t) = ValidString t.
Proof.
  intros A. apply (ValidString_commence (String c EmptyString) t).
  split; [simpl; lia|]. exists (octet c). cbn [append String.length].
  rewrite DecodeRune_ascii by assumption. split; [reflexivity|].
  replace (octet c =? RuneError)%N with false
    by (symmetry; apply N.eqb_neq; unfold RuneError; lia). reflexivity.
Qed.

(** Whatever [unquoteBytes] returns is valid UTF-8. *)
Lemma unquoteLoop_valide (f : nat) :
  forall s out, unquoteLoop f s = Some out -> ValidString out = true.
Proof.
  induction f as [|f IH]; intros s out H.
  - destruct s; [injection H as <-; reflexivity | discriminate].
  - destruct s as [|c r]; [injection H as <-; reflexivity|].
    cbn [unquoteLoop] in H.
    assert (M1 : forall x z o, (octet x < 0x80)%N ->
                   option_map (String x) (unquoteLoop f z) = Some o -> ValidString o = true).
    { intros x z o Hx Ho. destruct (unquoteLoop f z) as [o'|] eqn:E; [|discriminate].
      injection Ho as <-. rewrite ValidString_ascii by assumption. eapply IH, E. }
    assert (M2 : forall x z o,
                   option_map (append (EncodeRune x)) (unquoteLoop f z) = Some o ->
                   ValidString o = true).
    { intros x z o Ho. destruct (unquoteLoop f z) as [o'|] eqn:E; [|discriminate].
      injection Ho as <-. rewrite ValidString_EncodeRune. eapply IH, E. }
    destruct (c =? backslash)%char.
    + destruct r as [|e r1]; [discriminate|]. cbv zeta in H.
      destruct ((e =? dquote) || (e =? backslash) || (e =? "/") || (e =? "'"))%char eqn:T.
      { apply (M1 _ _ _) in H; [assumption|].
        repeat (apply orb_prop in T; destruct T as [T|T]);
          apply Ascii.eqb_eq in T; subst e; vm_compute; reflexivity. }
      repeat match type of H with
      | (if ?b then _ else _) = _ =>
          destruct b; [first [apply M1 in H; [assumption | vm_compute; reflexivity] | idtac]|]
      end; try discriminate.
      repeat match type of H with
      | match ?x with _ => _ end = _ => destruct x; try discriminate
      | (if ?b then _ else _) = _ => destruct b
      end; eapply M2, H.
    + destruct ((c =? dquote)%char || (octet c <? 32)%N); [discriminate|].
      destruct (N.ltb_spec (octet c) 128) as [A|A].
      * eapply M1; eassumption.
      * destruct (DecodeRune (String c r)) as [rr size]. eapply M2, H.
Qed.

Lemma parseString_valide (s t r : string) :
  parseString s = Some (t, r) -> ValidString t = true.
Proof.
  unfold parseString, unquote. destruct (scanString s) as [[lit r']|]; [|discriminate].
  destruct (unquoteLoop (String.length lit) lit) as [o|] eqn:E; [|discriminate].
  intros [= <- _]. eapply unquoteLoop_valide, E.
Qed.

(** Every string of a value the parser returns is valid UTF-8. *)
Lemma parse_valide (f : nat) :
  (forall d s v r, parseValue f d s = Some (v, r) -> jsonValide v = true)
  /\ (forall d s vs r, parseElements f d s = Some (vs, r) -> forallb jsonValide vs = true)
  /\ (forall d s m r, parseMembers f d s = Some (m, r) ->
                      forallb (fun kv => jsonValide (snd kv)) m = true).
Proof.
  induction f as [|f (IHv & IHe & IHm)]; [repeat split; intros; discriminate|].
  repeat split; intros d s x r H;
  try (destruct s as [|c s0]; [discriminate|]);
  cbn [parseValue parseElements parseMembers] in H;
  repeat match type of H with
  | context [skipSpace ?y] => destruct (skipSpace y) as [|? ?]; try discriminate
  | context [if ?b then _ else _] => destruct b; try discriminate
  | context [parseMembers f ?d' ?y] =>
      let E := fresh "E" in
      destruct (parseMembers f d' y) as [[? ?]|] eqn:E; [apply IHm in E | discriminate]
  | context [parseElements f ?d' ?y] =>
      let E := fresh "E" in
      destruct (parseElements f d' y) as [[? ?]|] eqn:E; [apply IHe in E | discriminate]
  | context [parseValue f ?d' ?y] =>
      let E := fresh "E" in
      destruct (parseValue f d' y) as [[? ?]|] eqn:E; [apply IHv in E | discriminate]
  | context [parseString ?y] =>
      let E := fresh "E" in
      destruct (parseString y) as [[? ?]|] eqn:E;
      [apply parseString_valide in E | discriminate]
  | context [scanNumber ?y] => destruct (scanNumber y) as [[? ?]|]; try discriminate
  | context [apres ?w ?y] => destruct (apres w y) as [?|]; try discriminate
  end;
  injection H as <- _; cbn [jsonValide forallb snd]; rewrite ?andb_true_r;
  try reflexivity; try assumption; apply andb_true_intro; split; assumption.
Qed.

Lemma parseDocument_valide (data : string) (v : json) :
  parseDocument data = Some v -> jsonValide v = true.
Proof.
  unfold parseDocument.
  destruct (parseValue (2 * String.length data + 1) 0 (skipSpace data)) as [[v' r]|] eqn:E;
    [|discriminate].
  destruct (skipSpace r); [|discriminate]. intros [= <-].
  eapply (proj1 (parse_valide _)), E.
Qed.

Lemma storeContactMembers_valide (m : list (string * json)) :
  forall c c', forallb (fun kv => jsonValide (snd kv)) m = true ->
               contactValide c = true ->
               storeContactMembers m c = Some c' -> contactValide c' = true.
Proof.
  induction m as [|[key v] m IH]; intros c c' Hm Hc H; simpl in H.
  - now injection H as <-.
  - simpl in Hm. apply andb_prop in Hm. destruct Hm as [Hv Hm].
    unfold contactValide in Hc. apply andb_prop in Hc. destruct Hc as [Hc Ht].
    apply andb_prop in Hc. destruct Hc as [Hn Hp].
    assert (S : forall old s, ValidString old = true -> storeString v old = Some s ->
                              ValidString s = true).
    { intros old s Ho Hs. destruct v; try discriminate; injection Hs as <-; assumption. }
    repeat match type of H with
    | context [if ?b then _ else _] => destruct b
    end;
    match type of H with
    | context [storeString v ?old] =>
        let E := fresh "E" in
        destruct (storeString v old) as [s|] eqn:E; [|discriminate];
        apply S in E; [|assumption]
    | _ => idtac
    end;
    cbn [option_map] in H; apply (IH _ _ Hm) in H; try assumption;
    unfold contactValide; cbn [Nom Prenom Tel]; rewrite ?Hn, ?Hp, ?Ht, ?E; reflexivity.
Qed.

Lemma storeContact_valide (v : json) (old c : Contact) :
  jsonValide v = true -> contactValide old = true ->
  storeContact v old = Some c -> contactValide c = true.
Proof.
  intros Hv Ho H. destruct v; try discriminate; simpl in H.
  - now injection H as <-.
  - eapply storeContactMembers_valide; eassumption.
Qed.

Lemma storeElements_valide (vs : list json) :
  forall slots cs, forallb jsonValide vs = true -> forallb contactValide slots = true ->
                   storeElements vs slots = Some cs -> forallb contactValide cs = true.
Proof.
  induction vs as [|v vs IH]; intros slots cs Hv Hs H; simpl in H.
  - now injection H as <-.
  - simpl in Hv. apply andb_prop in Hv. destruct Hv as [Hv Hvs].
    destruct slots as [|o sl].
    + destruct (storeContact v zeroContact) as [c|] eqn:E; [|discriminate].
      destruct (storeElements vs []) as [cs'|] eqn:E'; [|discriminate].
      injection H as <-. simpl. rewrite (storeContact_valide v zeroContact c Hv eq_refl E).
      now rewrite (IH [] cs' Hvs eq_refl E').
    + simpl in Hs. apply andb_prop in Hs. destruct Hs as [Ho Hsl].
      destruct (storeContact v o) as [c|] eqn:E; [|discriminate].
      destruct (storeElements vs sl) as [cs'|] eqn:E'; [|discriminate].
      injection H as <-. simpl. rewrite (storeContact_valide _ _ _ Hv Ho E).
      now rewrite (IH _ _ Hvs Hsl E').
Qed.

Lemma forallb_skipn (n : nat) (l : list Contact) :
  forallb contactValide l = true -> forallb contactValide (skipn n l) = true.
Proof.
  revert l. induction n as [|n IH]; intros [|x l]; simpl; auto.
  intros H. apply andb_prop in H. now apply IH.
Qed.

Lemma storeContacts_valide (v : json) (t t' : target) :
  jsonValide v = true -> targetValide t = true ->
  storeContacts v t = Some t' -> targetValide t' = true.
Proof.
  intros Hv Ht H. unfold targetValide in *. apply andb_prop in Ht. destruct Ht as [H1 H2].
  assert (Hs : forallb contactValide (elems (visible t) ++ behind t) = true)
    by (rewrite forallb_app, H1, H2; reflexivity).
  destruct v as [| | | |[|v vs]|]; try discriminate; simpl in H;
    try (injection H as <-; reflexivity).
  cbn [jsonValide] in Hv.
  destruct (elems (visible t) ++ behind t) as [|o sl] eqn:Esl.
  - destruct (storeContact v zeroContact) as [c|] eqn:E; [|discriminate].
    destruct (storeElements vs []) as [cs|] eqn:E'; [|discriminate].
    injection H as <-. cbn [visible behind elems].
    assert (K : storeElements (v :: vs) [] = Some (c :: cs)) by (simpl; now rewrite E, E').
    rewrite (storeElements_valide (v :: vs) [] (c :: cs) Hv eq_refl K). destruct (length vs); reflexivity.
  - destruct (storeContact v o) as [c|] eqn:E; [|discriminate].
    destruct (storeElements vs sl) as [cs|] eqn:E'; [|discriminate].
    injection H as <-. cbn [visible behind elems].
    assert (K : storeElements (v :: vs) (o :: sl) = Some (c :: cs))
      by (simpl; now rewrite E, E').
    rewrite (storeElements_valide _ _ _ Hv Hs K).
    simpl in Hs. apply andb_prop in Hs. now apply forallb_skipn.
Qed.

Lemma storeAnnuaireMembers_valide (m : list (string * json)) :
  forall t t', forallb (fun kv => jsonValide (snd kv)) m = true ->
               targetValide t = true ->
               storeAnnuaireMembers m t = Some t' -> targetValide t' = true.
Proof.
  induction m as [|[key v] m IH]; intros t t' Hm Ht H; cbn [storeAnnuaireMembers] in H.
  - now injection H as <-.
  - simpl in Hm. apply andb_prop in Hm. destruct Hm as [Hv Hm].
    destruct (equalFold "contacts" key); [|eapply IH; eassumption].
    destruct (storeContacts v t) as [t1|] eqn:E; [|discriminate].
    eapply IH; [eassumption | eapply storeContacts_valide; eassumption | eassumption].
Qed.

Lemma json_Unmarshal_valide (data : string) (a a' : Annuaire) :
  annuaireValide a = true ->
  json_Unmarshal data a = Some a' -> annuaireValide a' = true.
Proof.
  intros Ha. unfold json_Unmarshal.
  destruct (parseDocument data) as [v|] eqn:P; [|discriminate].
  apply parseDocument_valide in P.
  destruct v as [| | | | |m]; try discriminate.
  - now intros [= <-].
  - destruct (storeAnnuaireMembers m {| visible := Contacts a; behind := [] |}) as [t|] eqn:E;
      [|discriminate].
    intros [= <-]. cbn [jsonValide] in P.
    apply (storeAnnuaireMembers_valide _ _ _ P) in E.
    + unfold targetValide in E. apply andb_prop in E. exact (proj1 E).
    + unfold targetValide. cbn [visible behind]. unfold annuaireValide in Ha.
      now rewrite Ha.
Qed.

Lemma chargerAnnuaire_valide (f : Fichier) (a : Annuaire) :
  chargerAnnuaire f = (Some a, None) -> annuaireValide a = true.
Proof.
  unfold chargerAnnuaire. destruct (os_Stat_IsNotExist f); [now intros [= <-]|].
  destruct (os_ReadFile f) as [data|]; [|discriminate].
  destruct (json_Unmarshal data {| Contacts := Some [] |}) as [a'|] eqn:E; [|discriminate].
  intros [= <-]. eapply json_Unmarshal_valide; [|exact E]. reflexivity.
Qed.

(** X11. Whatever the file holds, the strings of a directory that
    [chargerAnnuaire] returns are valid UTF-8: the decoder replaces what is
    not by U+FFFD. *)
Theorem X11_charger_utf8_valide (f : Fichier) (a : Annuaire) (c : Contact) :
  chargerAnnuaire f = (Some a, None) ->
  In c (elems (Contacts a)) ->
  ValidString (Nom c) = true /\ ValidString (Prenom c) = true /\ ValidString (Tel c) = true.
Proof.
  intros H Hin. apply chargerAnnuaire_valide in H. unfold annuaireValide in H.
  rewrite forallb_forall in H. specialize (H c Hin). unfold contactValide in H.
  apply andb_prop in H. destruct H as [H Ht]. apply andb_prop in H. tauto.
Qed.

(** X12. Saving a directory as it was loaded loses nothing: when
    [chargerAnnuaire] returns a directory, whatever the file it comes from
    holds, [sauvegarderAnnuaire] of that directory to a file that can be
    written and read, then [chargerAnnuaire], returns the same directory. *)
Theorem X12_recharger_apres_sauvegarde (f f' : Fichier) (a : Annuaire) :
  chargerAnnuaire f = (Some a, None) ->
  inscriptible f' = true ->
  (contenu f' = None \/ lisible f' = true) ->
  snd (sauvegarderAnnuaire a f') = None
  /\ chargerAnnuaire (fst (sauvegarderAnnuaire a f')) = (Some a, None).
Proof.
  intros H W R. apply chargerAnnuaire_valide in H.
  destruct (parseDocument_MarshalIndent a H) as (data & M & P).
  unfold sauvegarderAnnuaire. rewrite M. unfold os_WriteFile. rewrite W.
  split; [reflexivity|].
  unfold chargerAnnuaire, os_Stat_IsNotExist, os_ReadFile. cbn [fst contenu lisible].
  replace (match contenu f' with None => true | Some _ => lisible f' end) with true
    by (destruct R as [-> | R]; [reflexivity | rewrite R; destruct (contenu f'); reflexivity]).
  now rewrite (json_Unmarshal_jsonOfAnnuaire data a P).
Qed.

(** X13. A snapshot file that exists and holds nothing but white space,
    an empty file for one, is a load failure: [chargerAnnuaire] returns no
    directory and the JSON parsing error. *)
Theorem X13_fichier_blanc (data : string) (i : bool) :
  skipSpace data = EmptyString ->
  chargerAnnuaire {| contenu := Some data; lisible := true; inscriptible := i |}
  = (None, Some ErrParsing)
  /\ kind ErrParsing = LoadFailure.
Proof.
  intros B. split; [|reflexivity].
  unfold chargerAnnuaire, os_Stat_IsNotExist, os_ReadFile. cbn [contenu lisible].
  unfold json_Unmarshal, parseDocument. rewrite B.
  replace (2 * String.length data + 1) with (S (2 * String.length data)) by lia.
  reflexivity.
Qed.

(** * Properties of the listing and of the command dispatcher *)

Lemma nth_error_lignes (cs : list Contact) :
  forall k i,
    nth_error (lignes k cs) i
    = option_map (fun c => MsgLigne (k + i + 1) (Nom c) (Prenom c) (Tel c)) (nth_error cs i).
Proof.
  induction cs as [|c cs IH]; intros k [|i]; simpl; try reflexivity.
  - now rewrite Nat.add_0_r.
  - rewrite IH. destruct (nth_error cs i); simpl; [|reflexivity].
    do 2 f_equal. lia.
Qed.

Lemma length_lignes (cs : list Contact) (k : nat) : length (lignes k cs) = length cs.
Proof. revert k. induction cs as [|c cs IH]; intros k; simpl; auto. Qed.

(** X14. [listerContacts] prints the single line saying the directory is
    empty when there is no contact (nil or empty slice); otherwise a header
    with the number of contacts, then one line per contact, in the order of
    the directory, numbered from 1, with its three fields. *)
Theorem X14_lister (a : Annuaire) :
  (elems (Contacts a) = [] -> listerContacts a = [MsgAnnuaireVide])
  /\ (elems (Contacts a) <> [] ->
      exists ls,
        listerContacts a = MsgEntete (length (elems (Contacts a))) :: ls
        /\ length ls = length (elems (Contacts a))
        /\ forall i,
             nth_error ls i
             = option_map (fun c => MsgLigne (i + 1) (Nom c) (Prenom c) (Tel c))
                          (nth_error (elems (Contacts a)) i)).
Proof.
  unfold listerContacts. split.
  - intros ->. reflexivity.
  - intros N. destruct (elems (Contacts a)) as [|c cs] eqn:E; [contradiction|].
    cbn [length Nat.eqb]. eexists. split; [reflexivity|]. split.
    + apply length_lignes.
    + intros i. apply nth_error_lignes.
Qed.

Section ProgrammeProprietes.

Variable ToLower : string -> string.
Variable TrimSpace : string -> string.

Lemma chargerAnnuaire_issue (f : Fichier) :
  (exists a, chargerAnnuaire f = (Some a, None))
  \/ (exists e, chargerAnnuaire f = (None, Some e) /\ kind e = LoadFailure).
Proof.
  unfold chargerAnnuaire. destruct (os_Stat_IsNotExist f); [left; eauto|].
  destruct (os_ReadFile f) as [data|]; [|right; eauto].
  destruct (json_Unmarshal data {| Contacts := Some [] |}); [left | right]; eauto.
Qed.

Lemma sauvegarderPuis_ecriture (a : Annuaire) (f : Fichier) (m : Message) :
  inscriptible f = true -> code (sauvegarderPuis a f m) = 0.
Proof.
  intros W. unfold sauvegarderPuis, sauvegarderAnnuaire, json_MarshalIndent, os_WriteFile.
  rewrite W. reflexivity.
Qed.

Lemma sauvegarderPuis_code (a : Annuaire) (f : Fichier) (m : Message) :
  code (sauvegarderPuis a f m) = 0 \/ code (sauvegarderPuis a f m) = 1.
Proof.
  unfold sauvegarderPuis. destruct (sauvegarderAnnuaire a f) as [f' [e|]]; auto.
Qed.

Lemma sauvegarderPuis_sortie (a : Annuaire) (f : Fichier) (m m' : Message) :
  In m' (sortie (sauvegarderPuis a f m)) ->
  m' = m \/ exists e, m' = MsgErreurSauvegarde e /\ kind e = PersistFailure.
Proof.
  unfold sauvegarderPuis, sauvegarderAnnuaire.
  destruct (json_MarshalIndent a) as [data|]; [|intros [<-|[]]; right; eauto].
  destruct (os_WriteFile f data) as [f'|]; intros [<-|[]]; [left|right]; eauto.
Qed.

Lemma lister_sans_erreur (a : Annuaire) (e : error) :
  ~ In (MsgErreurAjout e) (listerContacts a).
Proof.
  unfold listerContacts. destruct (_ =? _)%nat; [intros [H|[]]; discriminate|].
  intros [H|H]; [discriminate|]. revert H. generalize 0.
  induction (elems (Contacts a)) as [|x l IH]; intros n; simpl; [tauto|].
  intros [H|H]; [discriminate | eapply IH, H].
Qed.

(** Unfolds [main] and splits on every test it makes. *)
Ltac cas_main :=
  unfold main;
  repeat match goal with
  | |- context [chargerAnnuaire ?f] =>
      let E := fresh "Charge" in
      destruct (chargerAnnuaire f) as [[?|] [?|]] eqn:E
  | |- context [ajouterContact ?l ?t ?a ?n ?p ?x] =>
      let E := fresh "Aj" in destruct (ajouterContact l t a n p x) as [? [?|]] eqn:E
  | |- context [supprimerContact ?l ?a ?n] =>
      let E := fresh "Su" in destruct (supprimerContact l a n) as [? [?|]] eqn:E
  | |- context [modifierContact ?l ?t ?a ?n ?p ?x] =>
      let E := fresh "Mo" in destruct (modifierContact l t a n p x) as [? [?|]] eqn:E
  | |- context [trouver ?l ?a ?n] => destruct (trouver l a n)
  | |- context [if ?b then _ else _] =>
      let E := fresh "T" in destruct b eqn:E
  end; cbn [sortie code fichier].

(** X15. Only the three actions that change the directory touch the file:
    for any other action, [lister], [rechercher] and unknown actions
    included, the snapshot file after the run is the file before it. *)
Theorem X15_actions_de_lecture (action nom prenom tel : string) (f : Fichier) :
  ToLower action <> "ajouter" ->
  ToLower action <> "supprimer" ->
  ToLower action <> "modifier" ->
  fichier (main ToLower TrimSpace action nom prenom tel f) = f.
Proof.
  intros H1 H2 H3. cas_main; try reflexivity.
  all: repeat match goal with
       | H : (_ =? _)%string = true |- _ => apply String.eqb_eq in H
       end; congruence.
Qed.

(** X16. A run that fails changes nothing: when the file can be written,
    a run that ends with a status other than 0 leaves the snapshot file as
    it was. *)
Theorem X16_echec_sans_effet (action nom prenom tel : string) (f : Fichier) :
  inscriptible f = true ->
  code (main ToLower TrimSpace action nom prenom tel f) <> 0 ->
  fichier (main ToLower TrimSpace action nom prenom tel f) = f.
Proof.
  intros W. cas_main; try reflexivity.
  all: intros C; exfalso; apply C; now apply sauvegarderPuis_ecriture.
Qed.

(** X17. The emptiness checks of [ajouterContact] are never what the user
    sees: [main] refuses an empty name or phone number before it calls
    [ajouterContact], so the only error of the addition that a run prints
    is the duplicate error. *)
Theorem X17_erreur_ajout (action nom prenom tel : string) (f : Fichier) (e : error) :
  In (MsgErreurAjout e) (sortie (main ToLower TrimSpace action nom prenom tel f)) ->
  e = ErrExisteDeja nom.
Proof.
  cas_main; intros H.
  all: try (apply lister_sans_erreur in H; contradiction).
  all: try (apply sauvegarderPuis_sortie in H; destruct H as [H|(? & H & _)]; discriminate).
  all: simpl in H; repeat (destruct H as [H|H]); try discriminate; try contradiction.
  all: injection H as <-.
  all: match goal with
       | T : (_ || _)%bool = false, A : ajouterContact _ _ _ _ _ _ = _ |- _ =>
           apply orb_false_elim in T; destruct T as [Tn Tt];
           apply String.eqb_neq in Tn; apply String.eqb_neq in Tt;
           revert A; unfold ajouterContact
       end.
  all: destruct (rechercherContact ToLower a nom); [now intros [= _ <-]|].
  all: destruct (String.eqb_spec nom EmptyString); [contradiction|].
  all: destruct (String.eqb_spec tel EmptyString); [contradiction|]; discriminate.
Qed.

(** X18. A run ends with status 0 or 1, and [chargerAnnuaire] never
    returns a nil directory without an error: [main] never uses a nil
    [*Annuaire]. *)
Theorem X18_codes_de_sortie (action nom prenom tel : string) (f : Fichier) :
  (code (main ToLower TrimSpace action nom prenom tel f) = 0
   \/ code (main ToLower TrimSpace action nom prenom tel f) = 1)
  /\ chargerAnnuaire f <> (None, None).
Proof.
  assert (N : chargerAnnuaire f <> (None, None)).
  { destruct (chargerAnnuaire_issue f) as [(a & ->)|(e & -> & _)]; discriminate. }
  split; [|exact N]. cas_main; auto using sauvegarderPuis_code. contradiction.
Qed.

End ProgrammeProprietes.

(** ** What a round trip keeps, and when it keeps everything *)

Lemma take_drop (n : nat) (s : string) : (take n s ++ drop n s)%string = s.
Proof.
  revert s. induction n as [|n IH]; intros [|c r]; simpl; try reflexivity.
  now rewrite IH.
Qed.

Lemma coerceLoop_valide (n : nat) :
  forall s, String.length s <= n -> validLoop n s = true -> coerceLoop n s = s.
Proof.
  induction n as [|n IH]; intros [|c r] L V; try reflexivity.
  - simpl in L. lia.
  - rewrite validLoop_S in V. rewrite coerceLoop_S.
    pose proof (DecodeRune_avance c r) as A.
    destruct (DecodeRune (String c r)) as [rr size]. cbn [snd] in A.
    destruct ((rr =? RuneError)%N && (size =? 1)%nat); [discriminate|].
    rewrite IH; [apply take_drop | | exact V].
    rewrite length_drop. cbn [String.length] in L |- *. lia.
Qed.

Lemma coerceUTF8_valide (s : string) : ValidString s = true -> coerceUTF8 s = s.
Proof. intros V. apply coerceLoop_valide; [apply Nat.le_refl | exact V]. Qed.

Lemma coerceAnnuaire_valide (a : Annuaire) :
  annuaireValide a = true -> coerceAnnuaire a = a.
Proof.
  unfold annuaireValide, coerceAnnuaire. destruct a as [[cs|]]; [|reflexivity].
  cbn [Contacts elems option_map]. intros V. do 2 f_equal.
  induction cs as [|c cs IH]; [reflexivity|].
  cbn [forallb] in V. apply andb_prop in V. destruct V as [Vc V].
  cbn [map]. rewrite (IH V). f_equal.
  unfold contactValide in Vc. apply andb_prop in Vc. destruct Vc as [Vc Vt].
  apply andb_prop in Vc. destruct Vc as [Vn Vp].
  unfold coerceContact. rewrite !coerceUTF8_valide by assumption. now destruct c.
Qed.

(** A file that [chargerAnnuaire] accepts is absent or readable. *)
Lemma charge_lisible (f : Fichier) (a : Annuaire) :
  chargerAnnuaire f = (Some a, None) -> contenu f = None \/ lisible f = true.
Proof.
  unfold chargerAnnuaire, os_Stat_IsNotExist, os_ReadFile.
  destruct (contenu f); [|now left]. destruct (lisible f); [now right | discriminate].
Qed.

(** The file a successful [sauvegarderAnnuaire] leaves loads to the
    directory saved, invalid bytes replaced. *)
Lemma sauvegarde_relue (a : Annuaire) (f f1 : Fichier) :
  (contenu f = None \/ lisible f = true) ->
  sauvegarderAnnuaire a f = (f1, None) ->
  chargerAnnuaire f1 = (Some (coerceAnnuaire a), None).
Proof.
  intros R. destruct (parseDocument_MarshalIndent_general a) as (data & M & P).
  unfold sauvegarderAnnuaire. rewrite M. unfold os_WriteFile.
  destruct (inscriptible f); [|discriminate]. intros [= <-].
  unfold chargerAnnuaire, os_Stat_IsNotExist, os_ReadFile. cbn [fst contenu lisible].
  replace (match contenu f with None => true | Some _ => lisible f end) with true
    by (destruct R as [-> | R]; [reflexivity | rewrite R; destruct (contenu f); reflexivity]).
  now rewrite (json_Unmarshal_jsonOfAnnuaire data (coerceAnnuaire a) P).
Qed.

(** X19. A round trip through the file gives the directory back exactly
    when all its strings are valid UTF-8: with a file that can be written
    and read, [chargerAnnuaire] after [sauvegarderAnnuaire] returns the
    directory saved if and only if the name, given name and phone number of
    every contact are valid UTF-8. *)
Theorem X19_aller_retour_exact (a : Annuaire) (f : Fichier) :
  inscriptible f = true ->
  (contenu f = None \/ lisible f = true) ->
  (chargerAnnuaire (fst (sauvegarderAnnuaire a f)) = (Some a, None)
   <-> annuaireValide a = true).
Proof.
  intros W R. split.
  - apply chargerAnnuaire_valide.
  - intros V. rewrite <- (coerceAnnuaire_valide a V) at 2.
    apply (sauvegarde_relue a f); [exact R|].
    unfold sauvegarderAnnuaire, json_MarshalIndent, os_WriteFile. now rewrite W.
Qed.

(** * Runs of the program, one after the other *)

Lemma find_nulle_part (p : Contact -> bool) (l : list Contact) :
  (forall x, In x l -> p x = false) -> find p l = None.
Proof.
  induction l as [|c l IH]; intros H; simpl; [reflexivity|].
  rewrite (H c (or_introl eq_refl)). apply IH. intros x Hx. apply H. now right.
Qed.

Section ProgrammeSuite.

Variable ToLower : string -> string.
Variable TrimSpace : string -> string.

(** A run of one of the three actions that change the directory, ending
    with status 0: the operation succeeded on the directory loaded and the
    result was saved. *)
Lemma main_mutation (action nom prenom tel : string) (f : Fichier) (op : Operation) :
  operationDe (ToLower action) nom prenom tel = Some op ->
  code (main ToLower TrimSpace action nom prenom tel f) = 0 ->
  exists a,
    chargerAnnuaire f = (Some a, None)
    /\ nom <> EmptyString
    /\ snd (appliquer ToLower TrimSpace a op) = None
    /\ sauvegarderAnnuaire (fst (appliquer ToLower TrimSpace a op)) f
       = (fichier (main ToLower TrimSpace action nom prenom tel f), None).
Proof.
  unfold operationDe, main. cbv zeta.
  destruct (action =? "")%string; [discriminate|].
  destruct (chargerAnnuaire f) as [[a|] [e|]]; try discriminate.
  intros O Z. exists a. revert O Z.
  destruct (ToLower action =? "ajouter")%string eqn:A.
  { intros [= <-]. cbn [appliquer].
    destruct (nom =? "")%string eqn:N; [discriminate|]. cbn [orb].
    destruct (tel =? "")%string; [discriminate|].
    destruct (ajouterContact ToLower TrimSpace a nom prenom tel) as [a' [e|]];
      [discriminate|].
    unfold sauvegarderPuis. cbn [fst snd].
    destruct (sauvegarderAnnuaire a' f) as [f' [e|]]; [discriminate|].
    intros _. apply String.eqb_neq in N.
    exact (conj eq_refl (conj N (conj eq_refl eq_refl))). }
  destruct (ToLower action =? "lister")%string eqn:L.
  { apply String.eqb_eq in L. rewrite L. discriminate. }
  destruct (ToLower action =? "rechercher")%string eqn:R.
  { apply String.eqb_eq in R. rewrite R. discriminate. }
  destruct (ToLower action =? "supprimer")%string eqn:S.
  { intros [= <-]. cbn [appliquer].
    destruct (nom =? "")%string eqn:N; [discriminate|].
    destruct (supprimerContact ToLower a nom) as [a' [e|]]; [discriminate|].
    unfold sauvegarderPuis. cbn [fst snd].
    destruct (sauvegarderAnnuaire a' f) as [f' [e|]]; [discriminate|].
    intros _. apply String.eqb_neq in N.
    exact (conj eq_refl (conj N (conj eq_refl eq_refl))). }
  destruct (ToLower action =? "modifier")%string eqn:M; [|discriminate].
  intros [= <-]. cbn [appliquer].
  destruct (nom =? "")%string eqn:N; [discriminate|].
  destruct ((prenom =? "") && (tel =? ""))%string; [discriminate|].
  destruct (modifierContact ToLower TrimSpace a nom prenom tel) as [a' [e|]];
    [discriminate|].
  unfold sauvegarderPuis. cbn [fst snd].
  destruct (sauvegarderAnnuaire a' f) as [f' [e|]]; [discriminate|].
  intros _. apply String.eqb_neq in N.
    exact (conj eq_refl (conj N (conj eq_refl eq_refl))).
Qed.

(** X20. What a successful run leaves in the file is what the operation
    did to the directory: when a run of [ajouter], [supprimer] or
    [modifier] ends with status 0, the operation succeeded on the directory
    loaded from the file, and the file afterwards loads to the result of the
    operation, invalid UTF-8 bytes replaced by U+FFFD. *)
Theorem X20_execution_persistante
  (action nom prenom tel : string) (f : Fichier) (a : Annuaire) (op : Operation) :
  chargerAnnuaire f = (Some a, None) ->
  operationDe (ToLower action) nom prenom tel = Some op ->
  code (main ToLower TrimSpace action nom prenom tel f) = 0 ->
  snd (appliquer ToLower TrimSpace a op) = None
  /\ chargerAnnuaire (fichier (main ToLower TrimSpace action nom prenom tel f))
     = (Some (coerceAnnuaire (fst (appliquer ToLower TrimSpace a op))), None).
Proof.
  intros C O Z. destruct (main_mutation _ _ _ _ _ _ O Z) as (a' & C' & _ & E & S).
  rewrite C in C'. injection C' as <-. split; [exact E|].
  eapply sauvegarde_relue; [|exact S]. eapply charge_lisible, C.
Qed.

(** A run of [rechercher] on a file that loads. *)
Lemma main_rechercher (action nom prenom tel : string) (f : Fichier) (a : Annuaire) :
  action <> EmptyString ->
  ToLower action = "rechercher" ->
  nom <> EmptyString ->
  chargerAnnuaire f = (Some a, None) ->
  main ToLower TrimSpace action nom prenom tel f
  = {| sortie := match trouver ToLower a nom with
                 | None => [MsgAucunTrouve nom]
                 | Some c => [MsgTrouve (Nom c) (Prenom c) (Tel c)]
                 end;
       code := 0; fichier := f |}.
Proof.
  intros A R N C. unfold main. cbv zeta.
  rewrite (proj2 (String.eqb_neq _ _) A), C, R, (proj2 (String.eqb_neq _ _) N).
  change ("rechercher" =? "ajouter")%string with false.
  change ("rechercher" =? "lister")%string with false.
  change ("rechercher" =? "rechercher")%string with true. cbv iota.
  destruct (trouver ToLower a nom); reflexivity.
Qed.

(** X21. A contact added by one run is found by the next: when a run of
    [ajouter] ends with status 0, the trimmed arguments are valid UTF-8 and
    trimming does not change the lower-case image of the name, a run of
    [rechercher] with the same name on the file left behind prints the
    contact with its trimmed fields, and leaves the file as it is. *)
Theorem X21_ajouter_puis_rechercher
  (action1 action2 nom prenom tel prenom2 tel2 : string) (f : Fichier) :
  ToLower action1 = "ajouter" ->
  action2 <> EmptyString ->
  ToLower action2 = "rechercher" ->
  ToLower (TrimSpace nom) = ToLower nom ->
  ValidString (TrimSpace nom) = true ->
  ValidString (TrimSpace prenom) = true ->
  ValidString (TrimSpace tel) = true ->
  code (main ToLower TrimSpace action1 nom prenom tel f) = 0 ->
  main ToLower TrimSpace action2 nom prenom2 tel2
       (fichier (main ToLower TrimSpace action1 nom prenom tel f))
  = {| sortie := [MsgTrouve (TrimSpace nom) (TrimSpace prenom) (TrimSpace tel)];
       code := 0;
       fichier := fichier (main ToLower TrimSpace action1 nom prenom tel f) |}.
Proof.
  intros A1 N2 A2 T Vn Vp Vt Z.
  assert (O : operationDe (ToLower action1) nom prenom tel = Some (Ajouter nom prenom tel)).
  { rewrite A1. reflexivity. }
  destruct (main_mutation _ _ _ _ _ _ O Z) as (a & C & N & E & S).
  cbn [appliquer] in E, S.
  destruct (ajouter_issues ToLower TrimSpace a nom prenom tel) as (I1 & I2 & _).
  pose proof (I2 E) as Ea. destruct (proj1 I1 E) as (Hl & _).
  set (c := {| Nom := TrimSpace nom; Prenom := TrimSpace prenom; Tel := TrimSpace tel |}) in *.
  assert (V : annuaireValide (fst (ajouterContact ToLower TrimSpace a nom prenom tel)) = true).
  { rewrite Ea. unfold annuaireValide. cbn [Contacts elems].
    rewrite forallb_app. apply chargerAnnuaire_valide in C. unfold annuaireValide in C.
    rewrite C. cbn [forallb]. unfold contactValide, c. cbn [Nom Prenom Tel].
    now rewrite Vn, Vp, Vt. }
  pose proof (sauvegarde_relue _ _ _ (charge_lisible _ _ C) S) as C1.
  rewrite (coerceAnnuaire_valide _ V) in C1.
  rewrite (main_rechercher action2 nom prenom2 tel2 _ _ N2 A2 N C1).
  rewrite trouver_find, Ea. cbn [Contacts elems].
  assert (F : find (fun x => (ToLower (Nom x) =? ToLower nom)%string)
                   (elems (Contacts a) ++ [c]) = Some c); [|now rewrite F].
  unfold aucun in Hl. clear - Hl T.
  induction (elems (Contacts a)) as [|x l IH]; simpl.
  - unfold c at 1. cbn [Nom]. rewrite T, String.eqb_refl. reflexivity.
  - inversion Hl as [|? ? Hx Hl']; subst.
    rewrite (proj2 (String.eqb_neq _ _) Hx). now apply IH.
Qed.

(** X22. A contact deleted by one run is gone for the next: in a file
    whose directory has no two names equal up to case, when a run of
    [supprimer] ends with status 0, a run of [rechercher] with the same name
    on the file left behind finds no contact. *)
Theorem X22_supprimer_puis_rechercher
  (action1 action2 nom prenom tel prenom2 tel2 : string) (f : Fichier) (a : Annuaire) :
  chargerAnnuaire f = (Some a, None) ->
  nomsUniques ToLower a ->
  ToLower action1 = "supprimer" ->
  action2 <> EmptyString ->
  ToLower action2 = "rechercher" ->
  code (main ToLower TrimSpace action1 nom prenom tel f) = 0 ->
  main ToLower TrimSpace action2 nom prenom2 tel2
       (fichier (main ToLower TrimSpace action1 nom prenom tel f))
  = {| sortie := [MsgAucunTrouve nom];
       code := 0;
       fichier := fichier (main ToLower TrimSpace action1 nom prenom tel f) |}.
Proof.
  intros C U A1 N2 A2 Z.
  assert (O : operationDe (ToLower action1) nom prenom tel = Some (Supprimer nom)).
  { rewrite A1. reflexivity. }
  destruct (main_mutation _ _ _ _ _ _ O Z) as (a' & C' & N & E & S).
  rewrite C in C'. injection C' as <-. cbn [appliquer] in E, S.
  pose proof (chargerAnnuaire_valide _ _ C) as Va.
  revert E S. unfold supprimerContact, rechercherContact. cbv zeta.
  destruct (premierIndice ToLower (ToLower nom) (elems (Contacts a)) 0) as [i|] eqn:P;
    [|discriminate].
  destruct (premierIndice_Some _ _ _ _ _ P) as (l1 & c & l2 & El & -> & Hl & Hc).
  rewrite El, Nat.add_0_l, retirer_milieu. cbn [fst snd]. intros _ S.
  assert (V : annuaireValide {| Contacts := Some (l1 ++ l2) |} = true).
  { unfold annuaireValide in *. rewrite El in Va. cbn [Contacts elems].
    rewrite forallb_app in *. cbn [forallb] in Va.
    apply andb_prop in Va. destruct Va as [V1 V2]. apply andb_prop in V2.
    rewrite V1. apply V2. }
  pose proof (sauvegarde_relue _ _ _ (charge_lisible _ _ C) S) as C1.
  rewrite (coerceAnnuaire_valide _ V) in C1.
  rewrite (main_rechercher action2 nom prenom2 tel2 _ _ N2 A2 N C1).
  rewrite trouver_find. cbn [Contacts elems].
  assert (F : find (fun x => (ToLower (Nom x) =? ToLower nom)%string) (l1 ++ l2) = None);
    [|now rewrite F].
  apply find_nulle_part. intros x Hx. apply String.eqb_neq.
  unfold nomsUniques in U. rewrite El, map_app in U. cbn [map] in U.
  apply in_app_or in Hx. destruct Hx as [Hx|Hx].
  - unfold aucun in Hl. rewrite Forall_forall in Hl. now apply Hl.
  - apply NoDup_remove_2 in U. intros Ex. apply U. apply in_or_app. right.
    rewrite Hc, <- Ex. now apply (in_map (fun c => ToLower (Nom c))).
Qed.

End ProgrammeSuite.

(** * Closed instances of the further properties *)

Lemma X2_ajouter_resultat_witness :
  fst (ajouter {| Contacts := Some [dupont] |} " Martin " "Anne" "0611223344 ")
  = {| Contacts := Some [dupont; martin] |}.
Proof.
  apply (proj1 (proj2 (X2_ajouter_resultat asciiToLower asciiTrimSpace
                         {| Contacts := Some [dupont] |} " Martin " "Anne" "0611223344 "))).
  reflexivity.
Defined.

Lemma X3_ajouter_puis_rechercher_witness :
  rechercher (fst (ajouter {| Contacts := Some [dupont] |} "Martin" "Anne" "0611223344"))
             "Martin" = Some 1
  /\ trouver asciiToLower
             (fst (ajouter {| Contacts := Some [dupont] |} "Martin" "Anne" "0611223344"))
             "Martin" = Some martin.
Proof.
  apply (proj2 (X3_ajouter_puis_rechercher asciiToLower asciiTrimSpace
                  {| Contacts := Some [dupont] |} "Martin" "Anne" "0611223344" eq_refl)).
  reflexivity.
Defined.

Lemma X4_ajouter_puis_supprimer_witness :
  supprimer (fst (ajouter {| Contacts := Some [dupont] |} "Martin" "Anne" "0611223344"))
            "Martin"
  = ({| Contacts := Some [dupont] |}, None).
Proof.
  apply (X4_ajouter_puis_supprimer asciiToLower asciiTrimSpace
           {| Contacts := Some [dupont] |} "Martin" "Anne" "0611223344");
    reflexivity.
Defined.

Lemma dupont_martin_uniques :
  nomsUniques asciiToLower {| Contacts := Some [dupont; martin] |}.
Proof.
  unfold nomsUniques. cbn [map elems Contacts]. repeat constructor.
  - intros [H|[]]. vm_compute in H. discriminate H.
  - intros [].
Defined.

Lemma X5_supprimer_puis_rechercher_witness :
  rechercher (fst (supprimer {| Contacts := Some [dupont; martin] |} "DUPONT")) "DUPONT" = None
  /\ S (length (elems (Contacts (fst (supprimer {| Contacts := Some [dupont; martin] |}
                                                "DUPONT")))))
     = 2.
Proof.
  apply (X5_supprimer_puis_rechercher asciiToLower
           {| Contacts := Some [dupont; martin] |} "DUPONT").
  - exact dupont_martin_uniques.
  - reflexivity.
Defined.

Lemma X6_supprimer_autres_noms_witness :
  trouver asciiToLower
          (fst (supprimer {| Contacts := Some [dupont; martin; durand] |} "Martin")) "durand"
  = Some durand.
Proof.
  apply (X6_supprimer_autres_noms asciiToLower
           {| Contacts := Some [dupont; martin; durand] |} "Martin" "durand").
  intros H. vm_compute in H. discriminate H.
Defined.

Lemma X8_modifier_idempotent_witness :
  modifier (fst (modifier {| Contacts := Some [martin; dupont] |} "dupont" " Jeanne " ""))
           "dupont" " Jeanne " ""
  = ({| Contacts := Some [martin;
                          {| Nom := "Dupont"; Prenom := "Jeanne"; Tel := "0123456789" |}] |},
     None).
Proof.
  apply (X8_modifier_idempotent asciiToLower asciiTrimSpace
           {| Contacts := Some [martin; dupont] |} "dupont" " Jeanne " "").
  reflexivity.
Defined.

Lemma X9_unicite_a_chaque_etape_witness :
  nomsUniques asciiToLower
    (executer asciiToLower asciiTrimSpace {| Contacts := Some [dupont; martin] |}
       (firstn 2 [Ajouter "Durand" "" "0455667788"; Ajouter "DUPONT" "Jeanne" "0600000000";
                  Supprimer "martin"])).
Proof.
  apply (X9_unicite_a_chaque_etape asciiToLower asciiTrimSpace
           {| Contacts := Some [dupont; martin] |}
           [Ajouter "Durand" "" "0455667788"; Ajouter "DUPONT" "Jeanne" "0600000000";
            Supprimer "martin"] 2).
  - repeat constructor.
  - exact dupont_martin_uniques.
Defined.

Lemma X10_sauvegarder_puis_charger_witness :
  snd (sauvegarderAnnuaire
         {| Contacts := Some [{| Nom := andreLatin1; Prenom := ""; Tel := "0102030405" |}] |}
         fichierAbsent) = None
  /\ chargerAnnuaire
       (fst (sauvegarderAnnuaire
               {| Contacts := Some [{| Nom := andreLatin1; Prenom := "";
                                       Tel := "0102030405" |}] |}
               fichierAbsent))
     = (Some {| Contacts := Some [{| Nom := andreRemplace; Prenom := "";
                                     Tel := "0102030405" |}] |}, None).
Proof.
  apply (X10_sauvegarder_puis_charger
           {| Contacts := Some [{| Nom := andreLatin1; Prenom := ""; Tel := "0102030405" |}] |}
           fichierAbsent).
  - reflexivity.
  - left. reflexivity.
Defined.

Lemma charge_irreguliere :
  chargerAnnuaire {| contenu := Some snapshotIrregulier; lisible := true; inscriptible := false |}
  = (Some {| Contacts := Some contactsIrreguliers |}, None).
Proof. vm_compute. reflexivity. Defined.

Lemma X11_charger_utf8_valide_witness :
  ValidString " Martin " = true /\ ValidString "" = true /\ ValidString "0611223344" = true.
Proof.
  apply (X11_charger_utf8_valide
           {| contenu := Some snapshotIrregulier; lisible := true; inscriptible := false |}
           {| Contacts := Some contactsIrreguliers |}
           {| Nom := " Martin "; Prenom := ""; Tel := "0611223344" |}).
  - exact charge_irreguliere.
  - right. right. left. reflexivity.
Defined.

Lemma X12_recharger_apres_sauvegarde_witness :
  snd (sauvegarderAnnuaire {| Contacts := Some contactsIrreguliers |} fichierAbsent) = None
  /\ chargerAnnuaire
       (fst (sauvegarderAnnuaire {| Contacts := Some contactsIrreguliers |} fichierAbsent))
     = (Some {| Contacts := Some contactsIrreguliers |}, None).
Proof.
  apply (X12_recharger_apres_sauvegarde
           {| contenu := Some snapshotIrregulier; lisible := true; inscriptible := false |}
           fichierAbsent {| Contacts := Some contactsIrreguliers |}).
  - exact charge_irreguliere.
  - reflexivity.
  - left. reflexivity.
Defined.

Lemma X13_fichier_blanc_witness :
  chargerAnnuaire {| contenu := Some (String " " (String newline EmptyString));
                     lisible := true; inscriptible := true |}
  = (None, Some ErrParsing)
  /\ kind ErrParsing = LoadFailure.
Proof.
  apply (X13_fichier_blanc (String " " (String newline EmptyString)) true).
  reflexivity.
Defined.

Lemma X14_lister_witness :
  listerContacts {| Contacts := None |} = [MsgAnnuaireVide].
Proof.
  apply (proj1 (X14_lister {| Contacts := None |})). reflexivity.
Defined.

Lemma X15_actions_de_lecture_witness :
  fichier (main asciiToLower asciiTrimSpace "Lister" "" "" "" fichierDupontMartin)
  = fichierDupontMartin.
Proof.
  apply (X15_actions_de_lecture asciiToLower asciiTrimSpace "Lister" "" "" ""
           fichierDupontMartin);
    intros H; vm_compute in H; discriminate H.
Defined.

Lemma X16_echec_sans_effet_witness :
  fichier (main asciiToLower asciiTrimSpace "supprimer" "Durand" "" "" fichierDupontMartin)
  = fichierDupontMartin.
Proof.
  apply (X16_echec_sans_effet asciiToLower asciiTrimSpace "supprimer" "Durand" "" ""
           fichierDupontMartin).
  - reflexivity.
  - vm_compute. discriminate.
Defined.

Lemma X17_erreur_ajout_witness :
  In (MsgErreurAjout (ErrExisteDeja "DUPONT"))
     (sortie (main asciiToLower asciiTrimSpace "ajouter" "DUPONT" "" "0600000000"
                   fichierDupontMartin))
  /\ ErrExisteDeja "DUPONT" = ErrExisteDeja "DUPONT".
Proof.
  assert (H : In (MsgErreurAjout (ErrExisteDeja "DUPONT"))
                 (sortie (main asciiToLower asciiTrimSpace "ajouter" "DUPONT" "" "0600000000"
                               fichierDupontMartin))).
  { vm_compute. left. reflexivity. }
  split; [exact H|].
  exact (X17_erreur_ajout asciiToLower asciiTrimSpace "ajouter" "DUPONT" "" "0600000000"
           fichierDupontMartin (ErrExisteDeja "DUPONT") H).
Defined.

Lemma X19_aller_retour_exact_witness :
  chargerAnnuaire (fst (sauvegarderAnnuaire {| Contacts := Some [dupont; durand] |}
                                            fichierAbsent))
  = (Some {| Contacts := Some [dupont; durand] |}, None)
  <-> annuaireValide {| Contacts := Some [dupont; durand] |} = true.
Proof.
  apply (X19_aller_retour_exact {| Contacts := Some [dupont; durand] |} fichierAbsent).
  - reflexivity.
  - left. reflexivity.
Defined.

Lemma X20_execution_persistante_witness :
  snd (appliquer asciiToLower asciiTrimSpace {| Contacts := Some [dupont; martin] |}
                 (Modifier "martin" "" "0699999999")) = None
  /\ chargerAnnuaire
       (fichier (main asciiToLower asciiTrimSpace "Modifier" "martin" "" "0699999999"
                      fichierDupontMartin))
     = (Some (coerceAnnuaire
                (fst (appliquer asciiToLower asciiTrimSpace
                                {| Contacts := Some [dupont; martin] |}
                                (Modifier "martin" "" "0699999999")))), None).
Proof.
  apply (X20_execution_persistante asciiToLower asciiTrimSpace
           "Modifier" "martin" "" "0699999999" fichierDupontMartin
           {| Contacts := Some [dupont; martin] |} (Modifier "martin" "" "0699999999")).
  - vm_compute. reflexivity.
  - reflexivity.
  - vm_compute. reflexivity.
Defined.

Lemma X21_ajouter_puis_rechercher_witness :
  main asciiToLower asciiTrimSpace "rechercher" "Durand" "" ""
       (fichier (main asciiToLower asciiTrimSpace "AJOUTER" "Durand" " Luc" "0455667788"
                      fichierDupontMartin))
  = {| sortie := [MsgTrouve "Durand" "Luc" "0455667788"];
       code := 0;
       fichier := fichier (main asciiToLower asciiTrimSpace "AJOUTER" "Durand" " Luc"
                                "0455667788" fichierDupontMartin) |}.
Proof.
  apply (X21_ajouter_puis_rechercher asciiToLower asciiTrimSpace
           "AJOUTER" "rechercher" "Durand" " Luc" "0455667788" "" "" fichierDupontMartin).
  - reflexivity.
  - discriminate.
  - reflexivity.
  - reflexivity.
  - reflexivity.
  - reflexivity.
  - reflexivity.
  - vm_compute. reflexivity.
Defined.

Lemma X22_supprimer_puis_rechercher_witness :
  main asciiToLower asciiTrimSpace "Rechercher" "dupont" "" ""
       (fichier (main asciiToLower asciiTrimSpace "supprimer" "dupont" "" ""
                      fichierDupontMartin))
  = {| sortie := [MsgAucunTrouve "dupont"];
       code := 0;
       fichier := fichier (main asciiToLower asciiTrimSpace "supprimer" "dupont" "" ""
                                fichierDupontMartin) |}.
Proof.
  apply (X22_supprimer_puis_rechercher asciiToLower asciiTrimSpace
           "supprimer" "Rechercher" "dupont" "" "" "" "" fichierDupontMartin
           {| Contacts := Some [dupont; martin] |}).
  - vm_compute. reflexivity.
  - exact dupont_martin_uniques.
  - reflexivity.
  - discriminate.
  - reflexivity.
  - vm_compute. reflexivity.
Defined.

(** * Loading a snapshot file of the expected structure *)

(** ** String literals *)

Lemma skipSpace_blancs (w r : string) :
  blancs w = true -> skipSpace (w ++ r) = skipSpace r.
Proof.
  induction w as [|c w IH]; [reflexivity|]. cbn [blancs append skipSpace].
  intros H. apply andb_prop in H. destruct H as [Hc Hw].
  replace (isSpace c) with true; [exact (IH Hw)|].
  repeat (apply orb_prop in Hc; destruct Hc as [Hc|Hc]);
    apply Ascii.eqb_eq in Hc; subst c; reflexivity.
Qed.

Lemma hexValue_chiffreHex (c : ascii) : hexValue c = chiffreHex c.
Proof. destruct c as [[] [] [] [] [] [] [] []]; reflexivity. Qed.

Lemma chiffreHex_borne (c : ascii) (n : N) : chiffreHex c = Some n -> (n < 16)%N.
Proof.
  destruct c as [[] [] [] [] [] [] [] []]; vm_compute; intros H;
    first [discriminate H | injection H as <-; reflexivity].
Qed.

Lemma quatreHex_getu4 (h1 h2 h3 h4 : ascii) (r : N) (t : string) :
  quatreHex h1 h2 h3 h4 = Some r ->
  getu4 (echappementU h1 h2 h3 h4 t) = Some r
  /\ isHex h1 && isHex h2 && isHex h3 && isHex h4 = true
  /\ (r < 0x10000)%N.
Proof.
  unfold quatreHex, getu4, echappementU, isHex. rewrite !hexValue_chiffreHex.
  change ((backslash =? backslash)%char && ("u" =? "u")%char) with true. cbv iota.
  destruct (chiffreHex h1) as [a|] eqn:E1; [|discriminate].
  destruct (chiffreHex h2) as [b|] eqn:E2; [|discriminate].
  destruct (chiffreHex h3) as [c|] eqn:E3; [|discriminate].
  destruct (chiffreHex h4) as [d|] eqn:E4; [|discriminate].
  apply chiffreHex_borne in E1, E2, E3, E4.
  intros [= <-]. repeat split; [f_equal; lia | lia].
Qed.

Lemma hauts_EncodeRune (r : N) :
  (0x80 <= r)%N -> scalaire r -> hauts (EncodeRune r) = true.
Proof.
  unfold scalaire. intros H S.
  destruct (N.le_gt_cases r 0x7FF) as [H2|H2];
    [|destruct (N.le_gt_cases r 0xFFFF) as [H3|H3]].
  - rewrite EncodeRune_2 by lia. cbn [hauts].
    rewrite !octet_ascii_of_N by lia.
    repeat (apply andb_true_intro; split; [apply N.leb_le; lia|]). reflexivity.
  - rewrite EncodeRune_3 by lia. cbn [hauts].
    rewrite !octet_ascii_of_N by lia.
    repeat (apply andb_true_intro; split; [apply N.leb_le; lia|]). reflexivity.
  - rewrite EncodeRune_4 by lia. cbn [hauts].
    rewrite !octet_ascii_of_N by lia.
    repeat (apply andb_true_intro; split; [apply N.leb_le; lia|]). reflexivity.
Qed.

Lemma prefixe_egal (a c : string) :
  forall b d, (a ++ b = c ++ d)%string -> String.length a = String.length c -> a = c.
Proof.
  revert c. induction a as [|x a IH]; intros [|y c] b d E L; try discriminate L.
  - reflexivity.
  - cbn [append] in E. injection E as -> E. f_equal. apply (IH c b d E).
    now injection L.
Qed.

(** The UTF-8 bytes of a character beyond ASCII are copied as they are. *)
Lemma unquoteLoop_EncodeRune (r : N) (m : nat) (t : string) :
  (0x80 <= r)%N -> scalaire r ->
  unquoteLoop (S m) (EncodeRune r ++ t) = option_map (append (EncodeRune r)) (unquoteLoop m t).
Proof.
  intros H S. pose proof (hauts_EncodeRune r H S) as Hh.
  destruct (EncodeRune_commence r t) as (L & r' & D & E).
  destruct (EncodeRune r) as [|c0 p] eqn:Er; [simpl in L; lia|].
  assert (H0 : (0x80 <= octet c0)%N).
  { cbn [hauts] in Hh. apply andb_prop in Hh. apply N.leb_le. exact (proj1 Hh). }
  change ((String c0 p ++ t)%string) with (String c0 (p ++ t)) in D.
  destruct (DecodeRune_multi c0 (p ++ t) r' _ D H0 E)
    as (chunk & reste & Ec & Lc & _ & Enc & _ & _).
  assert (chunk = String c0 p).
  { apply (prefixe_egal chunk (String c0 p) reste t); [|exact Lc]. now rewrite <- Ec. }
  subst chunk. apply (unquoteLoop_multi (String c0 p) t r' m); auto.
Qed.

Lemma scanString_Litteral (t v : string) :
  Litteral t v ->
  forall reste, scanString (t ++ String dquote reste) = Some (t, reste).
Proof.
  induction 1 as [ | c t v Hc Hq Hb _ IH | r t v Hr Hs _ IH | e x t v He _ IH
                   | h1 h2 h3 h4 r t v Hh Hs _ IH
                   | h1 h2 h3 h4 l1 l2 l3 l4 haut bas t v Hh Hl Hhaut Hbas _ IH ];
    intros reste.
  - cbn [append scanString]. now rewrite Ascii.eqb_refl.
  - cbn [append scanString].
    rewrite (proj2 (Ascii.eqb_neq _ _) Hq), (proj2 (Ascii.eqb_neq _ _) Hb).
    replace (octet c <? 0x20)%N with false by (symmetry; apply N.ltb_ge; lia).
    now rewrite IH.
  - rewrite append_assoc, scanString_hauts by now apply hauts_EncodeRune.
    now rewrite IH.
  - cbn [append scanString].
    change ((backslash =? dquote)%char) with false.
    change ((backslash =? backslash)%char) with true. cbv iota.
    replace ((e =? "b") || (e =? "f") || (e =? "n") || (e =? "r") || (e =? "t")
             || (e =? backslash) || (e =? "/") || (e =? dquote))%char with true.
    + now rewrite IH.
    + unfold echappement in He.
      repeat match type of He with
      | (if (?a =? ?b)%char then _ else _) = _ =>
          destruct (Ascii.eqb_spec a b); [subst e; reflexivity|]
      end. discriminate He.
  - destruct (quatreHex_getu4 h1 h2 h3 h4 r t Hh) as (_ & Hx & _).
    unfold echappementU. cbn [append scanString].
    change ((backslash =? dquote)%char) with false.
    change ((backslash =? backslash)%char) with true. cbv iota.
    change ((("u" =? "b") || ("u" =? "f") || ("u" =? "n") || ("u" =? "r") || ("u" =? "t")
             || ("u" =? backslash) || ("u" =? "/") || ("u" =? dquote))%char) with false.
    change (("u" =? "u")%char) with true. cbv iota.
    rewrite Hx. now rewrite IH.
  - destruct (quatreHex_getu4 h1 h2 h3 h4 haut t Hh) as (_ & Hx & _).
    destruct (quatreHex_getu4 l1 l2 l3 l4 bas t Hl) as (_ & Hy & _).
    unfold echappementU. cbn [append scanString].
    change ((backslash =? dquote)%char) with false.
    change ((backslash =? backslash)%char) with true. cbv iota.
    change ((("u" =? "b") || ("u" =? "f") || ("u" =? "n") || ("u" =? "r") || ("u" =? "t")
             || ("u" =? backslash) || ("u" =? "/") || ("u" =? dquote))%char) with false.
    change (("u" =? "u")%char) with true. cbv iota.
    rewrite Hx, Hy. now rewrite IH.
Qed.

Lemma unquoteLoop_Litteral (t v : string) :
  Litteral t v ->
  forall m, String.length t <= m -> unquoteLoop m t = Some v.
Proof.
  induction 1 as [ | c t v Hc Hq Hb _ IH | r t v Hr Hs _ IH | e x t v He _ IH
                   | h1 h2 h3 h4 r t v Hh Hs _ IH
                   | h1 h2 h3 h4 l1 l2 l3 l4 haut bas t v Hh Hl Hhaut Hbas _ IH ];
    intros m L.
  - destruct m; reflexivity.
  - destruct m as [|m]; [simpl in L; lia|]. cbn [String.length] in L.
    cbn [unquoteLoop].
    rewrite (proj2 (Ascii.eqb_neq _ _) Hq), (proj2 (Ascii.eqb_neq _ _) Hb).
    replace (octet c <? 0x20)%N with false by (symmetry; apply N.ltb_ge; lia).
    replace (octet c <? 0x80)%N with true by (symmetry; apply N.ltb_lt; lia).
    cbn [orb]. rewrite IH by lia. reflexivity.
  - rewrite length_append in L.
    destruct (EncodeRune_commence r t) as (L1 & _).
    destruct m as [|m]; [lia|].
    rewrite unquoteLoop_EncodeRune by assumption. rewrite IH by lia. reflexivity.
  - destruct m as [|m]; [simpl in L; lia|].
    cbn [String.length] in L.
    assert (R : unquoteLoop m t = Some v) by (apply IH; lia).
    cbn [unquoteLoop].
    change ((backslash =? backslash)%char) with true. cbv iota.
    unfold echappement in He.
    repeat match type of He with
    | (if (?a =? ?b)%char then _ else _) = _ =>
        destruct (Ascii.eqb_spec a b);
        [subst e; injection He as <-; cbn -[unquoteLoop]; rewrite R; reflexivity|]
    end. discriminate He.
  - destruct (quatreHex_getu4 h1 h2 h3 h4 r t Hh) as (G & _ & B).
    unfold echappementU in L. cbn [String.length] in L.
    destruct m as [|m]; [lia|].
    assert (R : unquoteLoop m t = Some v) by (apply IH; lia).
    unfold echappementU in *. cbn [unquoteLoop].
    change ((backslash =? backslash)%char) with true. cbv iota.
    change ((("u" =? dquote) || ("u" =? backslash) || ("u" =? "/") || ("u" =? "'"))%char)
      with false.
    change (("u" =? "b")%char) with false. change (("u" =? "f")%char) with false.
    change (("u" =? "n")%char) with false. change (("u" =? "r")%char) with false.
    change (("u" =? "t")%char) with false. change (("u" =? "u")%char) with true.
    cbv iota. rewrite G. cbv zeta.
    replace (IsSurrogate r) with false.
    + cbn [drop]. rewrite R. reflexivity.
    + unfold scalaire in Hs. unfold IsSurrogate. symmetry.
      destruct (N.leb_spec 0xD800 r); [|reflexivity].
      destruct (N.ltb_spec r 0xE000); [lia | reflexivity].
  - destruct (quatreHex_getu4 h1 h2 h3 h4 haut (echappementU l1 l2 l3 l4 t) Hh) as (G & _ & _).
    destruct (quatreHex_getu4 l1 l2 l3 l4 bas t Hl) as (G' & _ & _).
    unfold echappementU in L. cbn [String.length] in L.
    destruct m as [|m]; [lia|].
    assert (R : unquoteLoop m t = Some v) by (apply IH; lia).
    set (s6 := echappementU l1 l2 l3 l4 t) in *.
    unfold echappementU at 1. unfold echappementU at 1 in G. cbn [unquoteLoop].
    change ((backslash =? backslash)%char) with true. cbv iota.
    change ((("u" =? dquote) || ("u" =? backslash) || ("u" =? "/") || ("u" =? "'"))%char)
      with false.
    change (("u" =? "b")%char) with false. change (("u" =? "f")%char) with false.
    change (("u" =? "n")%char) with false. change (("u" =? "r")%char) with false.
    change (("u" =? "t")%char) with false. change (("u" =? "u")%char) with true.
    cbv iota. rewrite G. cbv zeta.
    replace (IsSurrogate haut) with true
      by (unfold IsSurrogate; symmetry; apply andb_true_intro;
          split; [apply N.leb_le | apply N.ltb_lt]; lia).
    cbn [drop]. rewrite G'.
    assert (V : utf16_DecodeRune haut bas
                = (0x10000 + (haut - 0xD800) * 0x400 + (bas - 0xDC00))%N).
    { unfold utf16_DecodeRune.
      replace ((0xD800 <=? haut) && (haut <? 0xDC00) && (0xDC00 <=? bas) && (bas <? 0xE000))%N
        with true
        by (symmetry; repeat (apply andb_true_intro; split);
            first [apply N.leb_le | apply N.ltb_lt]; lia).
      rewrite N.shiftl_mul_pow2. change (2 ^ 10)%N with 1024%N.
      rewrite (lor_add 10) by (puissances; lia). lia. }
    rewrite V.
    replace (0x10000 + (haut - 0xD800) * 0x400 + (bas - 0xDC00) =? RuneError)%N with false
      by (symmetry; apply N.eqb_neq; unfold RuneError; lia).
    cbn [negb]. unfold s6, echappementU. cbn [drop]. rewrite R. reflexivity.
Qed.

(** A string literal is read as the string it denotes, whatever follows
    its closing quote. *)
Lemma parseString_Litteral (t v reste : string) :
  Litteral t v -> parseString (t ++ String dquote reste) = Some (v, reste).
Proof.
  intros H. unfold parseString, unquote.
  rewrite (scanString_Litteral t v H).
  now rewrite (unquoteLoop_Litteral t v H).
Qed.

Lemma Litteral_clair (s : string) : clair s = true -> Litteral s s.
Proof.
  induction s as [|c s IH]; [constructor|]. cbn [clair]. intros H.
  apply andb_prop in H. destruct H as [H Hs].
  apply andb_prop in H. destruct H as [H Hb].
  apply andb_prop in H. destruct H as [H Hq].
  apply andb_prop in H. destruct H as [H1 H2].
  apply N.leb_le in H1. apply N.ltb_lt in H2.
  constructor; [lia | | | auto].
  - intros ->. discriminate Hq.
  - intros ->. discriminate Hb.
Qed.

(** ** Members, records and the array *)

Lemma skipSpace_blancs_fin (w : string) : blancs w = true -> skipSpace w = EmptyString.
Proof.
  intros H. pose proof (skipSpace_blancs w EmptyString H) as E.
  replace (w ++ "")%string with w in E; [exact E|].
  clear. induction w as [|c w IH]; [reflexivity|]. cbn [append]. now rewrite <- IH.
Qed.

(** Evaluates the comparisons of two given characters. *)
Ltac tests :=
  repeat (cbv iota;
          match goal with
          | |- context [(?a =? ?b)%char] =>
              let v := eval vm_compute in (a =? b)%char in
              match v with
              | true => change (a =? b)%char with true
              | false => change (a =? b)%char with false
              end
          end);
  cbv iota.

(** Brings a text to the form [String c (... ++ String c' (...))]. *)
Ltac aplatir := repeat (rewrite append_assoc || cbn [append]).

(** The JSON value of a member whose value is the string [valeur]. *)
Lemma parseMembers_Membre (champ valeur t : string) :
  Membre champ valeur t ->
  forall f d suite,
    parseMembers (S (S f)) d (t ++ suite)
    = match skipSpace suite with
      | EmptyString => None
      | String c4 r4 =>
          if (c4 =? ",")%char then
            match parseMembers (S f) d (skipSpace r4) with
            | Some (m, r5) => Some ((champ, JString valeur) :: m, r5)
            | None => None
            end
          else if (c4 =? "}")%char then Some ([(champ, JString valeur)], r4)
          else None
      end.
Proof.
  intros [k v w1 w2 Hk Hv H1 H2] f d suite. unfold entreGuillemets. aplatir.
  cbn [parseMembers]. change ((dquote =? dquote)%char) with true. cbv iota.
  rewrite (parseString_Litteral k champ _ Hk).
  rewrite (skipSpace_blancs w1 _ H1).
  change (skipSpace (String ":" ?x)) with (String ":" x).
  change ((":" =? ":")%char) with true. cbv iota.
  rewrite (skipSpace_blancs w2 _ H2).
  change (skipSpace (String dquote ?x)) with (String dquote x).
  cbn [parseValue].
  change ((dquote =? "{")%char) with false. change ((dquote =? "[")%char) with false.
  change ((dquote =? dquote)%char) with true. cbv iota.
  rewrite (parseString_Litteral v valeur _ Hv). reflexivity.
Qed.

Lemma Membre_debut (champ valeur t : string) :
  Membre champ valeur t -> exists r, t = String dquote r /\ 1 <= String.length r.
Proof.
  intros [k v w1 w2 _ _ _ _]. unfold entreGuillemets. aplatir. eexists. split; [reflexivity|].
  rewrite length_append. cbn [String.length]. lia.
Qed.

Lemma Membres_debut (ms : list (string * string)) (t : string) :
  Membres ms t -> exists r, t = String dquote r /\ 1 <= String.length r.
Proof.
  intros [champ valeur t' H | champ valeur t' w1 w2 ms' ts H _ _ _].
  - exact (Membre_debut _ _ _ H).
  - destruct (Membre_debut _ _ _ H) as (r & -> & L). cbn [append]. eexists.
    split; [reflexivity|]. rewrite length_append. lia.
Qed.

Lemma parseMembers_Membres (ms : list (string * string)) (t : string) :
  Membres ms t ->
  forall f d w r,
    blancs w = true -> String.length t <= f ->
    parseMembers f d (t ++ w ++ String "}" r) = Some (membresJSON ms, r).
Proof.
  induction 1 as [champ valeur t H | champ valeur t w1 w2 ms ts H H1 H2 Hs IH];
    intros f d w r Hw L.
  - destruct (Membre_debut _ _ _ H) as (t' & E & L').
    destruct f as [|[|f]]; [subst t; simpl in L; lia | subst t; simpl in L; lia|].
    rewrite (parseMembers_Membre _ _ _ H), (skipSpace_blancs w _ Hw).
    reflexivity.
  - destruct (Membre_debut _ _ _ H) as (t' & E & L').
    destruct (Membres_debut _ _ Hs) as (ts' & Es & Ls).
    rewrite !length_append in L. cbn [String.length] in L.
    destruct f as [|[|f]]; [subst t; simpl in L; lia | subst t; simpl in L; lia|].
    rewrite !append_assoc.
    rewrite (parseMembers_Membre _ _ _ H), (skipSpace_blancs w1 _ H1).
    cbn [append].
    change (skipSpace (String "," ?x)) with (String "," x).
    change (("," =? ",")%char) with true. cbv iota.
    rewrite (skipSpace_blancs w2 _ H2).
    replace (skipSpace (ts ++ w ++ String "}" r)) with (ts ++ w ++ String "}" r)%string
      by (rewrite Es; reflexivity).
    rewrite (IH (S f) d w r Hw) by lia. reflexivity.
Qed.

Lemma parseValue_objet_Membres (ms : list (string * string)) (t w1 w2 : string) :
  Membres ms t -> blancs w1 = true -> blancs w2 = true ->
  forall f d r,
    (d + 1 <= maxNestingDepth)%N ->
    String.length ("{" ++ w1 ++ t ++ w2 ++ "}") <= f ->
    parseValue f d (("{" ++ w1 ++ t ++ w2 ++ "}") ++ r) = Some (JObject (membresJSON ms), r).
Proof.
  intros Hm H1 H2 f d r D L.
  destruct (Membres_debut _ _ Hm) as (t' & E & L').
  rewrite !length_append in L. cbn [String.length] in L.
  destruct f as [|f]; [lia|]. aplatir. cbn [parseValue].
  change (("{" =? "{")%char) with true. cbv iota.
  replace (maxNestingDepth <? d + 1)%N with false by (symmetry; apply N.ltb_ge; lia).
  rewrite (skipSpace_blancs w1 _ H1).
  pose proof (parseMembers_Membres ms t Hm f (d + 1)%N w2 r H2) as P.
  rewrite E in P |- *. cbn [append skipSpace] in P |- *.
  change (isSpace dquote) with false. cbv iota.
  change ((dquote =? "}")%char) with false. cbv iota.
  rewrite P by (cbn [String.length]; subst t; cbn [String.length] in L; lia).
  reflexivity.
Qed.

(** The three members of a record, in whatever order, give the contact. *)
Lemma storeContact_Permutation (c old : Contact) (ms : list (string * string)) :
  Permutation ms [("nom", Nom c); ("prenom", Prenom c); ("tel", Tel c)] ->
  storeContact (JObject (membresJSON ms)) old = Some c.
Proof.
  intros P.
  pose proof (Permutation_length P) as L.
  destruct ms as [|x [|y [|z [|? ?]]]]; try discriminate L.
  assert (I : forall a, In a [("nom", Nom c); ("prenom", Prenom c); ("tel", Tel c)] ->
                        In a [x; y; z])
    by (intros a; apply Permutation_in; now apply Permutation_sym).
  assert (J : forall a, In a [x; y; z] ->
                        In a [("nom", Nom c); ("prenom", Prenom c); ("tel", Tel c)])
    by (intros a; now apply Permutation_in).
  pose proof (I _ (or_introl eq_refl)) as I1.
  pose proof (I _ (or_intror (or_introl eq_refl))) as I2.
  pose proof (I _ (or_intror (or_intror (or_introl eq_refl)))) as I3.
  pose proof (J _ (or_introl eq_refl)) as Jx.
  pose proof (J _ (or_intror (or_introl eq_refl))) as Jy.
  pose proof (J _ (or_intror (or_intror (or_introl eq_refl)))) as Jz.
  clear I J P L.
  destruct c as [n p t]. cbn [Nom Prenom Tel] in *.
  destruct Jx as [<-|[<-|[<-|[]]]], Jy as [<-|[<-|[<-|[]]]], Jz as [<-|[<-|[<-|[]]]];
    try reflexivity; exfalso; cbn [In] in I1, I2, I3;
    repeat match goal with
    | H : _ \/ _ |- _ => destruct H as [H|H]; try discriminate H
    | H : False |- _ => destruct H
    end.
Qed.

Lemma Enregistrement_debut (c : Contact) (t : string) :
  Enregistrement c t -> exists r, t = String "{" r /\ 1 <= String.length r.
Proof.
  intros [ms tm w1 w2 _ _ _ _]. aplatir. eexists. split; [reflexivity|].
  rewrite !length_append. cbn [String.length]. lia.
Qed.

Lemma Enregistrements_debut (cs : list Contact) (t : string) :
  Enregistrements cs t -> exists r, t = String "{" r /\ 1 <= String.length r.
Proof.
  intros [c t' H | c t' w1 w2 cs' ts H _ _ _].
  - exact (Enregistrement_debut _ _ H).
  - destruct (Enregistrement_debut _ _ H) as (r & -> & L). cbn [append]. eexists.
    split; [reflexivity|]. rewrite length_append. lia.
Qed.

(** A record is read as an object that decodes to its contact. *)
Lemma parseValue_Enregistrement (c : Contact) (t : string) :
  Enregistrement c t ->
  forall f d r,
    (d + 1 <= maxNestingDepth)%N -> String.length t <= f ->
    exists v, parseValue f d (t ++ r) = Some (v, r)
              /\ forall old, storeContact v old = Some c.
Proof.
  intros [ms tm w1 w2 P Hm H1 H2] f d r D L.
  exists (JObject (membresJSON ms)). split.
  - now apply parseValue_objet_Membres.
  - intros old. now apply storeContact_Permutation.
Qed.

Lemma parseElements_Enregistrements (cs : list Contact) (t : string) :
  Enregistrements cs t ->
  forall f d w r,
    (d + 1 <= maxNestingDepth)%N -> blancs w = true -> String.length t < f ->
    exists vs, parseElements f d (t ++ w ++ String "]" r) = Some (vs, r)
               /\ length vs = length cs
               /\ forall slots, storeElements vs slots = Some cs.
Proof.
  induction 1 as [c t H | c t w1 w2 cs ts H H1 H2 Hs IH]; intros f d w r D Hw L.
  - destruct f as [|f]; [lia|].
    destruct (parseValue_Enregistrement c t H f d (w ++ String "]" r) D) as (v & P & S);
      [lia|].
    exists [v]. rewrite parseElements_S, P, (skipSpace_blancs w _ Hw).
    cbn [skipSpace]. change (isSpace "]") with false. cbv iota.
    change (("]" =? ",")%char) with false. change (("]" =? "]")%char) with true. cbv iota.
    split; [reflexivity|]. split; [reflexivity|].
    intros slots. cbn [storeElements].
    destruct slots as [|o sl]; rewrite S; reflexivity.
  - destruct (Enregistrement_debut _ _ H) as (t' & E & L').
    destruct (Enregistrements_debut _ _ Hs) as (ts' & Es & Ls).
    rewrite !length_append in L. cbn [String.length] in L.
    destruct f as [|f]; [lia|].
    destruct (parseValue_Enregistrement c t H f d
                (w1 ++ String "," (w2 ++ ts ++ w ++ String "]" r)) D) as (v & P & S);
      [lia|].
    destruct (IH f d w r D Hw) as (vs & Pe & Le & Se); [subst t; cbn [String.length] in L; lia|].
    exists (v :: vs). aplatir. rewrite parseElements_S, P, (skipSpace_blancs w1 _ H1).
    change (skipSpace (String "," ?x)) with (String "," x).
    change (("," =? ",")%char) with true. cbv iota.
    rewrite (skipSpace_blancs w2 _ H2).
    replace (skipSpace (ts ++ w ++ String "]" r)) with (ts ++ w ++ String "]" r)%string
      by (rewrite Es; reflexivity).
    rewrite Pe. split; [reflexivity|]. split; [cbn [length]; now rewrite Le|].
    intros slots. cbn [storeElements].
    destruct slots as [|o sl]; rewrite S, Se; reflexivity.
Qed.

Lemma Tableau_debut (s : slice Contact) (t : string) :
  Tableau s t -> skipSpace t = t /\ forall r, skipSpace (t ++ r) = (t ++ r)%string.
Proof. intros [|w _|c cs t' w1 w2 _ _ _]; split; reflexivity. Qed.

(** The value of the member [contacts] decodes to the slice recorded. *)
Lemma parseValue_Tableau (s : slice Contact) (t : string) :
  Tableau s t ->
  forall f d r,
    (d + 2 <= maxNestingDepth)%N -> String.length t <= f ->
    exists v, parseValue f d (t ++ r) = Some (v, r)
              /\ option_map visible (storeContacts v {| visible := Some []; behind := [] |})
                 = Some s.
Proof.
  intros [|w Hw|c cs t' w1 w2 He H1 H2] f d r D L.
  - destruct f as [|f]; [simpl in L; lia|]. exists JNull. split; reflexivity.
  - destruct f as [|f]; [simpl in L; lia|]. exists (JArray []). split; [|reflexivity].
    aplatir. cbn [parseValue]. change (("[" =? "{")%char) with false.
    change (("[" =? "[")%char) with true. cbv iota.
    replace (maxNestingDepth <? d + 1)%N with false by (symmetry; apply N.ltb_ge; lia).
    rewrite (skipSpace_blancs w _ Hw). reflexivity.
  - destruct (Enregistrements_debut _ _ He) as (t'' & E & L').
    rewrite !length_append in L. cbn [String.length] in L.
    destruct f as [|f]; [lia|].
    destruct (parseElements_Enregistrements _ _ He f (d + 1)%N w2 r) as (vs & P & Lv & S);
      [lia | exact H2 | lia |].
    exists (JArray vs). split.
    + aplatir. cbn [parseValue]. change (("[" =? "{")%char) with false.
      change (("[" =? "[")%char) with true. cbv iota.
      replace (maxNestingDepth <? d + 1)%N with false by (symmetry; apply N.ltb_ge; lia).
      rewrite (skipSpace_blancs w1 _ H1).
      rewrite E in P |- *. cbn [append skipSpace] in P |- *.
      change (isSpace "{") with false. cbv iota.
      change (("{" =? "]")%char) with false. cbv iota.
      now rewrite P.
    + destruct vs as [|v vs]; [discriminate Lv|].
      cbn [storeContacts]. rewrite S. reflexivity.
Qed.

(** The document: an object with the member [contacts]. *)
Lemma parseDocument_Snapshot (s : slice Contact) (data : string) :
  Snapshot s data ->
  exists v, parseDocument data = Some (JObject [("contacts", v)])
            /\ option_map visible (storeContacts v {| visible := Some []; behind := [] |})
               = Some s.
Proof.
  intros [k t w1 w2 w3 w4 w5 w6 Hk Ht H1 H2 H3 H4 H5 H6].
  set (doc := (w1 ++ "{" ++ w2 ++ entreGuillemets k ++ w3 ++ ":" ++ w4 ++ t
                   ++ w5 ++ "}" ++ w6)%string).
  assert (L : String.length t + 5 <= String.length doc).
  { unfold doc, entreGuillemets. rewrite !length_append. cbn [String.length].
    rewrite !length_append. cbn [String.length]. lia. }
  unfold parseDocument.
  destruct (2 * String.length doc + 1) as [|[|f]] eqn:F; [lia | lia|].
  destruct (parseValue_Tableau s t Ht f 1%N (w5 ++ String "}" w6)) as (v & P & S);
    [unfold maxNestingDepth; lia | lia |].
  exists v. split; [|exact S].
  unfold doc, entreGuillemets. rewrite (skipSpace_blancs w1 _ H1). aplatir.
  change (skipSpace (String "{" ?x)) with (String "{" x).
  cbn [parseValue]. tests.
  change (maxNestingDepth <? 0 + 1)%N with false. cbv iota.
  rewrite (skipSpace_blancs w2 _ H2).
  change (skipSpace (String dquote ?x)) with (String dquote x). tests.
  cbn [parseMembers]. tests.
  rewrite (parseString_Litteral k "contacts" _ Hk).
  rewrite (skipSpace_blancs w3 _ H3).
  change (skipSpace (String ":" ?x)) with (String ":" x). tests.
  rewrite (skipSpace_blancs w4 _ H4).
  rewrite (proj2 (Tableau_debut s t Ht)).
  change (0 + 1)%N with 1%N. rewrite P.
  rewrite (skipSpace_blancs w5 _ H5).
  change (skipSpace (String "}" ?x)) with (String "}" x). tests.
  now rewrite (skipSpace_blancs_fin w6 H6).
Qed.

(** A readable snapshot file of the expected structure loads to the slice
    it records. *)
Lemma chargerAnnuaire_Snapshot (data : string) (s : slice Contact) (i : bool) :
  Snapshot s data ->
  chargerAnnuaire {| contenu := Some data; lisible := true; inscriptible := i |}
  = (Some {| Contacts := s |}, None).
Proof.
  intros H. destruct (parseDocument_Snapshot s data H) as (v & P & S).
  unfold chargerAnnuaire, os_Stat_IsNotExist, os_ReadFile. cbn [contenu lisible].
  unfold json_Unmarshal. rewrite P. cbn [storeAnnuaireMembers Contacts].
  change (equalFold "contacts" "contacts") with true. cbv iota.
  destruct (storeContacts v {| visible := Some []; behind := [] |}) as [t|];
    [|discriminate S].
  cbn [option_map] in S. injection S as ->. reflexivity.
Qed.

(** C10. [chargerAnnuaire] validates nothing: for every snapshot file of
    the expected structure that can be read, one object whose member
    [contacts] is [null] or an array of records with the string members
    [nom], [prenom] and [tel], however the file is laid out (white space,
    order of the members, escapes), it succeeds and returns exactly the
    contacts recorded, in order, whatever they are: names equal up to case,
    empty names or phone numbers and surrounding white space are all
    accepted. *)
Theorem C10_chargement_sans_validation (data : string) (s : slice Contact) (i : bool) :
  Snapshot s data ->
  chargerAnnuaire {| contenu := Some data; lisible := true; inscriptible := i |}
  = (Some {| Contacts := s |}, None).
Proof. exact (chargerAnnuaire_Snapshot data s i). Qed.

(** ** A closed instance *)

Lemma Membre_texte (champ valeur k v : string) :
  Litteral k champ -> Litteral v valeur -> Membre champ valeur (membreTexte k v).
Proof.
  intros Hk Hv. exact (Membre_intro champ valeur k v "" " " Hk Hv eq_refl eq_refl).
Defined.

Lemma Enregistrement_trois (c : Contact) (p1 p2 p3 : string * string)
      (t1 t2 t3 w0 w1 w2 w3 w4 w5 : string) :
  Permutation [p1; p2; p3] [("nom", Nom c); ("prenom", Prenom c); ("tel", Tel c)] ->
  Membre (fst p1) (snd p1) t1 -> Membre (fst p2) (snd p2) t2 -> Membre (fst p3) (snd p3) t3 ->
  blancs w0 = true -> blancs w1 = true -> blancs w2 = true ->
  blancs w3 = true -> blancs w4 = true -> blancs w5 = true ->
  Enregistrement c ("{" ++ w0 ++ (t1 ++ w1 ++ "," ++ w2 ++ (t2 ++ w3 ++ "," ++ w4 ++ t3))
                        ++ w5 ++ "}").
Proof.
  intros P M1 M2 M3 B0 B1 B2 B3 B4 B5.
  destruct p1 as [k1 v1], p2 as [k2 v2], p3 as [k3 v3].
  apply (Enregistrement_intro c [(k1, v1); (k2, v2); (k3, v3)]); try assumption.
  apply Membres_plus; try assumption.
  apply Membres_plus; try assumption.
  apply Membres_un. assumption.
Defined.

Lemma snapshotDesordonne_Snapshot : Snapshot (Some contactsIrreguliers) snapshotDesordonne.
Proof.
  assert (J : Litteral (String backslash "u004aeanne") "Jeanne").
  { exact (Litteral_u "0" "0" "4" "a" 0x4A "eanne" "eanne" eq_refl
             (or_introl eq_refl) (Litteral_clair "eanne" eq_refl)). }
  assert (M : Litteral (" Martin" ++ String backslash "u0020") " Martin ").
  { change (Litteral (" Martin" ++ String backslash "u0020") (" Martin" ++ " ")).
    assert (E : Litteral (String backslash "u0020") " ")
      by exact (Litteral_u "0" "0" "2" "0" 0x20 "" "" eq_refl (or_introl eq_refl) Litteral_fin).
    cbn [append].
    repeat (apply Litteral_ascii;
            [split; [vm_compute; discriminate | reflexivity] | discriminate | discriminate |]).
    exact E. }
  assert (E1 : Enregistrement {| Nom := "Dupont"; Prenom := "Jean"; Tel := "0123456789" |}
                              enrDupont).
  { apply (Enregistrement_trois _ ("tel", "0123456789") ("nom", "Dupont") ("prenom", "Jean")
             (membreTexte "tel" "0123456789") (membreTexte "nom" "Dupont")
             (membreTexte "prenom" "Jean") "" "" " " "" " " "");
      try reflexivity; try (apply Membre_texte; apply Litteral_clair; reflexivity).
    apply (Permutation_cons_app [_; _] [] _). apply Permutation_refl. }
  assert (E2 : Enregistrement {| Nom := "DUPONT"; Prenom := "Jeanne"; Tel := " 0600000000 " |}
                              enrDupontMajuscules).
  { apply (Enregistrement_trois _ ("nom", "DUPONT") ("tel", " 0600000000 ")
             ("prenom", "Jeanne")
             (membreTexte "nom" "DUPONT") (membreTexte "tel" " 0600000000 ")
             (membreTexte "prenom" (String backslash "u004aeanne")) " " " " "" "" "" " ");
      try reflexivity.
    - apply perm_skip. apply perm_swap.
    - apply Membre_texte; apply Litteral_clair; reflexivity.
    - apply Membre_texte; apply Litteral_clair; reflexivity.
    - apply Membre_texte; [apply Litteral_clair; reflexivity | exact J]. }
  assert (E3 : Enregistrement {| Nom := " Martin "; Prenom := ""; Tel := "0611223344" |}
                              enrMartin).
  { apply (Enregistrement_trois _ ("prenom", "") ("tel", "0611223344") ("nom", " Martin ")
             (membreTexte "prenom" "") (membreTexte "tel" "0611223344")
             (membreTexte "nom" (" Martin" ++ String backslash "u0020")) "" "" "" "" "" "");
      try reflexivity.
    - apply Permutation_sym. apply (Permutation_cons_app [_; _] [] _). apply Permutation_refl.
    - apply Membre_texte; apply Litteral_clair; reflexivity.
    - apply Membre_texte; apply Litteral_clair; reflexivity.
    - apply Membre_texte; [apply Litteral_clair; reflexivity | exact M]. }
  assert (E4 : Enregistrement {| Nom := ""; Prenom := "Anne"; Tel := "" |} enrSansNom).
  { apply (Enregistrement_trois _ ("tel", "") ("prenom", "Anne") ("nom", "")
             (membreTexte "tel" "") (membreTexte "prenom" "Anne") (membreTexte "nom" "")
             "" "" "" "" "" "");
      try reflexivity; try (apply Membre_texte; apply Litteral_clair; reflexivity).
    apply Permutation_sym.
    exact (Permutation_rev [("nom", ""); ("prenom", "Anne"); ("tel", "")]). }
  apply (Snapshot_intro _ "contacts"
           ("[" ++ String newline ""
                ++ (enrDupont ++ "" ++ "," ++ String newline ""
                      ++ (enrDupontMajuscules ++ " " ++ "," ++ " "
                            ++ (enrMartin ++ "" ++ "," ++ "" ++ enrSansNom)))
                ++ String newline "" ++ "]")
           " " "" " " " " "" (String newline ""));
    try reflexivity.
  - apply Litteral_clair. reflexivity.
  - apply Tableau_plein; try reflexivity.
    apply Enregistrements_plus; try reflexivity; [exact E1|].
    apply Enregistrements_plus; try reflexivity; [exact E2|].
    apply Enregistrements_plus; try reflexivity; [exact E3|].
    apply Enregistrements_un. exact E4.
Defined.

Lemma C10_chargement_sans_validation_witness :
  chargerAnnuaire {| contenu := Some snapshotDesordonne; lisible := true;
                     inscriptible := false |}
  = (Some {| Contacts := Some contactsIrreguliers |}, None).
Proof.
  apply (C10_chargement_sans_validation snapshotDesordonne (Some contactsIrreguliers) false).
  exact snapshotDesordonne_Snapshot.
Defined.

(** * The file that [sauvegarderAnnuaire] writes *)

(** The rune of a valid sequence of two bytes or more is a scalar value
    beyond ASCII: [DecodeRune] accepts no overlong form and no surrogate. *)
Lemma DecodeRune_scalaire (c0 : ascii) (p1 : string) (r : N) (size : nat) :
  DecodeRune (String c0 p1) = (r, size) ->
  (0x80 <= octet c0)%N ->
  (r =? RuneError)%N && (size =? 1)%nat = false ->
  (0x80 <= r)%N /\ scalaire r.
Proof.
  unfold DecodeRune, scalaire. pose proof (first_bornes (octet c0)) as F.
  destruct (first (octet c0)) as [| |sz lo hi] eqn:E; [lia | intros [= <- <-]; discriminate |].
  destruct F as [[Hlo Hhi] F].
  destruct p1 as [|c1 p2]; [intros [= <- <-]; discriminate|].
  destruct (horsDe lo hi (octet c1)) eqn:R1; [intros [= <- <-]; discriminate|].
  pose proof (horsDe_false _ _ _ R1) as B1.
  destruct F as [[-> F]|[[-> (F & Fl & Fh)]|[-> (F & Fl & Fh)]]]; cbn [Nat.leb].
  - intros [= <- <-] _ _. rewrite rune2_valeur by lia. lia.
  - destruct p2 as [|c2 p3]; [intros [= <- <-]; discriminate|].
    destruct (horsDe 128 191 (octet c2)) eqn:R2; [intros [= <- <-]; discriminate|].
    pose proof (horsDe_false _ _ _ R2) as B2.
    intros [= <- <-] _ _. rewrite rune3_valeur by lia. lia.
  - destruct p2 as [|c2 p3]; [intros [= <- <-]; discriminate|].
    destruct (horsDe 128 191 (octet c2)) eqn:R2; [intros [= <- <-]; discriminate|].
    pose proof (horsDe_false _ _ _ R2) as B2.
    destruct p3 as [|c3 p4]; [intros [= <- <-]; discriminate|].
    destruct (horsDe 128 191 (octet c3)) eqn:R3; [intros [= <- <-]; discriminate|].
    pose proof (horsDe_false _ _ _ R3) as B3.
    intros [= <- <-] _ _. rewrite rune4_valeur by lia. lia.
Qed.

(** What the encoder writes for an ASCII byte denotes that byte. *)
Lemma Litteral_encAscii (c : ascii) (t v : string) :
  (octet c < 0x80)%N -> Litteral t v -> Litteral (encAscii c ++ t) (String c v).
Proof.
  intros A H.
  destruct c as [[] [] [] [] [] [] [] []];
    try (exfalso; vm_compute in A; discriminate A); clear A;
    match goal with
    | |- Litteral (encAscii ?c ++ _) _ =>
        let e := eval vm_compute in (encAscii c) in change (encAscii c) with e
    end; cbn [append];
    first
      [ apply Litteral_ascii;
        [split; [vm_compute; discriminate | reflexivity] | discriminate | discriminate
        | exact H]
      | apply Litteral_echappement; [reflexivity | exact H]
      | match goal with
        | |- Litteral (String _ (String _ (String ?a (String ?b (String ?c (String ?d _))))))
                      (String ?x _) =>
            let r := eval vm_compute in (octet x) in
            exact (Litteral_u a b c d r t v eq_refl (or_introl eq_refl) H)
        end ].
Qed.

(** What [appendString] writes between the quotes for a string of valid
    UTF-8 is a JSON string that denotes it. *)
Lemma Litteral_appendStringLoop (n : nat) :
  forall s, String.length s <= n -> validLoop n s = true ->
            Litteral (appendStringLoop n s) s.
Proof.
  induction n as [|n IH]; intros s L V.
  - destruct s; [constructor | simpl in L; lia].
  - destruct s as [|c r]; [constructor|].
    rewrite validLoop_S in V. rewrite appendStringLoop_S.
    destruct (N.ltb_spec (octet c) 0x80) as [A|A].
    + rewrite (DecodeRune_ascii c r A) in V.
      replace ((octet c =? RuneError)%N) with false in V
        by (symmetry; apply N.eqb_neq; unfold RuneError; lia).
      cbn [andb drop] in V. simpl in L.
      apply Litteral_encAscii; [exact A|]. apply IH; [lia | exact V].
    + destruct (DecodeRune (String c r)) as [rr size] eqn:D.
      destruct ((rr =? RuneError)%N && (size =? 1)%nat) eqn:Err; [discriminate|].
      destruct (DecodeRune_scalaire c r rr size D A Err) as [Hr Hs].
      destruct (DecodeRune_multi c r rr size D A Err)
        as (chunk & reste & Es & Lc & L1 & Enc & Hh & Dt).
      subst size. rewrite Es in L, V |- *. rewrite drop_append in V |- *.
      rewrite ?take_append. rewrite length_append in L.
      assert (R : Litteral (appendStringLoop n reste) reste) by (apply IH; [lia | exact V]).
      rewrite <- Enc.
      destruct ((rr =? 0x2028) || (rr =? 0x2029))%N eqn:Sep.
      * assert (Hq : rr = 0x2028%N \/ rr = 0x2029%N).
        { apply orb_prop in Sep. destruct Sep as [Sep|Sep]; apply N.eqb_eq in Sep; auto. }
        destruct Hq as [-> | ->].
        -- exact (Litteral_u "2" "0" "2" "8" 0x2028 _ _ eq_refl (or_introl eq_refl) R).
        -- exact (Litteral_u "2" "0" "2" "9" 0x2029 _ _ eq_refl (or_introl eq_refl) R).
      * apply Litteral_utf8; assumption.
Qed.

Lemma blancs_indentation (k : nat) : blancs (indentation k) = true.
Proof. induction k as [|k IH]; [reflexivity | exact IH]. Qed.

Lemma blancs_appendNewline (k : nat) : blancs (appendNewline k) = true.
Proof. exact (blancs_indentation k). Qed.

(** A member as the encoder writes it. *)
Lemma Membre_encode (champ valeur : string) :
  clair champ = true -> ValidString valeur = true ->
  Membre champ valeur (quoted champ ++ ": " ++ appendString valeur).
Proof.
  intros Hc Hv.
  exact (Membre_intro champ valeur champ (appendStringLoop (String.length valeur) valeur)
           "" " " (Litteral_clair champ Hc)
           (Litteral_appendStringLoop _ valeur (le_n _) Hv) eq_refl eq_refl).
Qed.

(** A record as the encoder writes it. *)
Lemma Enregistrement_encodeContact (c : Contact) :
  contactValide c = true -> Enregistrement c (encodeContact c).
Proof.
  unfold contactValide. intros V.
  apply andb_prop in V. destruct V as [V Vt]. apply andb_prop in V. destruct V as [Vn Vp].
  replace (encodeContact c)
    with ("{" ++ appendNewline 3
              ++ ((quoted "nom" ++ ": " ++ appendString (Nom c))
                    ++ "" ++ "," ++ appendNewline 3
                    ++ ((quoted "prenom" ++ ": " ++ appendString (Prenom c))
                          ++ "" ++ "," ++ appendNewline 3
                          ++ (quoted "tel" ++ ": " ++ appendString (Tel c))))
              ++ appendNewline 2 ++ "}")%string
    by (unfold encodeContact; aplatir; reflexivity).
  apply (Enregistrement_intro c [("nom", Nom c); ("prenom", Prenom c); ("tel", Tel c)]);
    [apply Permutation_refl | | apply blancs_appendNewline | apply blancs_appendNewline].
  apply Membres_plus;
    [now apply Membre_encode | reflexivity | apply blancs_appendNewline |].
  apply Membres_plus;
    [now apply Membre_encode | reflexivity | apply blancs_appendNewline |].
  apply Membres_un. now apply Membre_encode.
Qed.

Lemma Enregistrements_encode (cs : list Contact) :
  forall c, forallb contactValide (c :: cs) = true ->
            Enregistrements (c :: cs) (encodeContact c ++ encodeSuite cs).
Proof.
  induction cs as [|c' cs IH]; intros c V; cbn [forallb] in V;
    apply andb_prop in V; destruct V as [Vc V].
  - cbn [encodeSuite]. replace (encodeContact c ++ "")%string with (encodeContact c).
    + apply Enregistrements_un. now apply Enregistrement_encodeContact.
    + generalize (encodeContact c). clear. intros s.
      induction s as [|x s IHs]; [reflexivity|]. cbn [append]. now rewrite <- IHs.
  - cbn [encodeSuite].
    change (encodeContact c ++ "," ++ appendNewline 2 ++ encodeContact c' ++ encodeSuite cs)%string
      with (encodeContact c ++ "" ++ "," ++ appendNewline 2
                           ++ (encodeContact c' ++ encodeSuite cs))%string.
    apply Enregistrements_plus;
      [now apply Enregistrement_encodeContact | reflexivity | apply blancs_appendNewline |].
    apply IH. exact V.
Qed.

Lemma Tableau_encodeContacts (s : slice Contact) :
  forallb contactValide (elems s) = true -> Tableau s (encodeContacts s).
Proof.
  destruct s as [[|c cs]|]; cbn [elems encodeContacts]; intros V.
  - exact (Tableau_vide "" eq_refl).
  - replace ("[" ++ appendNewline 2 ++ encodeContact c ++ encodeSuite cs
                 ++ appendNewline 1 ++ "]")%string
      with ("[" ++ appendNewline 2 ++ (encodeContact c ++ encodeSuite cs)
                ++ appendNewline 1 ++ "]")%string
      by (aplatir; reflexivity).
    apply Tableau_plein;
      [now apply Enregistrements_encode | apply blancs_appendNewline
       | apply blancs_appendNewline].
  - exact Tableau_null.
Qed.

(** What [json.MarshalIndent] writes for a directory of valid UTF-8
    strings has the expected structure and records its contacts. *)
Lemma Snapshot_MarshalIndent (a : Annuaire) :
  annuaireValide a = true ->
  exists data, json_MarshalIndent a = Some data /\ Snapshot (Contacts a) data.
Proof.
  intros V. unfold json_MarshalIndent. eexists. split; [reflexivity|].
  exact (Snapshot_intro (Contacts a) "contacts" (encodeContacts (Contacts a))
           "" (appendNewline 1) "" " " (appendNewline 0) ""
           (Litteral_clair "contacts" eq_refl) (Tableau_encodeContacts _ V)
           eq_refl eq_refl eq_refl eq_refl eq_refl eq_refl).
Qed.

(** X23. The file [sauvegarderAnnuaire] writes has the expected structure
    and records the directory: for a directory whose strings are valid
    UTF-8 and a file that can be written, the contents of the file
    afterwards are a JSON document, one object whose member [contacts] is
    [null] for the nil slice and otherwise the array of the contacts in
    order, each an object with the string members [nom], [prenom] and
    [tel] that denote its three fields. *)
Theorem X23_sauvegarde_conforme (a : Annuaire) (f : Fichier) :
  annuaireValide a = true ->
  inscriptible f = true ->
  exists data,
    contenu (fst (sauvegarderAnnuaire a f)) = Some data
    /\ Snapshot (Contacts a) data.
Proof.
  intros V W. destruct (Snapshot_MarshalIndent a V) as (data & M & S).
  exists data. unfold sauvegarderAnnuaire, os_WriteFile. rewrite M, W.
  split; [reflexivity | exact S].
Qed.

(** X24. Saving what was loaded keeps what the file records: when a
    snapshot file of the expected structure that can be read and written
    is loaded and the directory saved back unchanged, both succeed and the
    new contents, whatever their layout, record the same contacts in the
    same order. *)
Theorem X24_sauvegarder_apres_chargement (data : string) (s : slice Contact) :
  Snapshot s data ->
  let f := {| contenu := Some data; lisible := true; inscriptible := true |} in
  exists a data',
    chargerAnnuaire f = (Some a, None)
    /\ snd (sauvegarderAnnuaire a f) = None
    /\ contenu (fst (sauvegarderAnnuaire a f)) = Some data'
    /\ Snapshot s data'.
Proof.
  intros H f. pose proof (chargerAnnuaire_Snapshot data s true H) as C. fold f in C.
  pose proof (chargerAnnuaire_valide f _ C) as V.
  destruct (Snapshot_MarshalIndent _ V) as (data' & M & S). cbn [Contacts] in S.
  exists {| Contacts := s |}, data'.
  unfold sauvegarderAnnuaire, os_WriteFile. rewrite M.
  refine (conj C (conj eq_refl (conj eq_refl S))).
Qed.

Lemma X23_sauvegarde_conforme_witness :
  exists data,
    contenu (fst (sauvegarderAnnuaire {| Contacts := Some [dupont; martin; durand] |}
                                      fichierAbsent)) = Some data
    /\ Snapshot (Some [dupont; martin; durand]) data.
Proof.
  apply (X23_sauvegarde_conforme {| Contacts := Some [dupont; martin; durand] |} fichierAbsent);
    reflexivity.
Defined.

Lemma X24_sauvegarder_apres_chargement_witness :
  exists a data',
    chargerAnnuaire {| contenu := Some snapshotDesordonne; lisible := true;
                       inscriptible := true |} = (Some a, None)
    /\ snd (sauvegarderAnnuaire a {| contenu := Some snapshotDesordonne; lisible := true;
                                     inscriptible := true |}) = None
    /\ contenu (fst (sauvegarderAnnuaire a {| contenu := Some snapshotDesordonne;
                                              lisible := true; inscriptible := true |}))
       = Some data'
    /\ Snapshot (Some contactsIrreguliers) data'.
Proof.
  exact (X24_sauvegarder_apres_chargement snapshotDesordonne (Some contactsIrreguliers)
           snapshotDesordonne_Snapshot).
Defined.
